(** * Pi-hole Blocklist Optimizer: the normalization engine and the aggregator

    A shallow embedding of [src/pihole_downloader.py]:
    [is_valid_domain], [extract_domain_from_line], [optimize_blocklist] and
    the aggregation step of [create_production_lists], with the three
    module-level regular expressions transcribed into a small backtracking
    matcher that follows the priority order of Python's [re]; then the
    configuration file ([load_config], [update_config_file]), the
    processing of the lists ([process_blocklist] and the sequential branch
    of [run], with the outside world as an input), the master list and the
    detailed part of the statistics report.

    Text is a sequence of characters; a character is modelled as an 8-bit
    code point ([ascii]), so the character classes below are Python's
    classes restricted to code points below 256. *)

From Stdlib Require Import Ascii String List Bool Arith NArith Lia.
From Stdlib Require Import DecimalString Decimal.
From stdpp Require Import base gmap sets list strings sorting.

Set Warnings "-clear-no-such-hyp".

Open Scope list_scope.

(** ** Text and characters *)

Abbreviation text := (list ascii).

Definition str (s : string) : text := list_ascii_of_string s.

Definition code (c : ascii) : N := N_of_ascii c.

Definition in_range (lo hi : N) (c : ascii) : bool :=
  ((lo <=? code c) && (code c <=? hi))%N.

Definition is_chr (a c : ascii) : bool := Ascii.eqb a c.

Definition LF : ascii := ascii_of_N 10.
Definition CR : ascii := ascii_of_N 13.

(** [str.isspace] / [\s] below U+0100: TAB..CR, FS..US, SPACE, NEL, NBSP. *)
Definition is_space (c : ascii) : bool :=
  in_range 9 13 c || in_range 28 32 c || (code c =? 133)%N || (code c =? 160)%N.

(** [\d] below U+0100. *)
Definition is_digit (c : ascii) : bool := in_range 48 57 c.

(** [[a-zA-Z0-9]] *)
Definition is_alnum (c : ascii) : bool :=
  in_range 97 122 c || in_range 65 90 c || in_range 48 57 c.

(** The line boundaries of [str.splitlines] below U+0100:
    LF, VT, FF, CR, FS, GS, RS, NEL. *)
Definition is_linebreak (c : ascii) : bool :=
  in_range 10 13 c || in_range 28 30 c || (code c =? 133)%N.

(** [str.lower] on one character (below U+0100: A-Z and the Latin-1
    capitals other than the multiplication sign). *)
Definition lower_chr (c : ascii) : ascii :=
  if in_range 65 90 c || (in_range 192 222 c && negb (code c =? 215)%N)
  then ascii_of_N (code c + 32) else c.

Definition lower (s : text) : text := map lower_chr s.

Fixpoint lstrip (s : text) : text :=
  match s with
  | c :: s' => if is_space c then lstrip s' else s
  | [] => []
  end.

Definition rstrip (s : text) : text := rev (lstrip (rev s)).

(** [s.strip()] *)
Definition strip (s : text) : text := rstrip (lstrip s).

(** [s.startswith(p)] *)
Fixpoint startswith (p s : text) : bool :=
  match p, s with
  | [], _ => true
  | a :: p', b :: s' => is_chr a b && startswith p' s'
  | _ :: _, [] => false
  end.

(** [s.endswith(p)] *)
Definition endswith (p s : text) : bool := startswith (rev p) (rev s).

(** [p in s] for strings *)
Fixpoint contains (p s : text) : bool :=
  startswith p s || match s with [] => false | _ :: s' => contains p s' end.

(** [c in s] for a one-character string [c] *)
Definition has_chr (c : ascii) (s : text) : bool := existsb (is_chr c) s.

(** [s[k:-1]] *)
Definition slice_to_last (k : nat) (s : text) : text :=
  drop k (take (length s - 1) s).

(** [sep.join(ls)] *)
Fixpoint join (sep : text) (ls : list text) : text :=
  match ls with
  | [] => []
  | [l] => l
  | l :: ls' => l ++ sep ++ join sep ls'
  end.

(** [s.splitlines()]: a line ends at a line boundary, CR LF counts as one
    boundary, and a boundary at the very end opens no further line. *)
Fixpoint splitlines (s : text) : list text :=
  match s with
  | [] => []
  | c :: s' =>
      if is_linebreak c then
        match s' with
        | d :: s'' =>
            if is_chr CR c && is_chr LF d then [] :: splitlines s''
            else [] :: splitlines s'
        | [] => [[]]
        end
      else
        match splitlines s' with
        | [] => [[c]]
        | l :: ls => (c :: l) :: ls
        end
  end.

(** [str(n)] for a non-negative integer *)
Definition str_of_nat (n : nat) : text :=
  str (NilEmpty.string_of_uint (Nat.to_uint n)).

(** Comparison of strings: lexicographic on code points. *)
Fixpoint text_leb (a b : text) : bool :=
  match a, b with
  | [], _ => true
  | _ :: _, [] => false
  | x :: a', y :: b' =>
      if (code x <? code y)%N then true
      else if (code y <? code x)%N then false
      else text_leb a' b'
  end.

Definition text_le (a b : text) : Prop := text_leb a b = true.

#[global] Instance text_le_dec : RelDecision text_le.
Proof. intros a b. unfold text_le. apply _. Defined.

(** [sorted(xs)] on strings *)
Definition sorted (xs : list text) : list text := merge_sort text_le xs.

(** ** Regular expressions

    The fragment of Python's [re] syntax that the program uses. A match is
    attempted at the start of the subject (the patterns are only used
    through [Pattern.match], under which a leading [^] holds trivially, or
    scanned by [re.sub]), alternatives are tried left to right, a greedy
    repetition tries one more iteration before stopping and a lazy one
    stops before trying another; one capturing group is recorded. *)

Inductive regex : Type :=
| Cls (p : ascii -> bool)                               (* a character class *)
| Cat (r1 r2 : regex)                                     (* r1 r2 *)
| Alt (r1 r2 : regex)                                     (* r1|r2 *)
| Rep (greedy : bool) (lo : nat) (hi : option nat) (r : regex) (* r{lo,hi} *)
| Grp (r : regex)                                         (* ( r ) *)
| Eol.                                                    (* $ *)

(** [$] without MULTILINE: at the end, or before a final newline. *)
Definition at_eol (s : text) : bool :=
  match s with
  | [] => true
  | [c] => is_chr LF c
  | _ => false
  end.

Definition orelse {A} (x y : option A) : option A :=
  match x with Some _ => x | None => y end.

Section Matcher.
Context {A : Type}.

  (** A continuation receives the rest of the subject and the group. *)
Definition cont : Type := text -> option text -> option A.

  (** [n] further iterations are allowed, [lo] are still required. *)
Fixpoint rep_loop (body : text -> option text -> cont -> option A)
      (greedy : bool) (k : cont) (n lo : nat) (s : text) (g : option text)
      : option A :=
    let stop := match lo with 0 => k s g | S _ => None end in
    let more :=
      match n with
      | 0 => None
      | S n' => body s g (fun s' g' => rep_loop body greedy k n' (pred lo) s' g')
      end in
    if greedy then orelse more stop else orelse stop more.

  (** An unbounded repetition is given as many iterations as the subject
      has characters left: every repeated expression of this program
      consumes at least one character per iteration. *)
Fixpoint run (r : regex) (s : text) (g : option text) (k : cont) : option A :=
    match r with
    | Cls p =>
        match s with
        | c :: s' => if p c then k s' g else None
        | [] => None
        end
    | Cat r1 r2 => run r1 s g (fun s' g' => run r2 s' g' k)
    | Alt r1 r2 => orelse (run r1 s g k) (run r2 s g k)
    | Rep greedy lo hi r' =>
        rep_loop (run r') greedy k
          (match hi with Some h => h | None => length s end) lo s g
    | Grp r' =>
        run r' s g (fun s' _ => k s' (Some (take (length s - length s') s)))
    | Eol => if at_eol s then k s g else None
    end.
End Matcher.

(** [pattern.match(s)]: [None], or the match with its group 1. *)
Definition re_match (r : regex) (s : text) : option (option text) :=
  run r s None (fun _ g => Some g).

(** [re.sub(r, '', s)]: scan from the left; where the pattern matches, drop
    the matched part and go on behind it, elsewhere keep the character.
    (The one pattern used with it never matches the empty string.) *)
Fixpoint re_sub_empty_go (fuel : nat) (r : regex) (s : text) : text :=
  match fuel with
  | 0 => s
  | S fuel' =>
      match s with
      | [] => []
      | c :: s' =>
          match run r s None (fun rest _ => Some rest) with
          | Some rest =>
              if length rest <? length s then re_sub_empty_go fuel' r rest
              else c :: re_sub_empty_go fuel' r s'
          | None => c :: re_sub_empty_go fuel' r s'
          end
      end
  end.

Definition re_sub_empty (r : regex) (s : text) : text :=
  re_sub_empty_go (length s) r s.

(** Pattern syntax. *)
Definition chr (c : string) : regex :=
  Cls (fun x => match str c with [a] => is_chr a x | _ => false end).
Definition star (r : regex) : regex := Rep true 0 None r.
Definition plus (r : regex) : regex := Rep true 1 None r.
Definition plus_lazy (r : regex) : regex := Rep false 1 None r.
Definition opt (r : regex) : regex := Rep true 0 (Some 1) r.
Definition between (lo hi : nat) (r : regex) : regex := Rep true lo (Some hi) r.
Definition dot : regex := Cls (fun c => negb (is_chr LF c)).        (* . *)
Definition ws : regex := Cls is_space.                              (* \s *)
Definition nonws : regex := Cls (fun c => negb (is_space c)).       (* \S *)
Definition digit : regex := Cls is_digit.                           (* \d *)
Definition alnum : regex := Cls is_alnum.                 (* [a-zA-Z0-9] *)
Definition alnum_hyphen : regex :=                        (* [a-zA-Z0-9-] *)
  Cls (fun c => is_alnum c || is_chr "-" c).

Declare Scope regex_scope.
Delimit Scope regex_scope with re.
Infix "·" := Cat (at level 41, right associativity) : regex_scope.

(** ** The program's patterns (lines 50-54) *)

(** DOMAIN_PATTERN = "^(?:[a-zA-Z0-9](?:[a-zA-Z0-9-]{0,61}[a-zA-Z0-9])?\.)+[a-zA-Z0-9][a-zA-Z0-9-]{0,61}[a-zA-Z0-9]$" *)
Definition DOMAIN_PATTERN : regex :=
  (plus (alnum · opt (between 0 61 alnum_hyphen · alnum) · chr ".")
   · alnum · between 0 61 alnum_hyphen · alnum · Eol)%re.

(** ADBLOCK_PATTERN = "^ \|\| (.+?) \^ (?: \$ .* )? $", written here with a blank between its items *)
Definition ADBLOCK_PATTERN : regex :=
  (chr "|" · chr "|" · Grp (plus_lazy dot) · chr "^"
   · opt (chr "$" · star dot) · Eol)%re.

(** IP_DOMAIN_PATTERN = "^\s*\d{1,3}\.\d{1,3}\.\d{1,3}\.\d{1,3}\s+(\S+)$" *)
Definition IP_DOMAIN_PATTERN : regex :=
  (star ws · between 1 3 digit · chr "." · between 1 3 digit · chr "."
   · between 1 3 digit · chr "." · between 1 3 digit · plus ws
   · Grp (plus nonws) · Eol)%re.

(** "(#|!).*$", the inline-comment pattern of [extract_domain_from_line] *)
Definition INLINE_COMMENT : regex :=
  (Grp (Alt (chr "#") (chr "!")) · star dot · Eol)%re.

(** ** Domain Validator and Line Extractor (lines 172-218) *)

Definition is_valid_domain (domain : text) : bool :=
  if (match domain with [] => true | _ => false end)
     || bool_decide (domain = str "localhost")
     || endswith (str ".local") domain
  then false
  else if 253 <? length domain then false
  else
    let domain := if startswith (str "*.") domain then drop 2 domain else domain in
    match re_match DOMAIN_PATTERN domain with Some _ => true | None => false end.

Definition is_comment (line : text) : bool :=
  startswith (str "#") line || startswith (str "!") line.

Definition is_empty (s : text) : bool :=
  match s with [] => true | _ => false end.

Definition extract_domain_from_line (line : text) : option text :=
  let line := strip line in
  if is_empty line || is_comment line then None
  else
    let line := strip (re_sub_empty INLINE_COMMENT line) in
    if is_empty line then None
    else
      match re_match IP_DOMAIN_PATTERN line with
      | Some ip_domain_match => ip_domain_match
      | None =>
          match re_match ADBLOCK_PATTERN line with
          | Some adblock_match => adblock_match
          | None =>
              if negb (has_chr " " line) && negb (has_chr "/" line)
                 && negb (has_chr "?" line) && negb (has_chr "!" line)
                 && negb (has_chr "#" line)
              then Some line
              else None
          end
      end.

(** ** Blocklist Normalizer (lines 220-375) *)

Inductive exn : Type := AttributeError | KeyError.

Inductive res (A : Type) : Type :=
| Ok (a : A)
| Raise (e : exn).
Arguments Ok {A} a.
Arguments Raise {A} e.

Definition bind {A B} (m : res A) (f : A -> res B) : res B :=
  match m with Ok a => f a | Raise e => Raise e end.

Notation "'do' x <- m ; f" := (bind m (fun x => f))
  (at level 10, x name, m at level 100, f at level 200).

(** [for x in xs: st = step st x], stopping at the first exception *)
Fixpoint for_each {S X} (step : S -> X -> res S) (st : S) (xs : list X) : res S :=
  match xs with
  | [] => Ok st
  | x :: xs' => do st' <- step st x; for_each step st' xs'
  end.

(** [try: body except Exception: handler] *)
Definition try_except {A} (body : res A) (handler : exn -> A) : A :=
  match body with Ok a => a | Raise e => handler e end.

(** A [dict] whose iteration order matters: keys in insertion order. *)
Abbreviation odict V := (list (text * V)).

Fixpoint dict_get {V} (k : text) (d : odict V) : option V :=
  match d with
  | [] => None
  | (k', v) :: d' => if decide (k' = k) then Some v else dict_get k d'
  end.

(** [d[k] = v]: an existing key keeps its place *)
Fixpoint dict_set {V} (k : text) (v : V) (d : odict V) : odict V :=
  match d with
  | [] => [(k, v)]
  | (k', v') :: d' =>
      if decide (k' = k) then (k, v) :: d' else (k', v') :: dict_set k v d'
  end.

(** The first pass: counters of the format analysis. *)
Record format_counts : Type := {
  adblock_count : nat;
  host_count : nat;
  plain_count : nat;
  total_lines : nat
}.

Definition matches (r : regex) (s : text) : bool :=
  match re_match r s with Some _ => true | None => false end.

Definition analyze_line (c : format_counts) (line : text) : format_counts :=
  let line := strip line in
  if is_empty line || is_comment line then c
  else
    let total := S (total_lines c) in
    if matches ADBLOCK_PATTERN line then
      {| adblock_count := S (adblock_count c); host_count := host_count c;
         plain_count := plain_count c; total_lines := total |}
    else if matches IP_DOMAIN_PATTERN line then
      {| adblock_count := adblock_count c; host_count := S (host_count c);
         plain_count := plain_count c; total_lines := total |}
    else if negb (has_chr " " line) && negb (has_chr "/" line) then
      {| adblock_count := adblock_count c; host_count := host_count c;
         plain_count := S (plain_count c); total_lines := total |}
    else
      {| adblock_count := adblock_count c; host_count := host_count c;
         plain_count := plain_count c; total_lines := total |}.

(** [for line in lines[:200]] *)
Definition analyze_format (lines : list text) : format_counts :=
  foldl analyze_line
    {| adblock_count := 0; host_count := 0; plain_count := 0; total_lines := 0 |}
    (take 200 lines).

(** [count / total_lines > 0.5]: the quotient of two integers of at most
    200 exceeds one half exactly when twice the count exceeds the total. *)
Definition majority (count total : nat) : bool := total <? 2 * count.

(** The pair (adblock_style, preserve_format) after the first pass. *)
Definition detect_format (lines : list text) (preserve_format : bool) : bool * bool :=
  let c := analyze_format lines in
  if 0 <? total_lines c then
    if majority (adblock_count c) (total_lines c) then (true, true)
    else if majority (host_count c) (total_lines c) then (false, true)
    else (false, preserve_format)
  else (false, preserve_format).

(** The variables of the second pass. *)
Record pass_state : Type := {
  domains : gset text;
  domain_formats : gmap text text;
  metadata : list text;
  current_group : option text;
  groups : odict (list text)
}.

Definition init_state : pass_state :=
  {| domains := ∅; domain_formats := ∅; metadata := [];
     current_group := None; groups := [] |}.

Definition metadata_keywords : list text :=
  [str "title:"; str "last modified:"; str "version:"; str "blocked:";
   str "updated:"; str "count:"; str "description:"].

Definition is_group_label (line : text) : bool :=
  (startswith (str "#[") line && endswith (str "]") line)
  || (startswith (str "# [") line && endswith (str "]") line).

Definition group_name (line : text) : text :=
  if startswith (str "# [") line then strip (slice_to_last 3 line)
  else strip (slice_to_last 2 line).

(** Truthiness of [current_group]: neither [None] nor the empty string. *)
Definition open_group (g : option text) : option text :=
  match g with
  | Some name => if is_empty name then None else Some name
  | None => None
  end.

Definition process_comment (preserve_metadata preserve_grouping : bool)
    (st : pass_state) (line : text) : pass_state :=
  let line := if startswith (str "!") line then str "#" ++ drop 1 line else line in
  let metadata' :=
    if preserve_metadata
       && existsb (fun keyword => contains keyword (lower line)) metadata_keywords
    then metadata st ++ [line] else metadata st in
  if preserve_grouping && is_group_label line then
    {| domains := domains st; domain_formats := domain_formats st;
       metadata := metadata';
       current_group := Some (group_name line);
       groups := dict_set (group_name line) [] (groups st) |}
  else
    {| domains := domains st; domain_formats := domain_formats st;
       metadata := metadata';
       current_group := current_group st; groups := groups st |}.

Definition add_domain (preserve_grouping preserve_format : bool)
    (st : pass_state) (line domain : text) : res pass_state :=
  let formats' :=
    if preserve_format then <[domain := line]> (domain_formats st)
    else domain_formats st in
  match (if preserve_grouping then open_group (current_group st) else None) with
  | Some g =>
      match dict_get g (groups st) with
      | Some members =>
          Ok {| domains := {[domain]} ∪ domains st; domain_formats := formats';
                metadata := metadata st; current_group := current_group st;
                groups := dict_set g (members ++ [domain]) (groups st) |}
      | None => Raise KeyError
      end
  | None =>
      Ok {| domains := {[domain]} ∪ domains st; domain_formats := formats';
            metadata := metadata st; current_group := current_group st;
            groups := groups st |}
  end.

(** One iteration of the second pass. *)
Definition process_line (preserve_metadata preserve_grouping preserve_format : bool)
    (st : pass_state) (line : text) : res pass_state :=
  let line := strip line in
  if is_comment line then
    Ok (process_comment preserve_metadata preserve_grouping st line)
  else if is_empty line then Ok st
  else
    match extract_domain_from_line line with
    | Some domain =>
        if negb (is_empty domain) && is_valid_domain domain
        then add_domain preserve_grouping preserve_format st line domain
        else Ok st
    | None => Ok st
    end.

Definition second_pass (preserve_metadata preserve_grouping preserve_format : bool)
    (lines : list text) : res pass_state :=
  for_each (process_line preserve_metadata preserve_grouping preserve_format)
    init_state lines.

(** [datetime.now()] is an input of the run; [strftime('%Y-%m-%d %H:%M:%S')]. *)
Record datetime : Type := {
  year : nat; month : nat; day : nat; hour : nat; minute : nat; second : nat
}.

Definition zero_pad (width n : nat) : text :=
  repeat "0"%char (width - length (str_of_nat n)) ++ str_of_nat n.

Definition strftime (t : datetime) : text :=
  zero_pad 4 (year t) ++ str "-" ++ zero_pad 2 (month t) ++ str "-"
  ++ zero_pad 2 (day t) ++ str " " ++ zero_pad 2 (hour t) ++ str ":"
  ++ zero_pad 2 (minute t) ++ str ":" ++ zero_pad 2 (second t).

Definition hosts_line (domain : text) : text := str "0.0.0.0 " ++ domain.
Definition adblock_line (domain : text) : text := str "||" ++ domain ++ str "^".

(** [domain_formats[domain]] when preserving and present *)
Definition remembered (preserve_format : bool) (st : pass_state) (domain : text)
    : option text :=
  if preserve_format then domain_formats st !! domain else None.

Definition render_grouped (preserve_format : bool) (st : pass_state)
    (domain : text) : text :=
  match remembered preserve_format st domain with
  | Some line => line
  | None => hosts_line domain
  end.

Definition render_flat (preserve_format adblock_style : bool) (st : pass_state)
    (domain : text) : text :=
  match remembered preserve_format st domain with
  | Some line => line
  | None => if adblock_style then adblock_line domain else hosts_line domain
  end.

Definition header (preserve_metadata : bool) (st : pass_state) (now : datetime)
    : list text :=
  (if preserve_metadata && negb (bool_decide (metadata st = []))
   then metadata st
   else [str "# Pi-hole optimized blocklist";
         str "# Last updated: " ++ strftime now])
  ++ [str "# Total domains: " ++ str_of_nat (size (domains st)); []].

(** [[d for d in group_domains if d in domains]] *)
Definition valid_members (st : pass_state) (group_domains : list text) : list text :=
  filter (fun d => d ∈ domains st) group_domains.

Definition group_section (preserve_format : bool) (st : pass_state)
    (entry : text * list text) : list text :=
  let valid_domains := valid_members st entry.2 in
  if bool_decide (valid_domains = []) then []
  else (str "#[" ++ entry.1 ++ str "]")
       :: map (render_grouped preserve_format st) (sorted valid_domains) ++ [[]].

Definition all_grouped (st : pass_state) : gset text :=
  ⋃ (map (fun entry => list_to_set (valid_members st entry.2)) (groups st)).

Definition ungrouped_section (preserve_format : bool) (st : pass_state)
    : list text :=
  let ungrouped := domains st ∖ all_grouped st in
  if bool_decide (ungrouped = ∅) then []
  else str "#[ungrouped]"
       :: map (render_grouped preserve_format st) (sorted (elements ungrouped)).

Definition body_lines (preserve_grouping preserve_format adblock_style : bool)
    (st : pass_state) : list text :=
  if preserve_grouping && negb (bool_decide (groups st = [])) then
    concat (map (group_section preserve_format st) (groups st))
    ++ ungrouped_section preserve_format st
  else
    map (render_flat preserve_format adblock_style st)
        (sorted (elements (domains st))).

(** The argument [content] as the function can receive it. *)
Inductive pyobj : Type :=
| PyBytes (b : list Byte.byte)
| PyStr (s : text)
| PyNone.

Definition error_result : text * gset text :=
  (str "# Error processing blocklist", ∅).

Section Normalizer.
  (** [bytes.decode('utf-8', errors='ignore')], a function of the runtime. *)
Variable decode_utf8_ignore : list Byte.byte -> text.

  (** The body of the [try] statement. *)
Definition optimize_body (content : pyobj)
      (preserve_metadata preserve_grouping preserve_format : bool)
      (now : datetime) : res (text * gset text) :=
    let content :=
      match content with
      | PyBytes b => PyStr (decode_utf8_ignore b)
      | _ => content
      end in
    do lines <- match content with
                | PyStr s => Ok (splitlines s)
                | _ => Raise AttributeError
                end;
    let '(adblock_style, preserve_format) := detect_format lines preserve_format in
    do st <- second_pass preserve_metadata preserve_grouping preserve_format lines;
    let optimized_content :=
      header preserve_metadata st now
      ++ body_lines preserve_grouping preserve_format adblock_style st in
    Ok (join [LF] optimized_content, domains st).

Definition optimize_blocklist (content : pyobj)
      (preserve_metadata preserve_grouping preserve_format : bool)
      (now : datetime) : text * gset text :=
    try_except
      (optimize_body content preserve_metadata preserve_grouping preserve_format now)
      (fun _ => error_result).
End Normalizer.

(** ** Aggregator (lines 497-522 of [create_production_lists]) *)

(** An entry of [self.domain_stats]. *)
Record list_stats : Type := {
  category : text;
  stat_domains : gset text;
  count : nat
}.

Record production : Type := {
  all_domains : gset text;
  category_domains : gmap text (gset text);
  duplicate_domains : nat;
  unique_domains : nat
}.

(** One iteration of the collecting loop. *)
Definition collect (acc : gset text * gmap text (gset text))
    (item : text * list_stats) : res (gset text * gmap text (gset text)) :=
  let '(all, by_category) := acc in
  let stats := item.2 in
  match by_category !! category stats with
  | Some ds =>
      Ok (all ∪ stat_domains stats,
          <[category stats := ds ∪ stat_domains stats]> by_category)
  | None => Raise KeyError
  end.

(** The two nested loops over [category_domains.items()]. *)
Definition count_overlaps (items : list (text * gset text)) : nat :=
  foldl (fun acc item1 =>
           foldl (fun acc item2 =>
                    if decide (item1.1 ≠ item2.1)
                    then acc + size (item1.2 ∩ item2.2)
                    else acc)
                 acc items)
        0 items.

Definition create_production_lists (categories : gset text)
    (domain_stats : list (text * list_stats)) : res production :=
  do acc <- for_each collect (∅, gset_to_gmap ∅ categories) domain_stats;
  let duplicate_count := count_overlaps (map_to_list acc.2) in
  let duplicate_count := duplicate_count / 2 in
  Ok {| all_domains := acc.1; category_domains := acc.2;
        duplicate_domains := duplicate_count;
        unique_domains := size acc.1 |}.

(** ** Notions used in the statements: lines and the second pass *)

(** The domain that one input line contributes to the domain set. *)
Definition yields (line : text) : option text :=
  let line := strip line in
  if is_comment line || is_empty line then None
  else match extract_domain_from_line line with
       | Some domain =>
           if negb (is_empty domain) && is_valid_domain domain
           then Some domain else None
       | None => None
       end.

(** The lines of an input from which a given domain is extracted. *)
Definition occurrences (domain : text) (lines : list text) : list text :=
  filter (fun line => yields line = Some domain) lines.

(** The domain set that a list of lines produces. *)
Definition domain_set (lines : list text) : gset text :=
  list_to_set (omap yields lines).

(** The group that a line opens when grouping is preserved. *)
Definition header_of (line : text) : option text :=
  let line := strip line in
  if is_comment line then
    let line := if startswith (str "!") line then str "#" ++ drop 1 line else line in
    if is_group_label line then Some (group_name line) else None
  else None.


(** The domains listed in the serialized section of a group. *)
Definition section_domains (st : pass_state) (g : text) : list text :=
  match dict_get g (groups st) with
  | Some members => sorted (valid_members st members)
  | None => []
  end.

(** A string without a line boundary. *)
Definition nobreak (l : text) : Prop := Forall (fun c => is_linebreak c = false) l.

(** A domain of the set: accepted by the validator and free of line
    boundaries. *)
Definition good_domain (d : text) : Prop :=
  is_valid_domain d = true /\ nobreak d.

(** What the second pass maintains on an input of lines: the domains
    are valid, a remembered line yields its domain, a metadata line yields
    nothing, and no stored text holds a line boundary. *)
Definition hygienic (st : pass_state) : Prop :=
  (forall d, d ∈ domains st -> good_domain d)
  /\ (forall d l, domain_formats st !! d = Some l -> yields l = Some d /\ nobreak l)
  /\ Forall (fun m => yields m = None /\ nobreak m) (metadata st)
  /\ Forall (fun entry => nobreak entry.1) (groups st).

(** [current_group] always names a key of [groups]. *)
Definition group_known (st : pass_state) : Prop :=
  forall g, current_group st = Some g -> is_Some (dict_get g (groups st)).

(** Two states that agree on the current group and on the members of [g]. *)
Definition agree_on (g : text) (st1 st2 : pass_state) : Prop :=
  current_group st1 = current_group st2
  /\ dict_get g (groups st1) = dict_get g (groups st2).

(** Every recorded member of a group is in the domain set. *)
Definition members_valid (st : pass_state) : Prop :=
  forall g ms, dict_get g (groups st) = Some ms -> Forall (fun d => d ∈ domains st) ms.

(** ** Notions used in the statements: the validator and the extractor *)

(** The token that [is_valid_domain] holds against the pattern. *)
Definition without_wildcard (token : text) : text :=
  if startswith (str "*.") token then drop 2 token else token.

(** A label: 1 to 63 characters, each alphanumeric or a hyphen, the
    first and the last alphanumeric. *)
Definition is_label (l : text) : bool :=
  (1 <=? length l) && (length l <=? 63)
  && forallb (fun c => is_alnum c || is_chr "-" c) l
  && match l with c :: _ => is_alnum c | [] => false end
  && match rev l with c :: _ => is_alnum c | [] => false end.

(** Two or more labels separated by dots, the last of at least two
    characters. *)
Definition domain_shape (s : text) : Prop :=
  exists labels tld,
    labels <> [] /\ Forall (fun l => is_label l = true) labels
    /\ is_label tld = true /\ 2 <= length tld
    /\ s = join (str ".") (labels ++ [tld]).

(** The two halves of [DOMAIN_PATTERN]: a label with its dot, and the
    final label. *)
Definition LABEL_DOT : regex :=
  (alnum · opt (between 0 61 alnum_hyphen · alnum) · chr ".")%re.

Definition FINAL_LABEL : regex :=
  (alnum · between 0 61 alnum_hyphen · alnum · Eol)%re.

(** The characters of a valid domain. *)
Definition dom_chr (c : ascii) : bool :=
  is_alnum c || is_chr "-" c || is_chr "." c || is_chr "*" c.

(** All characters. *)
Definition all_ascii : list ascii := map ascii_of_nat (seq 0 256).

(** The comment markers, and the part of a line before the first one. *)
Definition is_marker (c : ascii) : bool := is_chr "#" c || is_chr "!" c.

Fixpoint before_marker (s : text) : text :=
  match s with
  | [] => []
  | c :: s' => if is_marker c then [] else c :: before_marker s'
  end.

(** A syntactically valid domain of 253 characters. *)
Definition domain_253 : text :=
  repeat "a"%char 63 ++ str "." ++ repeat "b"%char 63 ++ str "."
  ++ repeat "c"%char 63 ++ str "." ++ repeat "d"%char 61.

(** ** Notions used in the statements: aggregation *)

(** The union of the domain sets of the sources tagged with a category. *)
Definition category_union (c : text) (domain_stats : list (text * list_stats))
    : gset text :=
  ⋃ (map (fun item => stat_domains item.2)
         (filter (fun item => category item.2 = c) domain_stats)).

(** The sum of [|s ∩ s'|] over the unordered pairs of a family of sets. *)
Fixpoint pair_overlaps (sets : list (gset text)) : nat :=
  match sets with
  | [] => 0
  | s :: rest => sum_list_with (fun s' => size (s ∩ s')) rest + pair_overlaps rest
  end.

(** In how many sets of a family a domain occurs, and k-choose-2. *)
Definition multiplicity (d : text) (sets : list (gset text)) : nat :=
  length (filter (fun s => d ∈ s) sets).

Definition choose2 (k : nat) : nat := k * (k - 1) / 2.

(** The weight of an ordered pair of entries in the nested loops. *)
Definition pair_weight (x y : text * gset text) : nat :=
  if decide (x.1 <> y.1) then size (x.2 ∩ y.2) else 0.

(** ** What a pattern matches

    [Matches r u v g g']: the expression [r] can consume [u] when [v]
    follows it, turning the recorded group [g] into [g'];
    [Iter r n u v g g']: [n] successive iterations of [r] do so. *)
Inductive Matches : regex -> text -> text -> option text -> option text -> Prop :=
| M_Cls p c v g :
    p c = true -> Matches (Cls p) [c] v g g
| M_Cat r1 r2 u1 u2 v g g1 g2 :
    Matches r1 u1 (u2 ++ v) g g1 -> Matches r2 u2 v g1 g2 ->
    Matches (Cat r1 r2) (u1 ++ u2) v g g2
| M_AltL r1 r2 u v g g' :
    Matches r1 u v g g' -> Matches (Alt r1 r2) u v g g'
| M_AltR r1 r2 u v g g' :
    Matches r2 u v g g' -> Matches (Alt r1 r2) u v g g'
| M_Rep greedy lo hi r n u v g g' :
    lo <= n -> (forall h, hi = Some h -> n <= h) -> Iter r n u v g g' ->
    Matches (Rep greedy lo hi r) u v g g'
| M_Grp r u v g g' :
    Matches r u v g g' -> Matches (Grp r) u v g (Some u)
| M_Eol v g :
    at_eol v = true -> Matches Eol [] v g g
with Iter : regex -> nat -> text -> text -> option text -> option text -> Prop :=
| I_O r v g : Iter r 0 [] v g g
| I_S r n u1 u2 v g g1 g2 :
    Matches r u1 (u2 ++ v) g g1 -> Iter r n u2 v g1 g2 ->
    Iter r (S n) (u1 ++ u2) v g g2.

Scheme Matches_mut := Minimality for Matches Sort Prop
  with Iter_mut := Minimality for Iter Sort Prop.
Combined Scheme Matches_Iter_ind from Matches_mut, Iter_mut.

(** Every match of the expression consumes a character. *)
Fixpoint consumes (r : regex) : bool :=
  match r with
  | Cls _ => true
  | Cat r1 r2 => consumes r1 || consumes r2
  | Alt r1 r2 => consumes r1 && consumes r2
  | Rep _ lo _ r' => (0 <? lo) && consumes r'
  | Grp r' => consumes r'
  | Eol => false
  end.

(** Every unbounded repetition repeats a consuming expression. *)
Fixpoint progressing (r : regex) : bool :=
  match r with
  | Cls _ | Eol => true
  | Cat r1 r2 | Alt r1 r2 => progressing r1 && progressing r2
  | Rep _ _ hi r' =>
      progressing r' && match hi with None => consumes r' | Some _ => true end
  | Grp r' => progressing r'
  end.

(** The characters that occur in matches of the expression. *)
Fixpoint alphabet (r : regex) (c : ascii) : bool :=
  match r with
  | Cls p => p c
  | Cat r1 r2 | Alt r1 r2 => alphabet r1 c || alphabet r2 c
  | Rep _ _ _ r' | Grp r' => alphabet r' c
  | Eol => false
  end.

(** The expression ends with [$]. *)
Fixpoint anchored (r : regex) : bool :=
  match r with
  | Cat _ r2 => anchored r2
  | Eol => true
  | _ => false
  end.

(** The expression has no capturing group. *)
Fixpoint groupless (r : regex) : bool :=
  match r with
  | Cls _ | Eol => true
  | Cat r1 r2 | Alt r1 r2 => groupless r1 && groupless r2
  | Rep _ _ _ r' => groupless r'
  | Grp _ => false
  end.

(** The body of a repetition returns only what the expression matches. *)
Definition body_sound {A} (r : regex)
    (body : text -> option text -> @cont A -> option A) : Prop :=
  forall s g k x, body s g k = Some x ->
    exists u v g', s = u ++ v /\ Matches r u v g g' /\ k v g' = Some x.

(** The body succeeds wherever the expression matches. *)
Definition body_complete {A} (r : regex)
    (body : text -> option text -> @cont A -> option A) : Prop :=
  forall u v g g' k, Matches r u v g g' -> is_Some (k v g') ->
    is_Some (body (u ++ v) g k).

(** ** Sample inputs of the examples *)

Definition sample_now : datetime :=
  {| year := 2024; month := 5; day := 17; hour := 8; minute := 30; second := 0 |}.

(** A decoder that is right on ASCII bytes. *)
Definition sample_decode (b : list Byte.byte) : text := map ascii_of_byte b.

Definition sample_list : text :=
  join [LF] [str "! Title: demo"; str "#[ads]"; str "||a.io^";
             str "0.0.0.0 b.io # x"].

Definition stats_A : list_stats :=
  {| category := str "A"; stat_domains := {[str "x.com"; str "y.com"]}; count := 2 |}.

Definition stats_B : list_stats :=
  {| category := str "B"; stat_domains := {[str "y.com"; str "z.com"]}; count := 2 |}.

(** ** Notions used in the further properties *)

(** Where a line of the output comes from: it is empty, or a comment, or
    the line of a domain [d] of the set; that line is the stripped last
    line of the input yielding [d] when lines are kept, the hosts line of
    [d] otherwise. *)
Definition line_origin (lines : list text) (ds : gset text) (kept : bool)
    (l : text) : Prop :=
  l = [] \/ startswith (str "#") l = true
  \/ exists d, d ∈ ds
       /\ if kept
          then exists line, last (occurrences d lines) = Some line /\ l = strip line
          else l = hosts_line d.

(** The distinct elements of a list, in the order of their first occurrence. *)
Definition first_seen (names : list text) : list text :=
  reverse (remove_dups (reverse names)).


(** ** Configuration file (lines 94-154 and 640-663) *)

(** [s.split(sep)] for a separator of one character *)
Fixpoint split_on (sep : ascii) (s : text) : list text :=
  match s with
  | [] => [[]]
  | c :: s' =>
      if is_chr sep c then [] :: split_on sep s'
      else match split_on sep s' with
           | part :: parts => (c :: part) :: parts
           | [] => [[c]]
           end
  end.

(** An entry of [self.blocklists]. *)
Record blocklist : Type := {
  bl_url : text;
  bl_name : text;
  bl_category : text
}.

(** An entry of [self.failed_lists]. *)
Record failure : Type := {
  f_url : text;
  f_name : text;
  f_category : text;
  f_error : text
}.

(** What [load_config] fills in: [self.blocklists] and [self.categories]. *)
Record config : Type := {
  blocklists : list blocklist;
  categories : gset text
}.

Definition empty_config : config := {| blocklists := []; categories := ∅ |}.

Section Config.
(** Whether [urlparse(url)] returns, without raising, a result with a
    scheme and a network location: a function of the runtime. *)
Variable url_ok : text -> bool.

(** One iteration of the loop of [load_config] over the lines of the file. *)
Definition load_line (cfg : config) (line : text) : config :=
  let line := strip line in
  if is_empty line || startswith (str "#") line then cfg
  else
    match split_on "|" line with
    | [url; name; category] =>
        let url := strip url in
        let name := strip name in
        let category := strip category in
        if url_ok url then
          {| blocklists :=
               blocklists cfg
               ++ [{| bl_url := url; bl_name := name; bl_category := category |}];
             categories := {[category]} ∪ categories cfg |}
        else cfg
    | _ => cfg
    end.

Definition load_lines (lines : list text) : config :=
  foldl load_line empty_config lines.

(** The file is [None] when it does not exist or cannot be read, else the
    list of its lines; the result is [None] when the program exits. *)
Definition load_config (file : option (list text)) : option config :=
  match file with
  | None => None
  | Some lines =>
      let cfg := load_lines lines in
      if length (blocklists cfg) =? 0 then None else Some cfg
  end.
End Config.

(** [any(url in line for url in failed_urls)] *)
Definition mentions (failed_urls : list text) (line : text) : bool :=
  existsb (fun url => contains url line) failed_urls.

(** The lines that [update_config_file] leaves in the file. *)
Definition update_config_file (failed_lists : list failure) (lines : list text)
    : list text :=
  match failed_lists with
  | [] => lines
  | _ =>
      let failed_urls := map f_url failed_lists in
      map (fun line =>
             if mentions failed_urls line && negb (startswith (str "#") line)
             then str "#DISABLED: " ++ line
             else line)
          lines
  end.

(** ** One blocklist and the sequential run (lines 377-490 and 665-728) *)

(** An entry of [self.stats['categories']]. *)
Record category_stats : Type := {
  lists : nat;
  cat_domains : nat
}.

(** The part of a [BlocklistManager] that processing changes:
    [self.domain_stats], [self.failed_lists] and the counters of
    [self.stats]. *)
Record manager : Type := {
  domain_stats : odict list_stats;
  failed_lists : list failure;
  successful : nat;
  failed : nat;
  total_domains : nat;
  stats_categories : odict category_stats
}.

Definition init_manager : manager :=
  {| domain_stats := []; failed_lists := []; successful := 0; failed := 0;
     total_domains := 0; stats_categories := [] |}.

(** What the outside world does during one call of [process_blocklist]:
    the content of the response ([None] when [requests] raises), whether
    the raw file and the destination file can be written, the text of the
    exception if there is one, and the clock. *)
Record world : Type := {
  response : option (list Byte.byte);
  raw_saved : bool;
  saved : bool;
  error : text;
  clock : datetime
}.

(** The format detection on the content sample (lines 405-417). *)
Definition has_metadata (content_sample : text) : bool :=
  existsb (fun marker => contains marker (lower content_sample))
    [str "title:"; str "version:"; str "last updated:"; str "last modified:";
     str "blocked:"].

Definition has_grouping (content_sample : text) : bool :=
  contains (str "#[") content_sample || contains (str "# [") content_sample.

Definition is_primarily_adblock (content_sample : text) : bool :=
  let adblock_lines :=
    length (filter (fun line => matches ADBLOCK_PATTERN (strip line) = true)
              (splitlines content_sample)) in
  let total_non_comment_lines :=
    length (filter (fun line =>
                      negb (is_empty (strip line))
                      && negb (startswith (str "#") (strip line))
                      && negb (startswith (str "!") (strip line)) = true)
              (splitlines content_sample)) in
  (0 <? total_non_comment_lines)
  && majority adblock_lines total_non_comment_lines.

(** The two [except] clauses of [process_blocklist]. *)
Definition record_failure (m : manager) (b : blocklist) (w : world) : manager :=
  {| domain_stats := domain_stats m;
     failed_lists :=
       failed_lists m
       ++ [{| f_url := bl_url b; f_name := bl_name b;
              f_category := bl_category b; f_error := error w |}];
     successful := successful m;
     failed := S (failed m);
     total_domains := total_domains m;
     stats_categories := stats_categories m |}.

Section Pipeline.
Variable decode_utf8_ignore : list Byte.byte -> text.
Variable url_ok : text -> bool.
Variables skip_download skip_optimize : bool.

Definition process_blocklist (m : manager) (b : blocklist) (w : world)
    : manager * (bool * nat * gset text) :=
  if skip_download then (m, (true, 0, ∅))
  else
    match response w with
    | None => (record_failure m b w, (false, 0, ∅))
    | Some content =>
        if negb (raw_saved w) then (record_failure m b w, (false, 0, ∅))
        else if negb skip_optimize then
          let content_sample := decode_utf8_ignore (take 4000 content) in
          let '(optimized_content, domains) :=
            optimize_blocklist decode_utf8_ignore (PyBytes content)
              (has_metadata content_sample) (has_grouping content_sample)
              (is_primarily_adblock content_sample) (clock w) in
          if negb (saved w) then (record_failure m b w, (false, 0, ∅))
          else
            let domain_count := size domains in
            let stats :=
              match dict_get (bl_category b) (stats_categories m) with
              | Some stats => stats
              | None => {| lists := 0; cat_domains := 0 |}
              end in
            ({| domain_stats :=
                  dict_set (bl_name b)
                    {| category := bl_category b; stat_domains := domains;
                       count := domain_count |}
                    (domain_stats m);
                failed_lists := failed_lists m;
                successful := S (successful m);
                failed := failed m;
                total_domains := total_domains m + domain_count;
                stats_categories :=
                  dict_set (bl_category b)
                    {| lists := S (lists stats);
                       cat_domains := cat_domains stats + domain_count |}
                    (stats_categories m) |},
             (true, domain_count, domains))
        else if negb (saved w) then (record_failure m b w, (false, 0, ∅))
        else
          ({| domain_stats := domain_stats m;
              failed_lists := failed_lists m;
              successful := S (successful m);
              failed := failed m;
              total_domains := total_domains m;
              stats_categories := stats_categories m |},
           (true, 0, ∅))
    end.

(** [for blocklist in self.blocklists: self.process_blocklist(blocklist)],
    the [i]-th call meeting the world [worlds i]. *)
Fixpoint process_all (worlds : nat -> world) (i : nat) (m : manager)
    (bs : list blocklist) : manager :=
  match bs with
  | [] => m
  | b :: bs' => process_all worlds (S i) (process_blocklist m b (worlds i)).1 bs'
  end.


End Pipeline.

(** The master list that [create_production_lists] writes (lines 525-534). *)
Definition master_list (now : datetime) (all_domains : gset text) : text :=
  let all_domains_list := sorted (elements all_domains) in
  str "# Pi-hole Master Blocklist" ++ [LF]
  ++ str "# Last updated: " ++ strftime now ++ [LF]
  ++ str "# Total domains: " ++ str_of_nat (length all_domains_list) ++ [LF; LF]
  ++ concat (map (fun domain => hosts_line domain ++ [LF]) all_domains_list).

(** ** Notions used in the properties of the configuration and the pipeline *)

(** What one line of the file adds. *)
Definition entry_of (url_ok : text -> bool) (line : text) : option blocklist :=
  let line := strip line in
  if is_empty line || startswith (str "#") line then None
  else
    match split_on "|" line with
    | [url; name; category] =>
        if url_ok (strip url)
        then Some {| bl_url := strip url; bl_name := strip name;
                     bl_category := strip category |}
        else None
    | _ => None
    end.

(** What processing maintains. *)
Definition consistent (skip_optimize : bool) (m : manager) : Prop :=
  length (failed_lists m) = failed m
  /\ total_domains m = sum_list_with (fun e => cat_domains e.2) (stats_categories m)
  /\ (skip_optimize = false
      -> successful m = sum_list_with (fun e => lists e.2) (stats_categories m))
  /\ sum_list_with (fun e => count e.2) (domain_stats m) <= total_domains m
  /\ Forall (fun e => count e.2 = size (stat_domains e.2)
                      /\ forall d, d ∈ stat_domains e.2 -> good_domain d)
       (domain_stats m).


(** ** Notions used in the properties of the extractor *)

(** One of the four numbers of an address as [IP_DOMAIN_PATTERN] reads
    it: one to three digits. *)
Definition ip_part (a : text) : Prop :=
  1 <= length a <= 3 /\ Forall (fun c => is_digit c = true) a.

(** White space inside a line. *)
Definition blank (w : text) : Prop :=
  w <> [] /\ Forall (fun c => is_space c = true /\ c <> LF) w.

(** Options behind an AdBlock rule: no further caret, no comment marker,
    nothing that ends the line. *)
Definition plain_options (o : text) : Prop :=
  Forall (fun c => c <> "^"%char /\ c <> LF /\ is_marker c = false) o.


(** The metadata line that an input line contributes when metadata is
    preserved: a comment that holds one of the keywords, with a leading
    [!] turned into [#]. *)
Definition metadata_line (line : text) : option text :=
  let line := strip line in
  if is_comment line then
    let line :=
      if startswith (str "!") line then str "#" ++ drop 1 line else line in
    if existsb (fun keyword => contains keyword (lower line)) metadata_keywords
    then Some line else None
  else None.


(** ** The statistics report (lines 612-624 of [create_stats_report]) *)

(** A row [(name, category, count)] of the detailed statistics. *)
Abbreviation stat_row := (text * text * nat)%type.

(** [[(name, stat['category'], stat['count']) for name, stat in
    self.domain_stats.items()]] *)
Definition stat_rows (domain_stats : odict list_stats) : list stat_row :=
  map (fun item => (item.1, category item.2, count item.2)) domain_stats.

(** The order of the keys [(x[1], -x[2])], compared as tuples are: by
    category, and for one category by descending count. *)
Definition key_le (x y : stat_row) : Prop :=
  if decide (x.1.2 = y.1.2) then y.2 <= x.2 else text_le x.1.2 y.1.2.

#[global] Instance key_le_dec : RelDecision key_le.
Proof. intros x y. unfold key_le. destruct (decide (x.1.2 = y.1.2)); apply _. Defined.

(** [sorted(rows, key=...)]: a stable sort, rows with equal keys stay in
    their order. *)
Fixpoint insert_row (x : stat_row) (rows : list stat_row) : list stat_row :=
  match rows with
  | [] => [x]
  | y :: rows' =>
      if decide (key_le x y) then x :: rows else y :: insert_row x rows'
  end.

Definition sorted_stats (rows : list stat_row) : list stat_row :=
  foldr insert_row [] rows.

Definition category_header (category : text) : text :=
  [LF] ++ str "[" ++ category ++ str "]" ++ [LF].

Definition list_line (row : stat_row) : text :=
  row.1.1 ++ str ": " ++ str_of_nat row.2 ++ str " domains" ++ [LF].

(** The loop that writes the rows, a header where the category changes. *)
Fixpoint detailed_lines (current_category : option text) (rows : list stat_row)
    : list text :=
  match rows with
  | [] => []
  | row :: rows' =>
      (if decide (Some row.1.2 = current_category) then []
       else [category_header row.1.2])
      ++ list_line row :: detailed_lines (Some row.1.2) rows'
  end.

Definition detailed_list_statistics (domain_stats : odict list_stats) : list text :=
  detailed_lines None (sorted_stats (stat_rows domain_stats)).

(** Strictly before, in the order of strings. *)
Definition text_lt (a b : text) : Prop := text_le a b /\ a <> b.


(** ** Sample inputs of the pipeline *)

(** A world in which the download of [sample_list] and both writes
    succeed. *)
Definition sample_world : world :=
  {| response := Some (map byte_of_ascii sample_list);
     raw_saved := true; saved := true; error := [];
     clock := sample_now |}.

Definition sample_blocklist : blocklist :=
  {| bl_url := str "https://example.org/list.txt"; bl_name := str "demo";
     bl_category := str "ads" |}.


(** * Properties *)

(** ** The loop combinator *)

Lemma for_each_app {S X} (step : S -> X -> res S) st xs ys :
  for_each step st (xs ++ ys)
  = (do st' <- for_each step st xs; for_each step st' ys).
Proof.
  revert st. induction xs as [|x xs IH]; intros st; simpl; [done|].
  destruct (step st x); simpl; auto.
Qed.

Lemma for_each_total {S X} (step : S -> X -> res S) (I : S -> Prop) :
  (forall st x, I st -> exists st', step st x = Ok st' /\ I st') ->
  forall xs st, I st -> exists st', for_each step st xs = Ok st' /\ I st'.
Proof.
  intros Hstep. induction xs as [|x xs IH]; intros st Hst; simpl; [eauto|].
  destruct (Hstep st x Hst) as (st1 & -> & H1). simpl. auto.
Qed.

(** ** Ordered dictionaries *)

Lemma dict_get_set_eq {V} k (v : V) d : dict_get k (dict_set k v d) = Some v.
Proof.
  induction d as [|[k' v'] d IH]; simpl.
  - by rewrite decide_True.
  - destruct (decide (k' = k)) as [->|Hne]; simpl.
    + by rewrite decide_True.
    + by rewrite decide_False.
Qed.

Lemma dict_get_set_ne {V} k k' (v : V) d :
  k ≠ k' -> dict_get k' (dict_set k v d) = dict_get k' d.
Proof.
  intros Hne. induction d as [|[k0 v0] d IH]; simpl.
  - by rewrite decide_False.
  - destruct (decide (k0 = k)) as [->|Hne0]; simpl.
    + by rewrite !decide_False.
    + destruct (decide (k0 = k')); auto.
Qed.

(** ** The second pass never raises *)

Lemma open_group_Some cg g : open_group cg = Some g -> cg = Some g.
Proof.
  destruct cg as [name|]; simpl; [|done].
  destruct (is_empty name); congruence.
Qed.

Lemma process_comment_known pm pg st line :
  group_known st -> group_known (process_comment pm pg st line).
Proof.
  intros Hk g. unfold process_comment.
  destruct (pg && is_group_label _); simpl.
  - intros [= <-]. rewrite dict_get_set_eq. eauto.
  - apply Hk.
Qed.

Lemma add_domain_known pg pf st line d :
  group_known st ->
  exists st', add_domain pg pf st line d = Ok st' /\ group_known st'.
Proof.
  intros Hk. unfold add_domain.
  destruct (if pg then open_group (current_group st) else None) as [g|] eqn:Hg.
  - assert (current_group st = Some g) as Hcg.
    { destruct pg; [|done]. by apply open_group_Some. }
    destruct (Hk g Hcg) as [members Hm]. rewrite Hm.
    eexists; split; [done|]. intros g' Hg'. simpl in *.
    destruct (decide (g = g')) as [->|Hne].
    + rewrite dict_get_set_eq. eauto.
    + rewrite dict_get_set_ne by done. by apply Hk.
  - eexists; split; [done|]. exact Hk.
Qed.

Lemma process_line_known pm pg pf st line :
  group_known st ->
  exists st', process_line pm pg pf st line = Ok st' /\ group_known st'.
Proof.
  intros Hk. unfold process_line.
  destruct (is_comment (strip line)).
  { eexists; split; [done|]. by apply process_comment_known. }
  destruct (is_empty (strip line)); [eauto|].
  destruct (extract_domain_from_line (strip line)) as [d|]; [|eauto].
  destruct (negb (is_empty d) && is_valid_domain d); [|eauto].
  by apply add_domain_known.
Qed.

Lemma init_state_known : group_known init_state.
Proof. intros g. discriminate. Qed.

Lemma for_each_process_total pm pg pf lines st :
  group_known st ->
  exists st', for_each (process_line pm pg pf) st lines = Ok st' /\ group_known st'.
Proof.
  apply (for_each_total _ group_known).
  intros. by apply process_line_known.
Qed.

Lemma second_pass_total pm pg pf lines :
  exists st, second_pass pm pg pf lines = Ok st /\ group_known st.
Proof. apply for_each_process_total, init_state_known. Qed.

(** [process_line] in terms of what the line contributes. *)
Lemma process_line_yields pm pg pf st line :
  process_line pm pg pf st line =
    match yields line with
    | Some d => add_domain pg pf st (strip line) d
    | None =>
        if is_comment (strip line)
        then Ok (process_comment pm pg st (strip line))
        else Ok st
    end.
Proof.
  unfold process_line, yields.
  destruct (is_comment (strip line)); simpl; [done|].
  destruct (is_empty (strip line)); simpl; [done|].
  destruct (extract_domain_from_line (strip line)) as [d|]; [|done].
  by destruct (negb (is_empty d) && is_valid_domain d).
Qed.

(** ** What one step of the second pass does to each variable *)

Lemma process_comment_fields pm pg st line :
  let st' := process_comment pm pg st line in
  domains st' = domains st /\ domain_formats st' = domain_formats st.
Proof. unfold process_comment. by destruct (pg && is_group_label _). Qed.

Lemma add_domain_fields pg pf st line d st' :
  add_domain pg pf st line d = Ok st' ->
  domains st' = {[d]} ∪ domains st
  /\ domain_formats st'
     = (if pf then <[d := line]> (domain_formats st) else domain_formats st)
  /\ metadata st' = metadata st
  /\ current_group st' = current_group st.
Proof.
  unfold add_domain.
  destruct (if pg then open_group (current_group st) else None) as [g|].
  - destruct (dict_get g (groups st)); [|done]. by intros [= <-].
  - by intros [= <-].
Qed.

(** A comment line that is a group label. *)
Lemma process_line_header pm pf st line g :
  header_of line = Some g ->
  exists st', process_line pm true pf st line = Ok st'
    /\ current_group st' = Some g
    /\ groups st' = dict_set g [] (groups st)
    /\ domains st' = domains st.
Proof.
  unfold header_of, process_line.
  destruct (is_comment (strip line)); [|done].
  unfold process_comment. simpl.
  destruct (is_group_label _); [|done].
  intros [= <-]. eexists; split; [done|]. done.
Qed.

(** Any other line leaves [current_group] alone. *)
Lemma process_line_no_header pm pf st line st' :
  header_of line = None ->
  process_line pm true pf st line = Ok st' ->
  current_group st' = current_group st
  /\ match yields line with
     | Some d => add_domain true pf st (strip line) d = Ok st'
     | None => groups st' = groups st /\ domains st' = domains st
     end.
Proof.
  intros Hh. rewrite process_line_yields.
  destruct (yields line) as [d|] eqn:Hy.
  - intros Hadd. split; [|done].
    by destruct (add_domain_fields _ _ _ _ _ _ Hadd) as (_ & _ & _ & ?).
  - unfold header_of in Hh. destruct (is_comment (strip line)).
    + unfold process_comment. simpl.
      destruct (is_group_label _); [done|]. by intros [= <-].
    + by intros [= <-].
Qed.

(** Appending to the current group. *)
Lemma add_domain_groups pf st line d st' :
  add_domain true pf st line d = Ok st' ->
  match open_group (current_group st) with
  | Some g => exists ms, dict_get g (groups st) = Some ms
                /\ groups st' = dict_set g (ms ++ [d]) (groups st)
  | None => groups st' = groups st
  end.
Proof.
  unfold add_domain.
  destruct (open_group (current_group st)) as [g|].
  - destruct (dict_get g (groups st)) as [ms|]; [|done].
    intros [= <-]. eauto.
  - by intros [= <-].
Qed.

(** ** The remembered line of a domain (claim C3) *)

Lemma process_line_formats pm pg st line st' d :
  process_line pm pg true st line = Ok st' ->
  domain_formats st' !! d
  = if decide (yields line = Some d) then Some (strip line)
    else domain_formats st !! d.
Proof.
  rewrite process_line_yields. destruct (yields line) as [d'|] eqn:Hy.
  - intros Hadd. destruct (add_domain_fields _ _ _ _ _ _ Hadd) as (_ & -> & _).
    destruct (decide (Some d' = Some d)) as [[= ->]|Hne].
    + by rewrite lookup_insert_eq.
    + rewrite lookup_insert_ne; [done|congruence].
  - rewrite decide_False by done.
    destruct (is_comment (strip line)); intros [= <-]; [|done].
    by destruct (process_comment_fields pm pg st (strip line)) as [_ ->].
Qed.

Lemma occurrences_snoc d lines line :
  occurrences d (lines ++ [line])
  = occurrences d lines ++ (if decide (yields line = Some d) then [line] else []).
Proof.
  unfold occurrences. rewrite filter_app. f_equal.
Qed.

Lemma for_each_formats pm pg lines st0 :
  group_known st0 ->
  exists st, for_each (process_line pm pg true) st0 lines = Ok st
    /\ group_known st
    /\ forall d, domain_formats st !! d
         = match last (occurrences d lines) with
           | Some line => Some (strip line)
           | None => domain_formats st0 !! d
           end.
Proof.
  intros Hk0. induction lines as [|line lines IH] using rev_ind.
  { exists st0. by repeat split. }
  destruct IH as (st1 & Hrun & Hk1 & Hfmt).
  destruct (process_line_known pm pg true st1 line Hk1) as (st2 & Hstep & Hk2).
  exists st2. rewrite for_each_app, Hrun. simpl. rewrite Hstep.
  repeat split; [done|]. intros d.
  rewrite (process_line_formats _ _ _ _ _ d Hstep), occurrences_snoc.
  destruct (decide (yields line = Some d)).
  - by rewrite last_snoc.
  - by rewrite app_nil_r.
Qed.

(** C3, as amended: with format preservation in effect, the line
    remembered for a domain (and emitted for it when the list is
    serialized) is the stripped text of the LAST input line from which
    the domain was extracted; each later occurrence replaces the
    remembered line. *)
Theorem remembered_line_is_last_occurrence pm pg lines :
  exists st, second_pass pm pg true lines = Ok st
    /\ forall d,
         domain_formats st !! d = strip <$> last (occurrences d lines)
         /\ forall line adblock_style,
              last (occurrences d lines) = Some line ->
              render_grouped true st d = strip line
              /\ render_flat true adblock_style st d = strip line.
Proof.
  destruct (for_each_formats pm pg lines init_state init_state_known)
    as (st & Hrun & _ & Hfmt).
  exists st. split; [done|]. intros d.
  assert (domain_formats st !! d = strip <$> last (occurrences d lines)) as Hd.
  { rewrite Hfmt. by destruct (last _). }
  split; [done|]. intros line a Hlast.
  unfold render_grouped, render_flat, remembered. rewrite Hd, Hlast. done.
Qed.

(** C3 as stated fails: a domain extracted from two lines is remembered
    with its second line, not its first. *)
Lemma first_occurrence_is_replaced :
  occurrences (str "a.com") [str "0.0.0.0 a.com"; str "||a.com^"]
  = [str "0.0.0.0 a.com"; str "||a.com^"]
  /\ exists st,
       second_pass true true true [str "0.0.0.0 a.com"; str "||a.com^"] = Ok st
       /\ domain_formats st !! str "a.com" = Some (str "||a.com^")
       /\ domain_formats st !! str "a.com" <> Some (str "0.0.0.0 a.com")
       /\ body_lines true true false st = [str "||a.com^"].
Proof.
  split; [by vm_compute|].
  eexists. split; [by vm_compute|]. by vm_compute.
Qed.

(** ** Group member lists (claims C8 and C10) *)

Lemma process_line_agree pm pf g line st1 st2 st1' st2' :
  agree_on g st1 st2 ->
  process_line pm true pf st1 line = Ok st1' ->
  process_line pm true pf st2 line = Ok st2' ->
  agree_on g st1' st2'.
Proof.
  intros [Hcg Hg] H1 H2. destruct (header_of line) as [h|] eqn:Hh.
  - destruct (process_line_header pm pf st1 line h Hh) as (s1 & E1 & C1 & G1 & _).
    destruct (process_line_header pm pf st2 line h Hh) as (s2 & E2 & C2 & G2 & _).
    rewrite H1 in E1. rewrite H2 in E2. injection E1 as <-. injection E2 as <-.
    split; [congruence|]. rewrite G1, G2.
    destruct (decide (h = g)) as [->|Hne].
    + by rewrite !dict_get_set_eq.
    + by rewrite !dict_get_set_ne.
  - destruct (process_line_no_header pm pf st1 line st1' Hh H1) as [C1 Y1].
    destruct (process_line_no_header pm pf st2 line st2' Hh H2) as [C2 Y2].
    split; [congruence|].
    destruct (yields line) as [d|].
    + apply add_domain_groups in Y1, Y2. rewrite <- Hcg in Y2.
      destruct (open_group (current_group st1)) as [h|].
      * destruct Y1 as (ms1 & M1 & ->), Y2 as (ms2 & M2 & ->).
        destruct (decide (h = g)) as [->|Hne].
        -- rewrite !dict_get_set_eq. congruence.
        -- by rewrite !dict_get_set_ne.
      * congruence.
    + destruct Y1 as [-> _], Y2 as [-> _]. done.
Qed.

Lemma for_each_agree pm pf g lines st1 st2 :
  group_known st1 -> group_known st2 -> agree_on g st1 st2 ->
  exists st1' st2',
    for_each (process_line pm true pf) st1 lines = Ok st1'
    /\ for_each (process_line pm true pf) st2 lines = Ok st2'
    /\ agree_on g st1' st2'.
Proof.
  revert st1 st2. induction lines as [|line lines IH]; intros st1 st2 K1 K2 Ha.
  { exists st1, st2. done. }
  destruct (process_line_known pm true pf st1 line K1) as (s1 & E1 & K1').
  destruct (process_line_known pm true pf st2 line K2) as (s2 & E2 & K2').
  simpl. rewrite E1, E2. simpl. apply IH; [done..|].
  by apply (process_line_agree pm pf g line st1 st2).
Qed.

Lemma process_line_members_valid pm pf st line st' :
  members_valid st -> process_line pm true pf st line = Ok st' -> members_valid st'.
Proof.
  intros Hv Hstep g ms. destruct (header_of line) as [h|] eqn:Hh.
  - destruct (process_line_header pm pf st line h Hh) as (s & E & _ & G & D).
    rewrite Hstep in E. injection E as <-. rewrite G, D.
    destruct (decide (h = g)) as [->|Hne].
    + rewrite dict_get_set_eq. by intros [= <-].
    + rewrite dict_get_set_ne by done. apply Hv.
  - destruct (process_line_no_header pm pf st line st' Hh Hstep) as [_ Y].
    destruct (yields line) as [d|].
    + destruct (add_domain_fields _ _ _ _ _ _ Y) as (-> & _).
      apply add_domain_groups in Y.
      assert (forall ms0, Forall (fun d0 => d0 ∈ domains st) ms0 ->
                Forall (fun d0 => d0 ∈ {[d]} ∪ domains st) ms0) as Hmono.
      { intros ms0 H0. eapply Forall_impl; [exact H0|]. set_solver. }
      destruct (open_group (current_group st)) as [h|].
      * destruct Y as (ms0 & M0 & ->).
        destruct (decide (h = g)) as [->|Hne].
        -- rewrite dict_get_set_eq. intros [= <-].
           apply Forall_app. split; [by apply Hmono, (Hv g)|].
           constructor; [set_solver|constructor].
        -- rewrite dict_get_set_ne by done. intros. by apply Hmono, (Hv g).
      * rewrite Y. intros. by apply Hmono, (Hv g).
    + destruct Y as [-> ->]. apply Hv.
Qed.

Lemma for_each_members_valid pm pf lines st st' :
  members_valid st ->
  for_each (process_line pm true pf) st lines = Ok st' -> members_valid st'.
Proof.
  revert st. induction lines as [|line lines IH]; intros st Hv; simpl.
  { by intros [= <-]. }
  destruct (process_line pm true pf st line) as [s|] eqn:E; [|done]. simpl.
  apply IH. by apply (process_line_members_valid pm pf st line).
Qed.

Lemma valid_members_all st ms :
  Forall (fun d => d ∈ domains st) ms -> valid_members st ms = ms.
Proof.
  unfold valid_members. induction 1 as [|d ms Hd _ IH]; [done|].
  rewrite filter_cons, decide_True by done. by rewrite IH.
Qed.

Lemma Forall_sorted (P : text -> Prop) ds : Forall P ds -> Forall P (sorted ds).
Proof.
  intros H. unfold sorted. by rewrite merge_sort_Permutation.
Qed.

Lemma section_domains_members st g :
  members_valid st ->
  section_domains st g
  = match dict_get g (groups st) with Some ms => sorted ms | None => [] end.
Proof.
  intros Hv. unfold section_domains.
  destruct (dict_get g (groups st)) as [ms|] eqn:E; [|done].
  by rewrite valid_members_all by by apply (Hv g).
Qed.

Lemma process_line_new_domains pm pg pf st line st' d :
  process_line pm pg pf st line = Ok st' ->
  d ∈ domains st' -> d ∈ domains st \/ yields line = Some d.
Proof.
  rewrite process_line_yields. destruct (yields line) as [d'|].
  - intros Hadd. destruct (add_domain_fields _ _ _ _ _ _ Hadd) as (-> & _).
    intros [->%elem_of_singleton|?]%elem_of_union; auto.
  - destruct (is_comment (strip line)); intros [= <-]; [|auto].
    destruct (process_comment_fields pm pg st (strip line)) as [-> _]. auto.
Qed.

Lemma for_each_new_domains pm pg pf lines st st' d :
  for_each (process_line pm pg pf) st lines = Ok st' ->
  d ∈ domains st' ->
  d ∈ domains st \/ exists line, line ∈ lines /\ yields line = Some d.
Proof.
  revert st. induction lines as [|line lines IH]; intros st; simpl.
  { intros [= <-]. auto. }
  destruct (process_line pm pg pf st line) as [s|] eqn:E; [|done]. simpl.
  intros Hrun Hd. destruct (IH s Hrun Hd) as [Hs|(l & Hl & Hy)].
  - destruct (process_line_new_domains _ _ _ _ _ _ _ E Hs) as [?|Hy]; [auto|].
    right. exists line. split; [left|done].
  - right. exists l. split; [by right|done].
Qed.

(** C10: with grouping preserved, a group header empties the member list
    of the group it names, whatever was captured under an earlier
    occurrence of that header; the members of the group at the end of the
    input, and the domains of its serialized section, are those that the
    lines from the header onward produce on their own, and each of them is
    extracted from a line that follows the header. *)
Theorem repeated_header_resets_group pm pf pre hdr post g :
  header_of hdr = Some g ->
  exists st1 st2 st3,
    second_pass pm true pf (pre ++ [hdr]) = Ok st1
    /\ dict_get g (groups st1) = Some []
    /\ second_pass pm true pf (pre ++ hdr :: post) = Ok st2
    /\ second_pass pm true pf (hdr :: post) = Ok st3
    /\ dict_get g (groups st2) = dict_get g (groups st3)
    /\ section_domains st2 g = section_domains st3 g
    /\ Forall (fun d => exists line, line ∈ post /\ yields line = Some d)
         (section_domains st2 g).
Proof.
  intros Hh. unfold second_pass.
  destruct (for_each_process_total pm true pf pre init_state init_state_known)
    as (s0 & E0 & K0).
  destruct (process_line_header pm pf s0 hdr g Hh) as (s1 & E1 & C1 & G1 & _).
  destruct (process_line_header pm pf init_state hdr g Hh) as (t1 & F1 & D1 & H1 & T1).
  assert (group_known s1) as K1.
  { destruct (process_line_known pm true pf s0 hdr K0) as (? & E & ?).
    rewrite E1 in E. by injection E as <-. }
  assert (group_known t1) as L1.
  { destruct (process_line_known pm true pf init_state hdr init_state_known)
      as (? & E & ?). rewrite F1 in E. by injection E as <-. }
  assert (agree_on g s1 t1) as Ha.
  { split; [congruence|]. by rewrite G1, H1, !dict_get_set_eq. }
  destruct (for_each_agree pm pf g post s1 t1 K1 L1 Ha) as (s2 & t2 & E2 & F2 & [_ Hg]).
  exists s1, s2, t2.
  assert (members_valid init_state) as Vi by (intros ? ?; discriminate).
  assert (for_each (process_line pm true pf) init_state (pre ++ hdr :: post) = Ok s2) as R2.
  { rewrite for_each_app, E0. simpl. by rewrite E1. }
  assert (for_each (process_line pm true pf) init_state (hdr :: post) = Ok t2) as R3.
  { simpl. by rewrite F1. }
  pose proof (for_each_members_valid pm pf _ _ _ Vi R2) as V2.
  pose proof (for_each_members_valid pm pf _ _ _ Vi R3) as V3.
  assert (section_domains s2 g = section_domains t2 g) as Hsec.
  { by rewrite !section_domains_members, Hg. }
  split; [rewrite for_each_app, E0; simpl; by rewrite E1|].
  split; [by rewrite G1, dict_get_set_eq|].
  split; [done|]. split; [done|]. split; [done|]. split; [done|].
  rewrite Hsec, section_domains_members by done.
  destruct (dict_get g (groups t2)) as [ms|] eqn:Hms; [|constructor].
  apply Forall_sorted. eapply Forall_impl; [exact (V3 g ms Hms)|].
  intros d Hd. simpl in Hd.
  destruct (for_each_new_domains pm true pf post t1 t2 d F2 Hd) as [Hin|?]; [|done].
  rewrite T1 in Hin. simpl in Hin. set_solver.
Qed.

Lemma repeated_header_resets_group_witness :
  header_of (str "# [ads]") = Some (str "ads")
  /\ exists st1 st2 st3,
       second_pass false true false ([str "#[ads]"; str "a.com"] ++ [str "# [ads]"]) = Ok st1
       /\ dict_get (str "ads") (groups st1) = Some []
       /\ second_pass false true false
            ([str "#[ads]"; str "a.com"] ++ str "# [ads]" :: [str "b.com"]) = Ok st2
       /\ second_pass false true false (str "# [ads]" :: [str "b.com"]) = Ok st3
       /\ dict_get (str "ads") (groups st2) = dict_get (str "ads") (groups st3)
       /\ section_domains st2 (str "ads") = section_domains st3 (str "ads")
       /\ Forall (fun d => exists line, line ∈ [str "b.com"] /\ yields line = Some d)
            (section_domains st2 (str "ads")).
Proof.
  split; [by vm_compute|].
  apply (repeated_header_resets_group false false
           [str "#[ads]"; str "a.com"] (str "# [ads]") [str "b.com"] (str "ads")).
  by vm_compute.
Defined.






(** ** Format detection (claim C6) *)






(** ** The error path (claim C7) *)

(** C7: when the body of [optimize_blocklist] raises, the function
    returns the one-line placeholder text together with the empty domain
    set. *)
Theorem error_is_downgraded decode content pm pg pf now e :
  optimize_body decode content pm pg pf now = Raise e ->
  optimize_blocklist decode content pm pg pf now
  = (str "# Error processing blocklist", ∅)
  /\ splitlines (optimize_blocklist decode content pm pg pf now).1
     = [str "# Error processing blocklist"].
Proof.
  intros Hraise. unfold optimize_blocklist. rewrite Hraise.
  cbn [try_except error_result fst]. split; [done|]. by vm_compute.
Qed.

Lemma error_is_downgraded_witness :
  optimize_blocklist sample_decode PyNone true true false sample_now
  = (str "# Error processing blocklist", ∅)
  /\ splitlines (optimize_blocklist sample_decode PyNone true true false sample_now).1
     = [str "# Error processing blocklist"].
Proof.
  apply (error_is_downgraded sample_decode PyNone true true false sample_now
           AttributeError).
  reflexivity.
Defined.

(** ** The length limit of the validator (claim C4) *)

(** C4, as amended: [is_valid_domain] applies the 253-character limit to
    the token as it is given, before a leading wildcard prefix is
    stripped; every token of more than 253 characters is rejected,
    whether or not it starts with the prefix. *)
Theorem length_limit_on_whole_token token :
  253 < length token -> is_valid_domain token = false.
Proof.
  intros Hlen. unfold is_valid_domain.
  destruct (_ || _ || _); [done|].
  by rewrite (proj2 (Nat.ltb_lt _ _) Hlen).
Qed.

Lemma length_limit_on_whole_token_witness :
  253 < length (str "*." ++ domain_253)
  /\ is_valid_domain (str "*." ++ domain_253) = false.
Proof.
  split; [vm_compute; lia|].
  apply (length_limit_on_whole_token (str "*." ++ domain_253)).
  vm_compute. lia.
Defined.

(** C4 as stated fails: a token of 255 characters whose remainder after
    the wildcard prefix is a valid domain of 253 characters is rejected. *)
Lemma wildcard_token_of_255_rejected :
  length (str "*." ++ domain_253) = 255
  /\ length domain_253 = 253
  /\ is_valid_domain domain_253 = true
  /\ is_valid_domain (str "*." ++ domain_253) = false.
Proof. by vm_compute. Qed.

(** ** Aggregation (claim C1) *)

Lemma foldl_add_if {X} (P : X -> Prop) `{!forall y, Decision (P y)}
    (f : X -> nat) (l : list X) (a : nat) :
  foldl (fun acc y => if decide (P y) then acc + f y else acc) a l
  = a + sum_list_with (fun y => if decide (P y) then f y else 0) l.
Proof.
  revert a. induction l as [|y l IH]; intros a; simpl; [lia|].
  rewrite IH. destruct (decide (P y)); lia.
Qed.

Lemma count_overlaps_sum items :
  count_overlaps items
  = sum_list_with (fun x => sum_list_with (pair_weight x) items) items.
Proof.
  unfold count_overlaps.
  enough (forall l a,
    foldl (fun acc item1 =>
             foldl (fun acc item2 =>
                      if decide (item1.1 <> item2.1)
                      then acc + size (item1.2 ∩ item2.2) else acc) acc items) a l
    = a + sum_list_with (fun x => sum_list_with (pair_weight x) items) l) as H.
  { by rewrite H. }
  induction l as [|x l IH]; intros a; simpl; [lia|].
  rewrite IH.
  rewrite (foldl_add_if (fun y => x.1 <> y.1) (fun y => size (x.2 ∩ y.2))).
  unfold pair_weight. lia.
Qed.

Lemma pair_weight_sym x y : pair_weight x y = pair_weight y x.
Proof.
  unfold pair_weight. rewrite (comm_L (∩) x.2 y.2).
  destruct (decide (x.1 <> y.1)) as [H1|H1], (decide (y.1 <> x.1)) as [H2|H2];
    done.
Qed.

Lemma pair_weight_self x : pair_weight x x = 0.
Proof. unfold pair_weight. by rewrite decide_False by (intros H; by apply H). Qed.

Lemma sum_list_with_add {X} (f g : X -> nat) l :
  sum_list_with (fun x => f x + g x) l = sum_list_with f l + sum_list_with g l.
Proof. induction l as [|x l IH]; simpl; [done|]. rewrite IH. lia. Qed.

Lemma sum_list_with_ext_in {X} (f g : X -> nat) l :
  (forall x, x ∈ l -> f x = g x) -> sum_list_with f l = sum_list_with g l.
Proof.
  induction l as [|x l IH]; intros H; simpl; [done|].
  rewrite H by left. rewrite IH; [done|]. intros. apply H. by right.
Qed.

Lemma ordered_pairs_twice items :
  NoDup (items.*1) ->
  sum_list_with (fun x => sum_list_with (pair_weight x) items) items
  = 2 * pair_overlaps (items.*2).
Proof.
  induction items as [|x items IH]; intros Hnd; [done|].
  apply NoDup_cons in Hnd as [Hx Hnd]. simpl.
  rewrite pair_weight_self, sum_list_with_add.
  rewrite (sum_list_with_ext_in (fun y => pair_weight y x) (pair_weight x))
    by (intros; apply pair_weight_sym).
  rewrite IH by done.
  assert (sum_list_with (pair_weight x) items
          = sum_list_with (fun s' => size (x.2 ∩ s')) (items.*2)) as ->.
  { clear IH Hnd. induction items as [|y l IH]; [done|].
    simpl in Hx. apply not_elem_of_cons in Hx as [Hne Hx].
    simpl. rewrite IH by done. f_equal. unfold pair_weight.
    by rewrite decide_True. }
  change (list_fmap (text * gset text)%type (gset text) snd items) with (items.*2).
  lia.
Qed.

Lemma count_overlaps_halved (m : gmap text (gset text)) :
  count_overlaps (map_to_list m) / 2 = pair_overlaps ((map_to_list m).*2).
Proof.
  rewrite count_overlaps_sum, ordered_pairs_twice by apply NoDup_fst_map_to_list.
  rewrite Nat.mul_comm. by apply Nat.div_mul.
Qed.

Lemma category_union_cons c item stats :
  category_union c (item :: stats)
  = if decide (category item.2 = c)
    then stat_domains item.2 ∪ category_union c stats
    else category_union c stats.
Proof.
  unfold category_union. rewrite filter_cons.
  by destruct (decide (category item.2 = c)).
Qed.

Lemma for_each_collect (stats : list (text * list_stats))
    (all0 : gset text) (m0 : gmap text (gset text)) :
  Forall (fun item => is_Some (m0 !! category item.2)) stats ->
  exists (all : gset text) (m : gmap text (gset text)),
    for_each collect (all0, m0) stats = Ok (all, m)
    /\ all = all0 ∪ ⋃ (map (fun item => stat_domains item.2) stats)
    /\ forall c, m !! c = (fun ds => ds ∪ category_union c stats) <$> m0 !! c.
Proof.
  intros Hcat. revert all0 m0 Hcat.
  induction stats as [|item stats IH]; intros all0 m0 Hcat.
  { exists all0, m0. repeat split.
    - simpl. set_solver.
    - intros c. destruct (m0 !! c) as [ds|]; simpl; [|done].
      f_equal. unfold category_union. simpl. set_solver. }
  apply Forall_cons in Hcat as [[ds Hds] Hcat].
  simpl. unfold collect at 1. rewrite Hds. simpl.
  destruct (IH (all0 ∪ stat_domains item.2)
              (<[category item.2 := ds ∪ stat_domains item.2]> m0))
    as (all & m & Hrun & Hall & Hm).
  { eapply Forall_impl; [exact Hcat|]. intros it [ds' Hit]. simpl.
    rewrite lookup_insert. destruct (decide _); eauto. }
  exists all, m. split; [done|]. split.
  { rewrite Hall. set_solver. }
  intros c. rewrite Hm, category_union_cons, lookup_insert.
  destruct (decide (category item.2 = c)) as [<-|Hne]; simpl.
  - rewrite Hds. simpl. f_equal. set_solver.
  - done.
Qed.

Lemma sum_indicator (U X : gset text) :
  X ⊆ U ->
  sum_list_with (fun d => if decide (d ∈ X) then 1 else 0) (elements U) = size X.
Proof.
  intros Hsub.
  assert (forall l : list text,
            sum_list_with (fun d => if decide (d ∈ X) then 1 else 0) l
            = length (filter (fun d => d ∈ X) l)) as ->.
  { induction l as [|d l IH]; simpl; [done|].
    rewrite filter_cons. destruct (decide (d ∈ X)); simpl; by rewrite IH. }
  unfold size, set_size. simpl. apply Permutation_length.
  apply NoDup_Permutation.
  - apply NoDup_filter, NoDup_elements.
  - apply NoDup_elements.
  - intros d. rewrite list_elem_of_filter, !elem_of_elements. set_solver.
Qed.

Lemma multiplicity_cons d s sets :
  multiplicity d (s :: sets)
  = (if decide (d ∈ s) then 1 else 0) + multiplicity d sets.
Proof.
  unfold multiplicity. rewrite filter_cons. by destruct (decide (d ∈ s)).
Qed.

Lemma choose2_succ k : choose2 (S k) = k + choose2 k.
Proof.
  unfold choose2.
  replace (S k * (S k - 1)) with (k * 2 + k * (k - 1)) by (destruct k; simpl; lia).
  by rewrite Nat.div_add_l.
Qed.

Lemma sum_multiplicity_in (U s : gset text) rest :
  s ⊆ U ->
  sum_list_with (fun d => if decide (d ∈ s) then multiplicity d rest else 0)
    (elements U)
  = sum_list_with (fun s' => size (s ∩ s')) rest.
Proof.
  intros Hsub. induction rest as [|s' rest IH]; simpl.
  { induction (elements U) as [|d l IHl]; simpl; [done|].
    rewrite IHl. by destruct (decide (d ∈ s)). }
  rewrite <- IH, <- (sum_indicator U (s ∩ s')) by set_solver.
  rewrite <- sum_list_with_add. apply sum_list_with_ext_in. intros d _.
  rewrite multiplicity_cons.
  destruct (decide (d ∈ s)), (decide (d ∈ s')), (decide (d ∈ s ∩ s'));
    set_solver || lia.
Qed.

Lemma pair_overlaps_choose2_in (U : gset text) sets :
  ⋃ sets ⊆ U ->
  pair_overlaps sets
  = sum_list_with (fun d => choose2 (multiplicity d sets)) (elements U).
Proof.
  induction sets as [|s sets IH]; intros Hsub; simpl.
  { induction (elements U) as [|d l IHl]; simpl; [done|]. by rewrite <- IHl. }
  simpl in Hsub. rewrite IH by set_solver.
  rewrite <- (sum_multiplicity_in U s sets) by set_solver.
  rewrite <- sum_list_with_add. apply sum_list_with_ext_in. intros d _.
  rewrite multiplicity_cons. destruct (decide (d ∈ s)); simpl; [|done].
  apply eq_sym, choose2_succ.
Qed.

(** C1: the aggregation step returns, for each category, the union of
    the domain sets of the sources tagged with it; its overlap count is the
    sum of [|set_i ∩ set_j|] over the unordered pairs of distinct
    categories, to which a domain present in k categories contributes
    k-choose-2; and the global set is the union of the per-category sets. *)
Theorem aggregation_overlap_and_union categories domain_stats :
  Forall (fun item => category item.2 ∈ categories) domain_stats ->
  exists p,
    create_production_lists categories domain_stats = Ok p
    /\ (forall c, category_domains p !! c
                  = if decide (c ∈ categories)
                    then Some (category_union c domain_stats) else None)
    /\ duplicate_domains p = pair_overlaps ((map_to_list (category_domains p)).*2)
    /\ duplicate_domains p
       = sum_list_with
           (fun d => choose2 (multiplicity d ((map_to_list (category_domains p)).*2)))
           (elements (all_domains p))
    /\ all_domains p = ⋃ ((map_to_list (category_domains p)).*2)
    /\ unique_domains p = size (all_domains p).
Proof.
  intros Hcat. unfold create_production_lists.
  destruct (for_each_collect domain_stats ∅ (gset_to_gmap ∅ categories))
    as (all & m & Hrun & Hall & Hm).
  { eapply Forall_impl; [exact Hcat|]. intros item Hin. simpl.
    rewrite lookup_gset_to_gmap, option_guard_True by done. eauto. }
  rewrite Hrun. cbn [bind]. eexists. split; [done|].
  cbn [all_domains category_domains duplicate_domains unique_domains fst snd].
  assert (forall c, m !! c
            = if decide (c ∈ categories)
              then Some (category_union c domain_stats) else None) as Hm'.
  { intros c. rewrite Hm, lookup_gset_to_gmap.
    destruct (decide (c ∈ categories)).
    - rewrite option_guard_True by done. simpl. f_equal. set_solver.
    - by rewrite option_guard_False. }
  assert (all = ⋃ ((map_to_list m).*2)) as Hunion.
  { apply set_eq. intros d. rewrite Hall, elem_of_union_list. split.
    - intros Hd. apply elem_of_union in Hd as [Hd|Hd]; [set_solver|].
      apply elem_of_union_list in Hd as (X & HX & Hd).
      apply list_elem_of_fmap in HX as (item & -> & Hitem).
      exists (category_union (category item.2) domain_stats). split.
      + apply list_elem_of_fmap.
        exists (category item.2, category_union (category item.2) domain_stats).
        split; [done|]. apply elem_of_map_to_list. rewrite Hm'.
        rewrite decide_True; [done|].
        by apply (proj1 (Forall_forall _ _) Hcat item).
      + unfold category_union. apply elem_of_union_list.
        exists (stat_domains item.2). split; [|done].
        apply list_elem_of_fmap. exists item. split; [done|].
        by apply list_elem_of_filter.
    - intros (X & HX & Hd).
      apply list_elem_of_fmap in HX as ([c X'] & -> & HX).
      apply elem_of_map_to_list in HX. rewrite Hm' in HX.
      destruct (decide (c ∈ categories)); [|done]. injection HX as <-.
      simpl in Hd. unfold category_union in Hd.
      apply elem_of_union_list in Hd as (Y & HY & Hd).
      apply list_elem_of_fmap in HY as (item & -> & Hitem).
      apply list_elem_of_filter in Hitem as [_ Hitem].
      apply elem_of_union. right. apply elem_of_union_list.
      exists (stat_domains item.2). split; [|done].
      apply list_elem_of_fmap. by exists item. }
  repeat split.
  - done.
  - apply count_overlaps_halved.
  - rewrite count_overlaps_halved. apply pair_overlaps_choose2_in.
    by rewrite <- Hunion.
  - done.
Qed.

Lemma aggregation_overlap_and_union_witness :
  exists p,
    create_production_lists {[str "A"; str "B"]}
      [(str "one", stats_A); (str "two", stats_B)] = Ok p
    /\ duplicate_domains p = pair_overlaps ((map_to_list (category_domains p)).*2)
    /\ all_domains p = ⋃ ((map_to_list (category_domains p)).*2).
Proof.
  destruct (aggregation_overlap_and_union {[str "A"; str "B"]}
              [(str "one", stats_A); (str "two", stats_B)])
    as (p & Hrun & _ & Hdup & _ & Hall & _).
  { repeat constructor; apply bool_decide_unpack; by vm_compute. }
  exists p. done.
Defined.

(** The example of the specification: two categories sharing one domain. *)
Example aggregation_example :
  exists p,
    create_production_lists {[str "A"; str "B"]}
      [(str "one", stats_A); (str "two", stats_B)] = Ok p
    /\ duplicate_domains p = 1 /\ unique_domains p = 3.
Proof. eexists. split; [by vm_compute|]. by vm_compute. Qed.

(** ** The matcher against the meaning of patterns *)

Lemma orelse_Some {A} (x y : option A) a :
  orelse x y = Some a -> x = Some a \/ y = Some a.
Proof. destruct x; simpl; auto. Qed.

Lemma orelse_is_Some_l {A} (x y : option A) : is_Some x -> is_Some (orelse x y).
Proof. by intros [a ->]. Qed.

Lemma orelse_is_Some_r {A} (x y : option A) : is_Some y -> is_Some (orelse x y).
Proof. destruct x; simpl; eauto. Qed.

Section MatcherProps.
Context {A : Type}.
Implicit Types (k : @cont A) (s u v : text) (g : option text).

Lemma rep_loop_sound r body greedy k :
    body_sound r body ->
    forall n lo s g x, rep_loop body greedy k n lo s g = Some x ->
      exists m u v g', lo <= m /\ m <= n /\ s = u ++ v
        /\ Iter r m u v g g' /\ k v g' = Some x.
  Proof.
    intros Hbody. induction n as [|n IH]; intros lo s g x Hrun.
    - simpl in Hrun.
      assert (match lo with 0 => k s g | S _ => None end = Some x) as Hstop.
      { destruct greedy; simpl in Hrun; [done|].
        by apply orelse_Some in Hrun as [?|?]. }
      destruct lo; [|done].
      exists 0, [], s, g. repeat split; [lia..|constructor|done].
    - simpl in Hrun.
      assert (match lo with 0 => k s g | S _ => None end = Some x
              \/ body s g (fun s' g' => rep_loop body greedy k n (pred lo) s' g')
                 = Some x) as [Hstop|Hmore].
      { destruct greedy; apply orelse_Some in Hrun; tauto. }
      + destruct lo; [|done].
        exists 0, [], s, g. repeat split; [lia..|constructor|done].
      + apply Hbody in Hmore as (u1 & v1 & g1 & -> & Hm & Hrest).
        apply IH in Hrest as (m & u2 & v & g' & Hlo & Hn & -> & Hit & Hk).
        exists (S m), (u1 ++ u2), v, g'.
        repeat split; [lia|lia|by rewrite app_assoc| |done].
        econstructor; eauto.
  Qed.

Lemma rep_loop_complete r body greedy k :
    body_complete r body ->
    forall m u v g g', Iter r m u v g g' ->
    forall n lo, lo <= m -> m <= n -> is_Some (k v g') ->
      is_Some (rep_loop body greedy k n lo (u ++ v) g).
  Proof.
    intros Hbody. induction 1 as [r v g|r m u1 u2 v g g1 g2 Hm Hit IH];
      intros n lo Hlo Hn Hk.
    - assert (lo = 0) as -> by lia.
      destruct n; simpl; destruct greedy;
        first [done | by apply orelse_is_Some_l | by apply orelse_is_Some_r].
    - destruct n as [|n]; [lia|]. simpl.
      assert (is_Some (body ((u1 ++ u2) ++ v) g
                (fun s' g' => rep_loop body greedy k n (pred lo) s' g'))) as Hmore.
      { rewrite <- app_assoc. apply (Hbody u1 (u2 ++ v) g g1); [done|].
        apply IH; [done|lia|lia|done]. }
      destruct greedy; [by apply orelse_is_Some_l|by apply orelse_is_Some_r].
  Qed.
End MatcherProps.

Lemma run_sound r :
  forall A s g (k : @cont A) x, run r s g k = Some x ->
    exists u v g', s = u ++ v /\ Matches r u v g g' /\ k v g' = Some x.
Proof.
  induction r as [p|r1 IH1 r2 IH2|r1 IH1 r2 IH2|greedy lo hi r IH|r IH|];
    intros A s g k x Hrun; simpl in Hrun.
  - destruct s as [|c s]; [done|]. destruct (p c) eqn:Hp; [|done].
    exists [c], s, g. repeat split; [by constructor|done].
  - apply IH1 in Hrun as (u1 & v1 & g1 & -> & Hm1 & Hrun).
    apply IH2 in Hrun as (u2 & v & g2 & -> & Hm2 & Hk).
    exists (u1 ++ u2), v, g2. repeat split; [by rewrite app_assoc| |done].
    econstructor; eauto.
  - apply orelse_Some in Hrun as [Hrun|Hrun].
    + apply IH1 in Hrun as (u & v & g' & -> & Hm & Hk).
      exists u, v, g'. repeat split; [by apply M_AltL|done].
    + apply IH2 in Hrun as (u & v & g' & -> & Hm & Hk).
      exists u, v, g'. repeat split; [by apply M_AltR|done].
  - apply (rep_loop_sound r) in Hrun
      as (m & u & v & g' & Hlo & Hn & -> & Hit & Hk).
    + exists u, v, g'. repeat split; [|done].
      apply (M_Rep _ _ _ _ m); [done| |done].
      intros h ->. done.
    + intros s' g0 k' x'. apply IH.
  - apply IH in Hrun as (u & v & g' & -> & Hm & Hk).
    exists u, v, (Some u). repeat split; [by econstructor|].
    rewrite length_app, Nat.add_sub, take_app_length in Hk. done.
  - destruct (at_eol s) eqn:He; [|done].
    exists [], s, g. repeat split; [by constructor|done].
Qed.

Lemma consumes_nonempty r u v g g' :
  consumes r = true -> Matches r u v g g' -> u <> [].
Proof.
  revert u v g g'.
  induction r as [p|r1 IH1 r2 IH2|r1 IH1 r2 IH2|greedy lo hi r IH|r IH|];
    intros u v g g' Hc Hm; inversion Hm; subst; simpl in Hc.
  - done.
  - apply orb_true_iff in Hc as [Hc|Hc].
    + intros E. apply app_eq_nil in E as [-> _]. by eapply IH1.
    + intros E. apply app_eq_nil in E as [_ ->]. by eapply IH2.
  - apply andb_true_iff in Hc as [Hc _]. by eapply IH1.
  - apply andb_true_iff in Hc as [_ Hc]. by eapply IH2.
  - apply andb_true_iff in Hc as [Hlo Hc]. apply Nat.ltb_lt in Hlo.
    match goal with H : Iter _ _ _ _ _ _ |- _ => inversion H; subst end; [lia|].
    intros E. apply app_eq_nil in E as [-> _]. by eapply IH.
  - by eapply IH.
  - done.
Qed.

Lemma Iter_length r n u v g g' :
  consumes r = true -> Iter r n u v g g' -> n <= length u.
Proof.
  intros Hc. induction 1 as [|r n u1 u2 v g g1 g2 Hm Hit IH]; [simpl; lia|].
  apply (consumes_nonempty _ _ _ _ _ Hc) in Hm.
  rewrite length_app. destruct u1; [done|]. simpl. specialize (IH Hc). lia.
Qed.

Lemma run_complete r :
  progressing r = true ->
  forall A u v g g' (k : @cont A), Matches r u v g g' -> is_Some (k v g') ->
    is_Some (run r (u ++ v) g k).
Proof.
  induction r as [p|r1 IH1 r2 IH2|r1 IH1 r2 IH2|greedy lo hi r IH|r IH|];
    intros Hp A u v g g' k Hm Hk; inversion Hm; subst; simpl in Hp |- *.
  - match goal with H : p _ = true |- _ => by rewrite H end.
  - apply andb_true_iff in Hp as [Hp1 Hp2].
    rewrite <- app_assoc. eapply IH1; [done..|]. by eapply IH2.
  - apply andb_true_iff in Hp as [Hp1 Hp2].
    apply orelse_is_Some_l. by eapply IH1.
  - apply andb_true_iff in Hp as [Hp1 Hp2].
    apply orelse_is_Some_r. by eapply IH2.
  - apply andb_true_iff in Hp as [Hp Hhi].
    eapply (rep_loop_complete r); [|done|done| |done].
    + intros u' v' g0 g0' k' Hm' Hk'. by eapply IH.
    + destruct hi as [h|]; [auto|].
      rewrite length_app.
      match goal with H : Iter _ _ _ _ _ _ |- _ =>
        apply (Iter_length _ _ _ _ _ _ Hhi) in H end. lia.
  - eapply IH; [done..|]. simpl.
    by rewrite length_app, Nat.add_sub, take_app_length.
  - match goal with H : at_eol _ = true |- _ => by rewrite H end.
Qed.

(** The recorded group is a part of what was consumed. *)
Lemma Matches_group_infix :
  (forall r u v g g', Matches r u v g g' ->
     g' = g \/ exists a w b, g' = Some w /\ u = a ++ w ++ b)
  /\ (forall r n u v g g', Iter r n u v g g' ->
     g' = g \/ exists a w b, g' = Some w /\ u = a ++ w ++ b).
Proof.
  apply Matches_Iter_ind; intros; auto.
  - destruct H2 as [->|(a & w & b & -> & ->)].
    + destruct H0 as [->|(a & w & b & -> & ->)]; [auto|].
      right. exists a, w, (b ++ u2). by rewrite <- !app_assoc.
    + right. exists (u1 ++ a), w, b. by rewrite <- !app_assoc.
  - right. exists [], u, []. by rewrite app_nil_r.
  - destruct H2 as [->|(a & w & b & -> & ->)].
    + destruct H0 as [->|(a & w & b & -> & ->)]; [auto|].
      right. exists a, w, (b ++ u2). by rewrite <- !app_assoc.
    + right. exists (u1 ++ a), w, b. by rewrite <- !app_assoc.
Qed.

(** Without a group in the expression, the recorded group stays. *)
Lemma Matches_groupless :
  (forall r u v g g', Matches r u v g g' -> groupless r = true -> g' = g)
  /\ (forall r n u v g g', Iter r n u v g g' -> groupless r = true -> g' = g).
Proof.
  apply Matches_Iter_ind; intros; simpl in *; auto; try done.
  - apply andb_true_iff in H3 as [? ?]. rewrite H2, H0; done.
  - apply andb_true_iff in H1 as [? ?]. auto.
  - apply andb_true_iff in H1 as [? ?]. auto.
  - rewrite H2, H0; done.
Qed.

(** What is consumed is made of characters of the expression's classes. *)
Lemma Matches_alphabet :
  (forall r u v g g', Matches r u v g g' -> Forall (fun c => alphabet r c = true) u)
  /\ (forall r n u v g g', Iter r n u v g g' -> Forall (fun c => alphabet r c = true) u).
Proof.
  apply Matches_Iter_ind; intros; simpl; auto.
  - apply Forall_app. split.
    + eapply Forall_impl; [exact H0|]. simpl. intros c ->. done.
    + eapply Forall_impl; [exact H2|]. simpl. intros c ->. by rewrite orb_true_r.
  - eapply Forall_impl; [exact H0|]. simpl. intros c ->. done.
  - eapply Forall_impl; [exact H0|]. simpl. intros c ->. by rewrite orb_true_r.
  - apply Forall_app. split; done.
Qed.

(** A pattern that ends with [$] is followed by the end of the subject. *)
Lemma anchored_eol r u v g g' :
  anchored r = true -> Matches r u v g g' -> at_eol v = true.
Proof.
  revert u v g g'.
  induction r as [p|r1 IH1 r2 IH2|r1 IH1 r2 IH2|greedy lo hi r IH|r IH|];
    intros u v g g' Ha Hm; try done; inversion Hm; subst.
  - by eapply IH2.
  - done.
Qed.

Lemma Iter_class p s v g :
  Forall (fun c => p c = true) s -> Iter (Cls p) (length s) s v g g.
Proof.
  induction 1 as [|c s Hc _ IH]; [constructor|].
  apply (I_S (Cls p) (length s) [c] s v g g g); [by constructor|done].
Qed.

Lemma Iter_class_inv p n u v g g' :
  Iter (Cls p) n u v g g' ->
  length u = n /\ Forall (fun c => p c = true) u /\ g' = g.
Proof.
  remember (Cls p) as r eqn:Er.
  induction 1 as [|r n u1 u2 v g g1 g2 Hm Hit IH]; [done|]. subst r.
  inv Hm. destruct (IH eq_refl) as (<- & Hall & ->).
  split; [done|]. split; [by constructor|done].
Qed.

Lemma Matches_Cls_inv p u v g g' :
  Matches (Cls p) u v g g' -> exists c, u = [c] /\ p c = true /\ g' = g.
Proof. intros H. inv H. eauto. Qed.

Lemma Matches_Cat_inv r1 r2 u v g g' :
  Matches (Cat r1 r2) u v g g' ->
  exists u1 u2 g1, u = u1 ++ u2
    /\ Matches r1 u1 (u2 ++ v) g g1 /\ Matches r2 u2 v g1 g'.
Proof. intros H. inv H. eauto 10. Qed.

Lemma Matches_Alt_inv r1 r2 u v g g' :
  Matches (Alt r1 r2) u v g g' -> Matches r1 u v g g' \/ Matches r2 u v g g'.
Proof. intros H. inv H; auto. Qed.

Lemma Matches_Grp_inv r u v g g' :
  Matches (Grp r) u v g g' -> g' = Some u /\ exists g0, Matches r u v g g0.
Proof. intros H. inv H. eauto. Qed.

Lemma Matches_Eol_inv u v g g' :
  Matches Eol u v g g' -> u = [] /\ at_eol v = true /\ g' = g.
Proof. intros H. inv H. eauto. Qed.

Lemma Matches_Rep_inv greedy lo hi r u v g g' :
  Matches (Rep greedy lo hi r) u v g g' ->
  exists n, lo <= n /\ (forall h, hi = Some h -> n <= h) /\ Iter r n u v g g'.
Proof. intros H. inv H. eauto. Qed.

(** A literal character. *)
Lemma Matches_chr_inv (a : ascii) u v g g' :
  Matches (chr (String a EmptyString)) u v g g' -> u = [a] /\ g' = g.
Proof.
  intros (c & -> & Hc & ->)%Matches_Cls_inv.
  change (Ascii.eqb a c = true) in Hc. apply Ascii.eqb_eq in Hc as ->. done.
Qed.

Lemma Matches_chr (a : ascii) v g : Matches (chr (String a EmptyString)) [a] v g g.
Proof. constructor. change (Ascii.eqb a a = true). apply Ascii.eqb_refl. Qed.

(** A repeated character class. *)
Lemma Matches_Rep_class_inv greedy lo hi p u v g g' :
  Matches (Rep greedy lo hi (Cls p)) u v g g' ->
  lo <= length u /\ (forall h, hi = Some h -> length u <= h)
  /\ Forall (fun c => p c = true) u /\ g' = g.
Proof.
  intros (n & Hlo & Hhi & Hit)%Matches_Rep_inv.
  apply Iter_class_inv in Hit as (<- & Hall & ->). done.
Qed.

Lemma Matches_Rep_class greedy lo hi p u v g :
  lo <= length u -> (forall h, hi = Some h -> length u <= h) ->
  Forall (fun c => p c = true) u ->
  Matches (Rep greedy lo hi (Cls p)) u v g g.
Proof.
  intros Hlo Hhi Hall. apply (M_Rep _ _ _ _ (length u)); [done..|].
  by apply Iter_class.
Qed.

(** ** Strings *)

Lemma is_chr_true a c : is_chr a c = true <-> a = c.
Proof. unfold is_chr. apply Ascii.eqb_eq. Qed.

Lemma is_chr_false a c : is_chr a c = false <-> a <> c.
Proof. unfold is_chr. apply Ascii.eqb_neq. Qed.

Lemma lstrip_suffix s : exists p, s = p ++ lstrip s.
Proof.
  induction s as [|c s [p IH]]; simpl; [by exists []|].
  destruct (is_space c).
  - exists (c :: p). simpl. by f_equal.
  - by exists [].
Qed.

Lemma lstrip_Forall (P : ascii -> Prop) s : Forall P s -> Forall P (lstrip s).
Proof.
  intros H. destruct (lstrip_suffix s) as [p E]. rewrite E in H.
  by apply Forall_app in H as [_ H].
Qed.

Lemma strip_Forall (P : ascii -> Prop) s : Forall P s -> Forall P (strip s).
Proof.
  intros H. unfold strip, rstrip.
  apply Forall_rev, lstrip_Forall, Forall_rev. by apply lstrip_Forall.
Qed.

Lemma lstrip_id c s : is_space c = false -> lstrip (c :: s) = c :: s.
Proof. intros H. simpl. by rewrite H. Qed.

Lemma lstrip_snoc s c :
  is_space c = false -> exists p, lstrip (s ++ [c]) = p ++ [c].
Proof.
  intros Hc. induction s as [|d s [p IH]]; simpl.
  - rewrite Hc. by exists [].
  - destruct (is_space d); [eauto|]. by exists (d :: s).
Qed.

Lemma rstrip_id s c : is_space c = false -> rstrip (s ++ [c]) = s ++ [c].
Proof.
  intros Hc. unfold rstrip. rewrite rev_unit, lstrip_id by done.
  simpl. by rewrite rev_involutive.
Qed.

(** Stripping a stripped string changes nothing. *)
Lemma strip_head_space s c s' : strip s = c :: s' -> is_space c = false.
Proof.
  unfold strip, rstrip. intros E.
  destruct (lstrip_suffix (rev (lstrip s))) as [p Ep].
  apply (f_equal (@rev ascii)) in Ep. rewrite rev_involutive, rev_app_distr, E in Ep.
  assert (exists t, lstrip s = c :: t) as [t Et].
  { destruct (lstrip s) as [|x t]; simpl in *.
    - by destruct (rev p).
    - injection Ep as -> _. eauto. }
  clear -Et. induction s as [|d s IH]; simpl in Et; [done|].
  destruct (is_space d) eqn:Hd; [auto|]. by injection Et as ->.
Qed.

Lemma strip_last_space s s' c : strip s = s' ++ [c] -> is_space c = false.
Proof.
  unfold strip, rstrip. intros E.
  apply (f_equal (@rev ascii)) in E. rewrite rev_involutive, rev_unit in E.
  clear -E. induction (rev (lstrip s)) as [|d t IH]; simpl in E; [done|].
  destruct (is_space d) eqn:Hd; [auto|]. by injection E as ->.
Qed.

Lemma strip_fixed s :
  (forall c s', s = c :: s' -> is_space c = false) ->
  (forall s' c, s = s' ++ [c] -> is_space c = false) ->
  strip s = s.
Proof.
  intros Hhd Hlast. unfold strip.
  destruct s as [|c s]; [done|].
  rewrite lstrip_id by eauto.
  destruct (exists_last (l := c :: s)) as (t & d & E); [done|].
  rewrite E. apply rstrip_id. eauto.
Qed.

Lemma strip_strip s : strip (strip s) = strip s.
Proof.
  apply strip_fixed.
  - intros c s'. apply strip_head_space.
  - intros s' c. apply strip_last_space.
Qed.

Lemma has_chr_false c s : has_chr c s = false <-> c ∉ s.
Proof.
  unfold has_chr. induction s as [|d s IH]; simpl.
  - split; [intros _; apply not_elem_of_nil|done].
  - rewrite orb_false_iff, IH, is_chr_false, not_elem_of_cons. done.
Qed.

(** ** Inline comments *)

Lemma before_marker_no_marker s :
  Forall (fun c => is_marker c = false) (before_marker s).
Proof.
  induction s as [|c s IH]; simpl; [constructor|].
  destruct (is_marker c) eqn:Hc; by constructor.
Qed.

Lemma before_marker_Forall (P : ascii -> Prop) s :
  Forall P s -> Forall P (before_marker s).
Proof.
  induction 1 as [|c s Hc _ IH]; simpl; [constructor|].
  destruct (is_marker c); by constructor.
Qed.

Lemma before_marker_id s :
  Forall (fun c => is_marker c = false) s -> before_marker s = s.
Proof.
  induction 1 as [|c s Hc _ IH]; simpl; [done|]. by rewrite Hc, IH.
Qed.

Lemma at_eol_no_newline v : at_eol v = true -> LF ∉ v -> v = [].
Proof.
  destruct v as [|c [|d v]]; [done| |done].
  unfold at_eol. intros Hc%is_chr_true Hn. subst c. exfalso. apply Hn. by left.
Qed.

Lemma inline_comment_at_marker c s :
  is_marker c = true -> LF ∉ c :: s ->
  run INLINE_COMMENT (c :: s) None (fun rest _ => Some rest) = Some [].
Proof.
  intros Hc Hlf.
  assert (Matches INLINE_COMMENT ([c] ++ s ++ []) [] None (Some [c])) as Hm.
  { apply (M_Cat _ _ [c] (s ++ []) [] None (Some [c]) (Some [c])).
    - apply (M_Grp _ _ _ None None).
      unfold is_marker in Hc. apply orb_true_iff in Hc as [Hc|Hc].
      + apply is_chr_true in Hc as <-. apply M_AltL, Matches_chr.
      + apply is_chr_true in Hc as <-. apply M_AltR, Matches_chr.
    - apply (M_Cat _ _ s [] [] _ (Some [c])); [|by constructor].
      apply (M_Rep _ _ _ _ (length s)); [lia|done|].
      apply Iter_class. apply Forall_forall. intros d Hd.
      apply negb_true_iff, is_chr_false. intros <-. apply Hlf. by right. }
  destruct (run_complete INLINE_COMMENT eq_refl text _ _ _ _
              (fun rest _ => Some rest) Hm) as [rest Hrun]; [by eexists|].
  rewrite !app_nil_r in Hrun. simpl app in Hrun.
  rewrite Hrun. f_equal.
  apply run_sound in Hrun as (u & v & g' & E & Hu & [= <-]).
  apply (anchored_eol INLINE_COMMENT _ _ _ _ eq_refl) in Hu.
  apply at_eol_no_newline; [done|].
  intros Hin. apply Hlf. rewrite E. apply elem_of_app. by right.
Qed.

Lemma inline_comment_elsewhere c s :
  is_marker c = false ->
  run INLINE_COMMENT (c :: s) None (fun rest _ => Some rest) = None.
Proof.
  intros Hc.
  destruct (run INLINE_COMMENT (c :: s) None _) as [rest|] eqn:Hrun; [|done].
  apply run_sound in Hrun as (u & v & g' & E & Hu & _).
  apply Matches_Cat_inv in Hu as (u1 & u2 & g1 & -> & Hu & _).
  apply Matches_Grp_inv in Hu as [_ [g0 Hu]].
  unfold is_marker in Hc. apply orb_false_iff in Hc as [H1 H2].
  apply is_chr_false in H1, H2.
  apply Matches_Alt_inv in Hu as [Hu|Hu];
    apply Matches_chr_inv in Hu as [-> _]; injection E as E1 E2; congruence.
Qed.

Lemma re_sub_inline_comment_go fuel s :
  LF ∉ s -> length s <= fuel ->
  re_sub_empty_go fuel INLINE_COMMENT s = before_marker s.
Proof.
  revert s. induction fuel as [|fuel IH]; intros s Hlf Hlen.
  { destruct s; [done|simpl in Hlen; lia]. }
  destruct s as [|c s]; [done|].
  cbn [re_sub_empty_go before_marker].
  destruct (is_marker c) eqn:Hc.
  - rewrite inline_comment_at_marker by done. simpl. by destruct fuel.
  - rewrite inline_comment_elsewhere by done. f_equal. apply IH.
    + by apply not_elem_of_cons in Hlf as [_ ?].
    + simpl in Hlen. lia.
Qed.

(** On a line, [re.sub] cuts the text at the first comment marker. *)
Lemma re_sub_inline_comment s :
  LF ∉ s -> re_sub_empty INLINE_COMMENT s = before_marker s.
Proof. intros. by apply re_sub_inline_comment_go. Qed.

(** ** The extractor (claim C9) *)

(** A successful match records a part of the subject. *)
Lemma re_match_group r s token :
  re_match r s = Some (Some token) -> exists a b, s = a ++ token ++ b.
Proof.
  unfold re_match. intros Hrun.
  apply run_sound in Hrun as (u & v & g' & -> & Hm & [= ->]).
  apply (proj1 Matches_group_infix) in Hm as [?|(a & w & b & [= <-] & ->)]; [done|].
  exists a, (b ++ v). by rewrite <- !app_assoc.
Qed.

Lemma extract_part_of_line line token :
  LF ∉ line -> extract_domain_from_line line = Some token ->
  exists a b, strip (before_marker (strip line)) = a ++ token ++ b.
Proof.
  intros Hlf. unfold extract_domain_from_line.
  destruct (is_empty (strip line) || is_comment (strip line)); [done|].
  rewrite re_sub_inline_comment.
  2:{ intros Hin. apply Hlf.
      assert (Forall (fun c => c ∈ line) (strip line)) as H.
      { apply strip_Forall, Forall_forall. auto. }
      by apply (proj1 (Forall_forall _ _) H). }
  set (line2 := strip (before_marker (strip line))).
  destruct (is_empty line2); [done|].
  destruct (re_match IP_DOMAIN_PATTERN line2) as [m|] eqn:Hip.
  { intros ->. by apply (re_match_group _ _ _ Hip). }
  destruct (re_match ADBLOCK_PATTERN line2) as [m|] eqn:Had.
  { intros ->. by apply (re_match_group _ _ _ Had). }
  destruct (_ && _); [|done]. intros [= <-].
  exists [], []. by rewrite app_nil_r.
Qed.

(** C9: on a line (a string without a newline character, as
    [splitlines] produces them) the token that [extract_domain_from_line]
    returns contains neither [#] nor [!]: everything from the first of
    these characters onward is removed before a format is tried. *)
Theorem extracted_token_has_no_marker line token :
  LF ∉ line ->
  extract_domain_from_line line = Some token ->
  Forall (fun c => c <> "#"%char /\ c <> "!"%char) token.
Proof.
  intros Hlf Hex.
  destruct (extract_part_of_line line token Hlf Hex) as (a & b & E).
  assert (Forall (fun c => is_marker c = false) token) as Hno.
  { pose proof (strip_Forall _ _ (before_marker_no_marker (strip line))) as H.
    rewrite E in H. apply Forall_app in H as [_ H]. by apply Forall_app in H as [H _]. }
  eapply Forall_impl; [exact Hno|]. intros c Hc.
  unfold is_marker in Hc. apply orb_false_iff in Hc as [H1 H2].
  apply is_chr_false in H1, H2. split; congruence.
Qed.

Lemma extracted_token_has_no_marker_witness :
  (LF ∉ str "0.0.0.0 ads.example.com # served by !cdn")
  /\ extract_domain_from_line (str "0.0.0.0 ads.example.com # served by !cdn")
     = Some (str "ads.example.com")
  /\ Forall (fun c => c <> "#"%char /\ c <> "!"%char) (str "ads.example.com").
Proof.
  assert (LF ∉ str "0.0.0.0 ads.example.com # served by !cdn") as Hlf.
  { apply has_chr_false. by vm_compute. }
  split; [exact Hlf|]. split; [by vm_compute|].
  apply (extracted_token_has_no_marker
           (str "0.0.0.0 ads.example.com # served by !cdn")); [exact Hlf|].
  by vm_compute.
Defined.

(** On a newline-free subject, an anchored pattern matches all of it. *)
Lemma re_match_line r s :
  progressing r = true -> anchored r = true -> LF ∉ s ->
  is_Some (re_match r s) <-> exists g', Matches r s [] None g'.
Proof.
  intros Hp Ha Hlf. unfold re_match. split.
  - intros [x Hrun]. apply run_sound in Hrun as (u & v & g' & -> & Hm & _).
    exists g'. pose proof (anchored_eol _ _ _ _ _ Ha Hm) as He.
    apply at_eol_no_newline in He; [|set_solver]. subst v.
    by rewrite app_nil_r.
  - intros [g' Hm]. rewrite <- (app_nil_r s).
    by eapply run_complete.
Qed.

Lemma re_match_line_group r s x :
  anchored r = true -> LF ∉ s -> re_match r s = Some x -> Matches r s [] None x.
Proof.
  intros Ha Hlf Hrun. unfold re_match in Hrun.
  apply run_sound in Hrun as (u & v & g' & -> & Hm & [= <-]).
  pose proof (anchored_eol _ _ _ _ _ Ha Hm) as He.
  apply at_eol_no_newline in He; [|set_solver]. subst v.
  by rewrite app_nil_r.
Qed.

(** ** The shape of a valid domain (claim C5) *)

Lemma forallb_Forall {X} (f : X -> bool) l :
  forallb f l = true <-> Forall (fun x => f x = true) l.
Proof.
  induction l as [|x l IH]; simpl.
  - split; [constructor|done].
  - rewrite andb_true_iff, IH, Forall_cons. done.
Qed.

Lemma is_label_spec l :
  is_label l = true <->
    1 <= length l <= 63
    /\ Forall (fun c => is_alnum c || is_chr "-" c = true) l
    /\ (exists a t, l = a :: t /\ is_alnum a = true)
    /\ (exists t b, l = t ++ [b] /\ is_alnum b = true).
Proof.
  unfold is_label. rewrite !andb_true_iff, Nat.leb_le, Nat.leb_le, forallb_Forall.
  split.
  - intros ((((H1 & H2) & H3) & H4) & H5). repeat split; [done..| |].
    + destruct l as [|a t]; [done|]. eauto.
    + destruct (rev l) as [|b t] eqn:E; [done|].
      exists (rev t), b. split; [|done].
      apply (f_equal (@rev ascii)) in E. by rewrite rev_involutive in E.
  - intros ((H1 & H2) & H3 & (a & t & -> & Ha) & (t' & b & E & Hb)).
    repeat split; [done..|]. rewrite E, rev_unit. done.
Qed.

Lemma DOMAIN_PATTERN_halves : DOMAIN_PATTERN = Cat (plus LABEL_DOT) FINAL_LABEL.
Proof. reflexivity. Qed.

Lemma alnum_is_alnum_hyphen c : is_alnum c = true -> is_alnum c || is_chr "-" c = true.
Proof. intros ->. done. Qed.

(** A label is one alphanumeric character, or two of them around at most
    61 characters that are alphanumeric or hyphens. *)
Lemma is_label_cases l :
  is_label l = true <->
    (exists a, l = [a] /\ is_alnum a = true)
    \/ (exists a mid b, l = a :: mid ++ [b] /\ is_alnum a = true
          /\ is_alnum b = true /\ length mid <= 61
          /\ Forall (fun c => is_alnum c || is_chr "-" c = true) mid).
Proof.
  rewrite is_label_spec. split.
  - intros (Hlen & Hall & (a & t & -> & Ha) & (t' & b & E & Hb)).
    destruct t as [|c t]; [left; eauto|]. right.
    destruct (exists_last (l := c :: t)) as (mid & b' & Emid); [done|].
    rewrite Emid in *.
    assert (b' = b) as ->.
    { change (a :: mid ++ [b']) with ((a :: mid) ++ [b']) in E.
      by apply app_inj_tail in E as [_ ?]. }
    exists a, mid, b. repeat split; [done..| |].
    + simpl in Hlen. rewrite length_app in Hlen. simpl in Hlen. lia.
    + apply Forall_cons in Hall as [_ Hall]. by apply Forall_app in Hall as [? _].
  - intros [(a & -> & Ha)|(a & mid & b & -> & Ha & Hb & Hlen & Hall)].
    + repeat split; simpl; [lia..| | |].
      * constructor; [by apply alnum_is_alnum_hyphen|constructor].
      * eauto.
      * exists [], a. done.
    + repeat split.
      * simpl. lia.
      * simpl. rewrite length_app. simpl. lia.
      * constructor; [by apply alnum_is_alnum_hyphen|].
        apply Forall_app. split; [done|].
        constructor; [by apply alnum_is_alnum_hyphen|constructor].
      * eauto.
      * exists (a :: mid), b. done.
Qed.

Lemma label_dot_inv u v g g' :
  Matches LABEL_DOT u v g g' ->
  exists l, u = l ++ str "." /\ is_label l = true /\ g' = g.
Proof.
  intros (u1 & u2 & g1 & -> & H1 & H2)%Matches_Cat_inv.
  apply Matches_Cls_inv in H1 as (a & -> & Ha & ->).
  apply Matches_Cat_inv in H2 as (o & d & g2 & -> & Ho & Hd).
  apply Matches_chr_inv in Hd as [-> ->].
  apply Matches_Rep_inv in Ho as (n & _ & Hn & Hit).
  specialize (Hn 1 eq_refl).
  destruct n as [|[|n]]; [| |lia].
  - inv Hit. exists [a]. repeat split.
    apply is_label_cases. left. eauto.
  - inv Hit. match goal with H : Iter _ 0 _ _ _ _ |- _ => inv H end.
    match goal with H : Matches (Cat _ _) _ _ _ _ |- _ =>
      apply Matches_Cat_inv in H as (mid & bb & g3 & -> & Hmid & Hb) end.
    apply Matches_Rep_class_inv in Hmid as (_ & Hlen & Hall & ->).
    apply Matches_Cls_inv in Hb as (b & -> & Hb & ->).
    exists (a :: mid ++ [b]). repeat split.
    + by rewrite app_nil_r.
    + apply is_label_cases. right. exists a, mid, b.
      repeat split; [done..|by apply Hlen|done].
Qed.

Lemma label_dot_intro l v g :
  is_label l = true -> Matches LABEL_DOT (l ++ str ".") v g g.
Proof.
  intros [(a & -> & Ha)|(a & mid & b & -> & Ha & Hb & Hlen & Hall)]%is_label_cases.
  - apply (M_Cat _ _ [a] ([] ++ str ".") v g g g); [by constructor|].
    apply (M_Cat _ _ [] (str ".") v g g g); [|apply Matches_chr].
    apply (M_Rep _ _ _ _ 0); [lia|intros h [= <-]; lia|constructor].
  - change ((a :: mid ++ [b]) ++ str ".") with ([a] ++ (mid ++ [b]) ++ str ".").
    apply (M_Cat _ _ [a] ((mid ++ [b]) ++ str ".") v g g g); [by constructor|].
    apply (M_Cat _ _ (mid ++ [b]) (str ".") v g g g); [|apply Matches_chr].
    apply (M_Rep _ _ _ _ 1); [lia|intros h [= <-]; lia|].
    rewrite <- (app_nil_r (mid ++ [b])).
    apply (I_S _ 0 (mid ++ [b]) [] _ g g g); [|constructor].
    apply (M_Cat _ _ mid [b] _ g g g); [|by constructor].
    apply Matches_Rep_class; [lia|by intros h [= <-]|done].
Qed.

Lemma final_label_inv u v g g' :
  Matches FINAL_LABEL u v g g' ->
  is_label u = true /\ 2 <= length u /\ at_eol v = true /\ g' = g.
Proof.
  intros (u1 & u2 & g1 & -> & H1 & H2)%Matches_Cat_inv.
  apply Matches_Cls_inv in H1 as (a & -> & Ha & ->).
  apply Matches_Cat_inv in H2 as (mid & u3 & g2 & -> & Hmid & H3).
  apply Matches_Rep_class_inv in Hmid as (_ & Hlen & Hall & ->).
  apply Matches_Cat_inv in H3 as (bb & e & g3 & -> & Hb & He).
  apply Matches_Cls_inv in Hb as (b & -> & Hb & ->).
  apply Matches_Eol_inv in He as (-> & He & ->).
  repeat split; [|simpl; rewrite length_app; simpl; lia|done].
  apply is_label_cases. right. exists a, mid, b.
  repeat split; [done..|by apply Hlen|done].
Qed.

Lemma final_label_intro t v g :
  is_label t = true -> 2 <= length t -> at_eol v = true ->
  Matches FINAL_LABEL t v g g.
Proof.
  intros [(a & -> & Ha)|(a & mid & b & -> & Ha & Hb & Hlen & Hall)]%is_label_cases
    Hlen2 He; [simpl in Hlen2; lia|].
  change (a :: mid ++ [b]) with ([a] ++ mid ++ [b]).
  apply (M_Cat _ _ [a] (mid ++ [b]) v g g g); [by constructor|].
  apply (M_Cat _ _ mid [b] v g g g).
  { apply Matches_Rep_class; [lia|by intros h [= <-]|done]. }
  apply (M_Cat _ _ [b] [] v g g g); by constructor.
Qed.

Lemma join_snoc sep ls t :
  join sep (ls ++ [t]) = concat (map (fun l => l ++ sep) ls) ++ t.
Proof.
  induction ls as [|l ls IH]; [done|].
  destruct ls as [|l' ls'].
  - simpl. by rewrite app_nil_r, <- app_assoc.
  - change (join sep ((l :: l' :: ls') ++ [t]))
      with (l ++ sep ++ join sep ((l' :: ls') ++ [t])).
    rewrite IH. simpl. by rewrite <- !app_assoc.
Qed.

Lemma iter_label_dot_inv n u v g g' :
  Iter LABEL_DOT n u v g g' ->
  exists labels, length labels = n
    /\ Forall (fun l => is_label l = true) labels
    /\ u = concat (map (fun l => l ++ str ".") labels) /\ g' = g.
Proof.
  remember LABEL_DOT as r eqn:Er.
  induction 1 as [|r n u1 u2 v g g1 g2 Hm Hit IH]; subst r.
  { by exists []. }
  apply label_dot_inv in Hm as (l & -> & Hl & ->).
  destruct (IH eq_refl) as (labels & <- & Hall & -> & ->).
  exists (l :: labels). repeat split; by constructor.
Qed.

Lemma iter_label_dot_intro labels v g :
  Forall (fun l => is_label l = true) labels ->
  Iter LABEL_DOT (length labels)
    (concat (map (fun l => l ++ str ".") labels)) v g g.
Proof.
  induction 1 as [|l labels Hl _ IH]; [constructor|].
  simpl. apply (I_S _ _ (l ++ str ".") _ v g g g); [|done].
  by apply label_dot_intro.
Qed.

(** On a newline-free token, [DOMAIN_PATTERN] matches exactly the
    strings of that shape. *)
Lemma domain_pattern_shape s :
  LF ∉ s -> matches DOMAIN_PATTERN s = true <-> domain_shape s.
Proof.
  intros Hlf. unfold matches.
  assert (is_Some (re_match DOMAIN_PATTERN s) <-> domain_shape s) as <-.
  { rewrite (re_match_line DOMAIN_PATTERN s eq_refl eq_refl Hlf). split.
    - intros [g' Hm]. rewrite DOMAIN_PATTERN_halves in Hm.
      apply Matches_Cat_inv in Hm as (u1 & t & g1 & -> & H1 & H2).
      apply Matches_Rep_inv in H1 as (n & Hn & _ & Hit).
      apply iter_label_dot_inv in Hit as (labels & <- & Hall & -> & ->).
      apply final_label_inv in H2 as (Ht & Hlen & _ & _).
      exists labels, t. repeat split; [|done..|by rewrite join_snoc].
      intros ->. simpl in Hn. lia.
    - intros (labels & t & Hne & Hall & Ht & Hlen & ->).
      exists None. rewrite join_snoc, DOMAIN_PATTERN_halves.
      apply (M_Cat _ _ _ t [] None None None).
      + apply (M_Rep _ _ _ _ (length labels)); [|done|].
        * destruct labels; [done|simpl; lia].
        * by apply iter_label_dot_intro.
      + by apply final_label_intro. }
  destruct (re_match DOMAIN_PATTERN s); split; intros H; try done.
Qed.

Lemma is_valid_domain_unfold token :
  is_valid_domain token
  = if is_empty token || bool_decide (token = str "localhost")
       || endswith (str ".local") token
    then false
    else if 253 <? length token then false
    else matches DOMAIN_PATTERN (without_wildcard token).
Proof. reflexivity. Qed.

(** C5, as amended: [is_valid_domain] accepts exactly the (newline-free)
    tokens that are non-empty, are not [localhost], do not end in
    [.local], have at most 253 characters and, after an optional leading
    wildcard prefix is stripped, consist of TWO or more labels separated
    by dots, every label 1 to 63 characters long with alphanumeric first
    and last character and alphanumeric-or-hyphen interior, the final
    label at least 2 characters long. *)
Theorem valid_domain_shape token :
  LF ∉ token ->
  is_valid_domain token = true <->
    token <> [] /\ token <> str "localhost"
    /\ endswith (str ".local") token = false
    /\ length token <= 253
    /\ domain_shape (without_wildcard token).
Proof.
  intros Hlf.
  assert (LF ∉ without_wildcard token) as Hlf'.
  { unfold without_wildcard. destruct (startswith _ _); [|done].
    intros Hin. apply Hlf. by apply (subseteq_drop 2 token). }
  rewrite <- (domain_pattern_shape _ Hlf'), is_valid_domain_unfold.
  destruct (is_empty token) eqn:Hemp.
  { destruct token; [|done]. split; [done|]. by intros [? _]. }
  assert (token <> []) as Hne by (by intros ->).
  destruct (bool_decide (token = str "localhost")) eqn:Hloc.
  { apply bool_decide_eq_true in Hloc. split; [done|]. by intros (_ & ? & _). }
  apply bool_decide_eq_false in Hloc.
  destruct (endswith (str ".local") token) eqn:Hend.
  { split; [done|]. by intros (_ & _ & ? & _). }
  simpl orb. cbv iota.
  destruct (253 <? length token) eqn:Hlen.
  { apply Nat.ltb_lt in Hlen. split; [done|]. intros (_ & _ & _ & ? & _). lia. }
  apply Nat.ltb_ge in Hlen.
  split.
  - intros H. done.
  - by intros (_ & _ & _ & _ & H).
Qed.

Lemma valid_domain_shape_witness :
  (LF ∉ str "*.ads.example.com")
  /\ is_valid_domain (str "*.ads.example.com") = true
  /\ domain_shape (without_wildcard (str "*.ads.example.com")).
Proof.
  assert (LF ∉ str "*.ads.example.com") as Hlf.
  { apply has_chr_false. by vm_compute. }
  split; [exact Hlf|]. split; [by vm_compute|].
  apply (proj1 (valid_domain_shape (str "*.ads.example.com") Hlf)).
  by vm_compute.
Defined.

(** C5 as stated fails: a token whose final label is a single character
    is rejected, and so is a token of one label. *)
Lemma single_character_final_label_rejected :
  is_valid_domain (str "x.a") = false
  /\ is_label (str "x") = true /\ is_label (str "a") = true
  /\ str "x.a" = join (str ".") [str "x"; str "a"]
  /\ is_valid_domain (str "com") = false
  /\ is_valid_domain (str "x.ab") = true.
Proof. by vm_compute. Qed.

(** ** Characters and lines *)

Lemma ascii_forall (P : ascii -> bool) :
  forallb P all_ascii = true -> forall c, P c = true.
Proof.
  intros H c. rewrite forallb_forall in H. apply H.
  rewrite <- (ascii_nat_embedding c). apply in_map, in_seq.
  pose proof (nat_ascii_bounded c). lia.
Qed.

Lemma dom_chr_props c :
  dom_chr c = true ->
  is_space c = false /\ is_marker c = false /\ is_linebreak c = false
  /\ c <> LF /\ c <> "^"%char /\ c <> " "%char.
Proof.
  intros Hc.
  pose proof (ascii_forall
    (fun c => implb (dom_chr c)
       (negb (is_space c) && negb (is_marker c) && negb (is_linebreak c)
        && negb (is_chr LF c) && negb (is_chr "^" c) && negb (is_chr " " c)))
    eq_refl c) as H.
  cbv beta in H. rewrite Hc in H. cbn [implb] in H.
  rewrite !andb_true_iff, !negb_true_iff in H.
  destruct H as (((((H1 & H2) & H3) & H4) & H5) & H6).
  apply is_chr_false in H4, H5, H6.
  repeat split; try done; congruence.
Qed.

Lemma nobreak_no_newline l : nobreak l -> LF ∉ l.
Proof.
  intros H Hin. by apply (proj1 (Forall_forall _ _) H) in Hin.
Qed.

Lemma splitlines_nobreak s : Forall nobreak (splitlines s).
Proof.
  assert (forall n s, length s <= n -> Forall nobreak (splitlines s)) as H.
  { induction n as [|n IH]; intros [|c t] Hlen; simpl in Hlen; try lia;
      try (constructor; fail).
    cbn [splitlines]. destruct (is_linebreak c) eqn:Hc.
    - destruct t as [|d t']; [repeat constructor|].
      destruct (is_chr CR c && is_chr LF d).
      + constructor; [constructor|]. apply IH. simpl in Hlen. lia.
      + constructor; [constructor|]. apply IH. lia.
    - assert (Forall nobreak (splitlines t)) as Ht by (apply IH; lia).
      destruct (splitlines t) as [|l ls].
      + repeat constructor. done.
      + apply Forall_cons in Ht as [Hl Hls]. constructor; [|done].
        by constructor. }
  by apply (H (length s)).
Qed.

Lemma splitlines_line l :
  nobreak l -> splitlines l = match l with [] => [] | _ => [l] end.
Proof.
  induction 1 as [|c l Hc _ IH]; [done|].
  cbn [splitlines]. rewrite Hc, IH. by destruct l.
Qed.

Lemma splitlines_first_line l t :
  nobreak l -> splitlines (l ++ LF :: t) = l :: splitlines t.
Proof.
  induction 1 as [|c l Hc _ IH].
  - simpl app. cbn [splitlines].
    change (is_linebreak LF) with true. cbv iota.
    destruct t as [|d t']; [done|].
    change (is_chr CR LF) with false. done.
  - simpl app. cbn [splitlines]. by rewrite Hc, IH.
Qed.

(** Splitting what [join] glued gives the lines back, up to one empty
    line at the end. *)
Lemma splitlines_join ls :
  Forall nobreak ls ->
  exists ls', splitlines (join [LF] ls) = ls' /\ (ls = ls' \/ ls = ls' ++ [[]]).
Proof.
  induction 1 as [|l ls Hl Hls IH]; [exists []; split; auto|].
  destruct ls as [|l2 rest].
  - cbn [join]. rewrite splitlines_line by done.
    destruct l; [exists []; split; auto|]. eexists; split; [done|]. auto.
  - change (join [LF] (l :: l2 :: rest)) with (l ++ LF :: join [LF] (l2 :: rest)).
    rewrite splitlines_first_line by done.
    destruct IH as (ls' & -> & [E|E]).
    + eexists; split; [done|]. left. by rewrite E.
    + eexists; split; [done|]. right. by rewrite E.
Qed.

(** ** Valid domains and the lines they are written on *)

Lemma alphabet_domain_pattern c :
  alphabet DOMAIN_PATTERN c = true -> dom_chr c = true.
Proof.
  unfold dom_chr.
  cbv [DOMAIN_PATTERN plus opt between alnum alnum_hyphen chr alphabet
       str list_ascii_of_string].
  destruct (is_alnum c), (is_chr "-" c), (is_chr "." c); done.
Qed.

Lemma good_domain_chars d :
  good_domain d -> d <> [] /\ Forall (fun c => dom_chr c = true) d.
Proof.
  intros [Hv Hnb]. rewrite is_valid_domain_unfold in Hv.
  destruct (is_empty d) eqn:He; [done|].
  split; [by intros ->|].
  destruct (_ || _ || _); [done|]. destruct (253 <? length d); [done|].
  unfold matches in Hv.
  destruct (re_match DOMAIN_PATTERN (without_wildcard d)) as [x|] eqn:Hm; [|done].
  assert (Forall (fun c => dom_chr c = true) (without_wildcard d)) as Hw.
  { apply re_match_line_group in Hm; [|done|].
    - apply (proj1 Matches_alphabet) in Hm.
      eapply Forall_impl; [exact Hm|]. apply alphabet_domain_pattern.
    - unfold without_wildcard. destruct (startswith _ _).
      + intros Hin. apply (nobreak_no_newline d Hnb).
        by apply (subseteq_drop 2 d).
      + by apply nobreak_no_newline. }
  unfold without_wildcard in Hw.
  destruct (startswith (str "*.") d) eqn:Hs; [|done].
  destruct d as [|a [|b t]]; [done| |];
    cbn [startswith str list_ascii_of_string] in Hs;
    apply andb_true_iff in Hs as [Ha Hb']; [done|].
  apply andb_true_iff in Hb' as [Hb _].
  apply is_chr_true in Ha, Hb. subst a b.
  constructor; [done|]. constructor; [done|]. exact Hw.
Qed.

Lemma is_comment_head c t :
  is_comment (c :: t) = is_chr "#" c || is_chr "!" c.
Proof.
  unfold is_comment. cbn [startswith str list_ascii_of_string].
  by rewrite !andb_true_r.
Qed.

(** The last token of a line that ends in a space-free word. *)
Lemma last_word_unique a b s1 s2 t1 t2 :
  is_space s1 = true -> is_space s2 = true ->
  Forall (fun c => is_space c = false) t1 ->
  Forall (fun c => is_space c = false) t2 ->
  a ++ s1 :: t1 = b ++ s2 :: t2 -> t1 = t2.
Proof.
  intros H1 H2 Ht1 Ht2 E.
  apply (f_equal (@rev ascii)) in E. rewrite !rev_app_distr in E. simpl in E.
  rewrite <- !app_assoc in E. simpl in E.
  apply Forall_rev in Ht1, Ht2.
  enough (rev t1 = rev t2) as Hr.
  { apply (f_equal (@rev ascii)) in Hr. by rewrite !rev_involutive in Hr. }
  revert E Ht1 Ht2. generalize (rev t1) (rev t2) (rev a) (rev b).
  clear -H1 H2. intros p. induction p as [|c p IH]; intros q ra rb E Hp Hq.
  - destruct q as [|c q]; [done|]. simpl in E. injection E as <- _.
    apply Forall_cons in Hq as [Hc _]. congruence.
  - destruct q as [|c' q]; simpl in E.
    + injection E as -> _. apply Forall_cons in Hp as [Hc _]. congruence.
    + injection E as <- E. f_equal.
      apply Forall_cons in Hp as [_ Hp]. apply Forall_cons in Hq as [_ Hq].
      by apply (IH q ra rb).
Qed.

Lemma before_caret d g o :
  "^"%char ∉ d -> d ++ ["^"%char] = g ++ "^"%char :: o -> g = d.
Proof.
  revert g. induction d as [|x d IH]; intros g Hno E.
  - destruct g as [|y g]; [done|]. simpl in E. injection E as _ E.
    by destruct g.
  - apply not_elem_of_cons in Hno as [Hx Hno].
    destruct g as [|y g]; simpl in E.
    + injection E as E _. congruence.
    + injection E as <- E. f_equal. by apply IH.
Qed.

Lemma ip_pattern_inv u v g x :
  Matches IP_DOMAIN_PATTERN u v g x ->
  exists w0 d1 mid w1 tok,
    u = w0 ++ d1 ++ mid ++ w1 ++ tok
    /\ Forall (fun c => is_space c = true) w0
    /\ 1 <= length d1 /\ Forall (fun c => is_digit c = true) d1
    /\ 1 <= length w1 /\ Forall (fun c => is_space c = true) w1
    /\ Forall (fun c => is_space c = false) tok
    /\ x = Some tok.
Proof.
  intros H.
  apply Matches_Cat_inv in H as (w0 & r0 & g0 & -> & H0 & H).
  apply Matches_Rep_class_inv in H0 as (_ & _ & Hw0 & ->).
  apply Matches_Cat_inv in H as (d1 & r1 & g1 & -> & H1 & H).
  apply Matches_Rep_class_inv in H1 as (Hd1 & _ & Hd1' & ->).
  apply Matches_Cat_inv in H as (p1 & r2 & g2 & -> & _ & H).
  apply Matches_Cat_inv in H as (d2 & r3 & g3 & -> & _ & H).
  apply Matches_Cat_inv in H as (p2 & r4 & g4 & -> & _ & H).
  apply Matches_Cat_inv in H as (d3 & r5 & g5 & -> & _ & H).
  apply Matches_Cat_inv in H as (p3 & r6 & g6 & -> & _ & H).
  apply Matches_Cat_inv in H as (d4 & r7 & g7 & -> & _ & H).
  apply Matches_Cat_inv in H as (w1 & r8 & g8 & -> & H8 & H).
  apply Matches_Rep_class_inv in H8 as (Hw1 & _ & Hw1' & ->).
  apply Matches_Cat_inv in H as (tok & e & g9 & -> & H9 & He).
  apply Matches_Grp_inv in H9 as [-> [gt Ht]].
  apply Matches_Rep_class_inv in Ht as (_ & _ & Htok & _).
  apply Matches_Eol_inv in He as (-> & _ & ->).
  exists w0, d1, (p1 ++ d2 ++ p2 ++ d3 ++ p3 ++ d4), w1, tok.
  repeat split; try done.
  - by rewrite app_nil_r, <- !app_assoc.
  - eapply Forall_impl; [exact Htok|]. intros c Hc. by apply negb_true_iff.
Qed.

Lemma adblock_pattern_inv u v g x :
  Matches ADBLOCK_PATTERN u v g x ->
  exists tok o, u = "|"%char :: "|"%char :: tok ++ "^"%char :: o /\ x = Some tok.
Proof.
  intros H.
  apply Matches_Cat_inv in H as (b1 & r1 & g1 & -> & H1 & H).
  apply Matches_chr_inv in H1 as [-> ->].
  apply Matches_Cat_inv in H as (b2 & r2 & g2 & -> & H2 & H).
  apply Matches_chr_inv in H2 as [-> ->].
  apply Matches_Cat_inv in H as (tok & r3 & g3 & -> & H3 & H).
  apply Matches_Grp_inv in H3 as [-> _].
  apply Matches_Cat_inv in H as (c & r4 & g4 & -> & H4 & H).
  apply Matches_chr_inv in H4 as [-> ->].
  apply Matches_Cat_inv in H as (o & e & g5 & -> & Ho & He).
  apply Matches_Eol_inv in He as (-> & _ & ->).
  exists tok, o. split; [|].
  - simpl. by rewrite app_nil_r.
  - by apply (proj1 Matches_groupless) in Ho.
Qed.

Lemma dom_chr_Forall (P : ascii -> Prop) d :
  (forall c, dom_chr c = true -> P c) ->
  Forall (fun c => dom_chr c = true) d -> Forall P d.
Proof. intros HP Hd. eapply Forall_impl; [exact Hd|]. exact HP. Qed.

Lemma hosts_line_match d :
  d <> [] -> Forall (fun c => dom_chr c = true) d ->
  re_match IP_DOMAIN_PATTERN (hosts_line d) = Some (Some d).
Proof.
  intros Hne Hd.
  assert (Forall (fun c => is_space c = false) d) as Hsp.
  { apply (dom_chr_Forall _ d); [|done]. intros c Hc. by apply dom_chr_props. }
  assert (LF ∉ hosts_line d) as Hlf.
  { unfold hosts_line. intros Hin. apply elem_of_app in Hin as [Hin|Hin].
    - revert Hin. apply has_chr_false. by vm_compute.
    - apply (proj1 (Forall_forall _ _) Hd) in Hin.
      apply dom_chr_props in Hin. by destruct Hin as (_ & _ & _ & ? & _). }
  assert (Matches IP_DOMAIN_PATTERN (hosts_line d) [] None (Some d)) as Hm.
  { replace (hosts_line d)
      with ([] ++ str "0" ++ str "." ++ str "0" ++ str "." ++ str "0" ++ str "."
            ++ str "0" ++ str " " ++ d ++ [])
      by (unfold hosts_line; simpl; by rewrite app_nil_r).
    unfold IP_DOMAIN_PATTERN, star, plus, between, ws, digit, nonws.
    eapply M_Cat; [by apply Matches_Rep_class|].
    eapply M_Cat; [apply Matches_Rep_class; [simpl; lia|intros h [= <-]; simpl; lia|by repeat constructor]|].
    eapply M_Cat; [apply Matches_chr|].
    eapply M_Cat; [apply Matches_Rep_class; [simpl; lia|intros h [= <-]; simpl; lia|by repeat constructor]|].
    eapply M_Cat; [apply Matches_chr|].
    eapply M_Cat; [apply Matches_Rep_class; [simpl; lia|intros h [= <-]; simpl; lia|by repeat constructor]|].
    eapply M_Cat; [apply Matches_chr|].
    eapply M_Cat; [apply Matches_Rep_class; [simpl; lia|intros h [= <-]; simpl; lia|by repeat constructor]|].
    eapply M_Cat; [apply Matches_Rep_class; [simpl; lia|done|by repeat constructor]|].
    eapply M_Cat; [|by constructor].
    eapply M_Grp. apply Matches_Rep_class; [|done|].
    - destruct d; [done|simpl; lia].
    - eapply Forall_impl; [exact Hsp|]. intros c Hc. by apply negb_true_iff. }
  destruct (proj2 (re_match_line IP_DOMAIN_PATTERN _ eq_refl eq_refl Hlf))
    as [x Hx]; [eauto|].
  rewrite Hx. f_equal.
  apply re_match_line_group in Hx; [|done..].
  apply ip_pattern_inv in Hx
    as (w0 & d1 & mid & w1 & tok & E & _ & _ & _ & Hw1 & Hw1' & Htok & ->).
  f_equal.
  destruct (exists_last (l := w1)) as (w1' & s1 & ->).
  { intros ->. simpl in Hw1. lia. }
  apply Forall_app in Hw1' as [_ Hs1]. apply Forall_cons in Hs1 as [Hs1 _].
  apply (last_word_unique (w0 ++ d1 ++ mid ++ w1') (str "0.0.0.0") s1 " " tok d);
    [done|done|done|done|].
  rewrite <- !app_assoc in E. rewrite <- !app_assoc.
  etrans; [symmetry; exact E|]. done.
Qed.

Lemma adblock_line_no_ip d : re_match IP_DOMAIN_PATTERN (adblock_line d) = None.
Proof.
  destruct (re_match IP_DOMAIN_PATTERN (adblock_line d)) as [x|] eqn:Hx; [|done].
  unfold re_match in Hx.
  apply run_sound in Hx as (u & v & g' & E & Hm & _).
  apply ip_pattern_inv in Hm
    as (w0 & d1 & mid & w1 & tok & -> & Hw0 & Hd1 & Hd1' & _).
  unfold adblock_line in E. simpl in E.
  destruct w0 as [|c w0].
  - destruct d1 as [|c d1]; [simpl in Hd1; lia|].
    simpl in E. injection E as <- _.
    apply Forall_cons in Hd1' as [Hc _]. done.
  - simpl in E. injection E as <- _.
    apply Forall_cons in Hw0 as [Hc _]. done.
Qed.

Lemma adblock_line_match d :
  d <> [] -> Forall (fun c => dom_chr c = true) d ->
  re_match ADBLOCK_PATTERN (adblock_line d) = Some (Some d).
Proof.
  intros Hne Hd.
  assert ("^"%char ∉ d) as Hcaret.
  { intros Hin. apply (proj1 (Forall_forall _ _) Hd) in Hin.
    apply dom_chr_props in Hin. by destruct Hin as (_ & _ & _ & _ & ? & _). }
  assert (LF ∉ d) as Hlfd.
  { intros Hin. apply (proj1 (Forall_forall _ _) Hd) in Hin.
    apply dom_chr_props in Hin. by destruct Hin as (_ & _ & _ & ? & _). }
  assert (LF ∉ adblock_line d) as Hlf.
  { unfold adblock_line. simpl. intros Hin.
    apply elem_of_cons in Hin as [Hin|Hin]; [done|].
    apply elem_of_cons in Hin as [Hin|Hin]; [done|].
    apply elem_of_app in Hin as [Hin|Hin]; [done|].
    apply elem_of_cons in Hin as [Hin|Hin]; [done|].
    by apply not_elem_of_nil in Hin. }
  assert (Matches ADBLOCK_PATTERN (adblock_line d) [] None (Some d)) as Hm.
  { replace (adblock_line d)
      with (str "|" ++ str "|" ++ d ++ str "^" ++ [] ++ [])
      by (unfold adblock_line; done).
    unfold ADBLOCK_PATTERN, star, plus_lazy, opt, dot.
    eapply M_Cat; [apply Matches_chr|].
    eapply M_Cat; [apply Matches_chr|].
    eapply M_Cat.
    { eapply M_Grp. apply Matches_Rep_class; [|done|].
      - destruct d; [done|simpl; lia].
      - apply Forall_forall. intros c Hc.
        apply negb_true_iff, is_chr_false. by intros <-. }
    eapply M_Cat; [apply Matches_chr|].
    eapply M_Cat; [|by constructor].
    apply (M_Rep _ _ _ _ 0); [lia|intros h [= <-]; lia|constructor]. }
  destruct (proj2 (re_match_line ADBLOCK_PATTERN _ eq_refl eq_refl Hlf))
    as [x Hx]; [eauto|].
  rewrite Hx. f_equal.
  apply re_match_line_group in Hx; [|done..].
  apply adblock_pattern_inv in Hx as (tok & o & E & ->).
  f_equal. unfold adblock_line in E. simpl in E. injection E as E.
  by apply (before_caret d tok o).
Qed.

Lemma strip_between a mid z :
  is_space a = false -> is_space z = false ->
  strip (a :: mid ++ [z]) = a :: mid ++ [z].
Proof.
  intros Ha Hz. apply strip_fixed.
  - by intros c s' [= <- _].
  - intros s' c E. change (a :: mid ++ [z]) with ((a :: mid) ++ [z]) in E.
    by apply app_inj_tail in E as [_ <-].
Qed.

(** A line that needs no stripping and carries no comment. *)
Lemma extract_clean_line l :
  l <> [] -> strip l = l -> Forall (fun c => is_marker c = false) l -> LF ∉ l ->
  extract_domain_from_line l
  = match re_match IP_DOMAIN_PATTERN l with
    | Some m => m
    | None =>
        match re_match ADBLOCK_PATTERN l with
        | Some m => m
        | None =>
            if negb (has_chr " " l) && negb (has_chr "/" l)
               && negb (has_chr "?" l) && negb (has_chr "!" l)
               && negb (has_chr "#" l)
            then Some l else None
        end
    end.
Proof.
  intros Hne Hs Hm Hlf. unfold extract_domain_from_line.
  rewrite Hs, re_sub_inline_comment, before_marker_id, Hs by done.
  destruct l as [|c t]; [done|].
  apply Forall_cons in Hm as [Hc _]. unfold is_marker in Hc.
  rewrite is_comment_head, Hc. done.
Qed.

Lemma yields_clean_line l d :
  l <> [] -> strip l = l -> Forall (fun c => is_marker c = false) l -> LF ∉ l ->
  extract_domain_from_line l = Some d -> good_domain d ->
  yields l = Some d.
Proof.
  intros Hne Hs Hm Hlf Hex [Hv Hnb]. unfold yields. rewrite Hs, Hex, Hv.
  destruct l as [|c t]; [done|].
  apply Forall_cons in Hm as [Hc _]. unfold is_marker in Hc.
  rewrite is_comment_head, Hc. simpl.
  destruct d; [|done]. by rewrite is_valid_domain_unfold in Hv.
Qed.

Lemma yields_hosts_line d : good_domain d -> yields (hosts_line d) = Some d.
Proof.
  intros Hg. destruct (good_domain_chars d Hg) as [Hne Hd].
  destruct (exists_last (l := d)) as (d' & z & ->); [done|].
  assert (Forall (fun c => is_marker c = false) (hosts_line (d' ++ [z]))) as Hm.
  { unfold hosts_line. apply Forall_app. split.
    - by repeat constructor.
    - apply (dom_chr_Forall _ _ (fun c Hc => proj1 (proj2 (dom_chr_props c Hc))) Hd). }
  assert (LF ∉ hosts_line (d' ++ [z])) as Hlf.
  { unfold hosts_line. intros Hin. apply elem_of_app in Hin as [Hin|Hin].
    - revert Hin. apply has_chr_false. by vm_compute.
    - apply (proj1 (Forall_forall _ _) Hd) in Hin.
      apply dom_chr_props in Hin. by destruct Hin as (_ & _ & _ & ? & _). }
  assert (strip (hosts_line (d' ++ [z])) = hosts_line (d' ++ [z])) as Hs.
  { change (hosts_line (d' ++ [z]))
      with ("0"%char :: (str ".0.0.0 " ++ d') ++ [z]).
    apply strip_between; [done|].
    apply Forall_app in Hd as [_ Hz]. apply Forall_cons in Hz as [Hz _].
    by apply (dom_chr_props z). }
  apply yields_clean_line; [done|done|done|done| |done].
  rewrite extract_clean_line by done.
  by rewrite hosts_line_match.
Qed.

Lemma yields_adblock_line d : good_domain d -> yields (adblock_line d) = Some d.
Proof.
  intros Hg. destruct (good_domain_chars d Hg) as [Hne Hd].
  assert (Forall (fun c => is_marker c = false) (adblock_line d)) as Hm.
  { unfold adblock_line. apply Forall_app. split; [by repeat constructor|].
    apply Forall_app. split; [|by repeat constructor].
    apply (dom_chr_Forall _ _ (fun c Hc => proj1 (proj2 (dom_chr_props c Hc))) Hd). }
  assert (LF ∉ adblock_line d) as Hlf.
  { unfold adblock_line. intros Hin.
    apply elem_of_app in Hin as [Hin|Hin].
    { revert Hin. apply has_chr_false. by vm_compute. }
    apply elem_of_app in Hin as [Hin|Hin].
    - apply (proj1 (Forall_forall _ _) Hd) in Hin.
      apply dom_chr_props in Hin. by destruct Hin as (_ & _ & _ & ? & _).
    - revert Hin. apply has_chr_false. by vm_compute. }
  assert (strip (adblock_line d) = adblock_line d) as Hs.
  { unfold adblock_line.
    change (str "||" ++ d ++ str "^")
      with ("|"%char :: ("|"%char :: d) ++ ["^"%char]).
    by apply strip_between. }
  apply yields_clean_line; [done|done|done|done| |done].
  rewrite extract_clean_line by done.
  by rewrite adblock_line_no_ip, adblock_line_match.
Qed.

(** ** The invariant of the second pass on lines *)

Lemma strip_head c t :
  is_space c = false -> exists t', strip (c :: t) = c :: t'.
Proof.
  intros Hc. unfold strip. rewrite lstrip_id by done.
  unfold rstrip. simpl rev.
  destruct (lstrip_snoc (rev t) c Hc) as [p ->].
  rewrite rev_unit. eauto.
Qed.

Lemma marker_not_space c : is_marker c = true -> is_space c = false.
Proof.
  intros Hc.
  pose proof (ascii_forall (fun c => implb (is_marker c) (negb (is_space c)))
                eq_refl c) as H.
  cbv beta in H. rewrite Hc in H. by apply negb_true_iff.
Qed.

Lemma yields_comment c t : is_marker c = true -> yields (c :: t) = None.
Proof.
  intros Hc. unfold yields.
  destruct (strip_head c t (marker_not_space c Hc)) as [t' ->].
  unfold is_marker in Hc. by rewrite is_comment_head, Hc.
Qed.

Lemma yields_strip line : yields (strip line) = yields line.
Proof. unfold yields. by rewrite strip_strip. Qed.

Lemma yields_good line d :
  nobreak line -> yields line = Some d -> good_domain d.
Proof.
  intros Hnb. unfold yields.
  destruct (is_comment (strip line) || is_empty (strip line)); [done|].
  destruct (extract_domain_from_line (strip line)) as [d'|] eqn:Hex; [|done].
  destruct (negb (is_empty d') && is_valid_domain d') eqn:Hv; [|done].
  intros [= ->]. apply andb_true_iff in Hv as [_ Hv]. split; [done|].
  assert (nobreak (strip line)) as Hnb' by by apply strip_Forall.
  destruct (extract_part_of_line (strip line) d) as (a & b & E);
    [by apply nobreak_no_newline|done|].
  assert (nobreak (strip (before_marker (strip (strip line))))) as H.
  { unfold nobreak. by apply strip_Forall, before_marker_Forall, strip_Forall. }
  rewrite E in H. apply Forall_app in H as [_ H]. by apply Forall_app in H as [H _].
Qed.

Lemma dict_set_keys {V} (P : text -> Prop) k (v : V) d :
  P k -> Forall (fun entry => P entry.1) d ->
  Forall (fun entry => P entry.1) (dict_set k v d).
Proof.
  intros Hk. induction 1 as [|[k' v'] d Hk' Hd IH]; simpl.
  - constructor; [done|constructor].
  - destruct (decide (k' = k)); constructor; simpl in *; auto.
Qed.

Lemma dict_get_key {V} (P : text -> Prop) k (d : odict V) :
  Forall (fun entry => P entry.1) d -> is_Some (dict_get k d) -> P k.
Proof.
  induction 1 as [|[k' v'] d Hk' _ IH]; simpl; [by intros [? ?]|].
  destruct (decide (k' = k)) as [<-|]; auto.
Qed.

Lemma process_comment_hygienic pm pg st line :
  nobreak line -> is_comment line = true -> hygienic st ->
  hygienic (process_comment pm pg st line).
Proof.
  intros Hnb Hc (Hd & Hf & Hm & Hg).
  destruct line as [|c t]; [done|].
  rewrite is_comment_head in Hc.
  set (line' := if startswith (str "!") (c :: t)
                then str "#" ++ drop 1 (c :: t) else c :: t).
  assert (yields line' = None /\ nobreak line') as [Hy Hnb'].
  { unfold line'. destruct (startswith (str "!") (c :: t)).
    - split; [by apply yields_comment|].
      constructor; [done|]. by apply Forall_cons in Hnb as [_ ?].
    - split; [by apply yields_comment|done]. }
  unfold process_comment. fold line'.
  assert (Forall (fun m => yields m = None /\ nobreak m)
            (if pm && existsb (fun keyword => contains keyword (lower line'))
                        metadata_keywords
             then metadata st ++ [line'] else metadata st)) as Hm'.
  { destruct (pm && _); [|done]. apply Forall_app. split; [done|].
    by repeat constructor. }
  destruct (pg && is_group_label line');
    (split; [exact Hd|]; split; [exact Hf|]; split; [exact Hm'|]); [|exact Hg].
  simpl. apply dict_set_keys; [|done].
  unfold group_name.
  destruct (startswith (str "# [") line');
    apply strip_Forall; unfold slice_to_last; by apply Forall_drop, Forall_take.
Qed.

Lemma add_domain_hygienic pg pf st line d st' :
  nobreak line -> yields line = Some d -> hygienic st ->
  add_domain pg pf st (strip line) d = Ok st' -> hygienic st'.
Proof.
  intros Hnb Hy (Hd & Hf & Hm & Hg) Hadd.
  destruct (add_domain_fields _ _ _ _ _ _ Hadd) as (Ed & Ef & Em & _).
  split; [|split; [|split]].
  - intros d'. rewrite Ed. intros [->%elem_of_singleton|Hin]%elem_of_union; [|auto].
    by apply (yields_good line).
  - intros d' l H. rewrite Ef in H. destruct pf; [|by apply (Hf d' l)].
    apply lookup_insert_Some in H as [[<- <-]|[_ H]]; [|by apply (Hf d' l)].
    split; [by rewrite yields_strip|by apply strip_Forall].
  - by rewrite Em.
  - unfold add_domain in Hadd.
    destruct (if pg then open_group (current_group st) else None) as [g|].
    + destruct (dict_get g (groups st)) as [ms|] eqn:Hget; [|done].
      injection Hadd as <-. simpl. apply dict_set_keys; [|done].
      apply (dict_get_key nobreak g (groups st)); [done|by rewrite Hget].
    + by injection Hadd as <-.
Qed.

Lemma process_line_hygienic pm pg pf st line st' :
  nobreak line -> hygienic st ->
  process_line pm pg pf st line = Ok st' -> hygienic st'.
Proof.
  intros Hnb Hh. rewrite process_line_yields.
  destruct (yields line) as [d|] eqn:Hy.
  - by apply (add_domain_hygienic pg pf st line d).
  - destruct (is_comment (strip line)) eqn:Hc; intros [= <-]; [|done].
    apply process_comment_hygienic; [|done..]. by apply strip_Forall.
Qed.

Lemma process_line_domains pm pg pf st line st' :
  process_line pm pg pf st line = Ok st' ->
  domains st' = domains st ∪ domain_set [line].
Proof.
  rewrite process_line_yields. unfold domain_set. simpl.
  destruct (yields line) as [d|].
  - intros Hadd. destruct (add_domain_fields _ _ _ _ _ _ Hadd) as (-> & _).
    simpl. set_solver.
  - simpl. destruct (is_comment (strip line)); intros [= <-].
    + destruct (process_comment_fields pm pg st (strip line)) as [-> _]. set_solver.
    + set_solver.
Qed.

Lemma domain_set_app xs ys : domain_set (xs ++ ys) = domain_set xs ∪ domain_set ys.
Proof. unfold domain_set. rewrite omap_app. set_solver. Qed.

Lemma domain_set_cons x xs : domain_set (x :: xs) = domain_set [x] ∪ domain_set xs.
Proof. apply (domain_set_app [x] xs). Qed.

Lemma for_each_hygienic pm pg pf lines st st' :
  Forall nobreak lines -> hygienic st ->
  for_each (process_line pm pg pf) st lines = Ok st' ->
  hygienic st' /\ domains st' = domains st ∪ domain_set lines.
Proof.
  intros Hl. revert st. induction Hl as [|line lines Hnb _ IH]; intros st Hh; simpl.
  { intros [= <-]. split; [done|]. unfold domain_set. simpl.
    by rewrite (right_id_L ∅ (∪)). }
  destruct (process_line pm pg pf st line) as [s|] eqn:E; [|done]. simpl.
  intros Hrun. destruct (IH s) as [Hh' Hd]; [|done|].
  { by apply (process_line_hygienic pm pg pf st line). }
  split; [done|].
  rewrite Hd, (process_line_domains _ _ _ _ _ _ E), (domain_set_cons line lines).
  by rewrite (assoc_L (∪)).
Qed.

Lemma init_state_hygienic : hygienic init_state.
Proof.
  split; [|split; [|split]]; simpl.
  - intros d Hd. set_solver.
  - intros d l H. by rewrite lookup_empty in H.
  - constructor.
  - constructor.
Qed.

(** ** The serialized lines *)

Lemma nobreak_app a b : nobreak a -> nobreak b -> nobreak (a ++ b).
Proof. intros. apply Forall_app. done. Qed.

Lemma nobreak_uint u : nobreak (str (NilEmpty.string_of_uint u)).
Proof. induction u; simpl; constructor; done. Qed.

Lemma nobreak_str_of_nat n : nobreak (str_of_nat n).
Proof. apply nobreak_uint. Qed.

Lemma nobreak_zero_pad w n : nobreak (zero_pad w n).
Proof.
  apply nobreak_app; [|apply nobreak_str_of_nat].
  apply Forall_forall. intros c Hc. apply list_elem_of_In, repeat_spec in Hc.
  by subst c.
Qed.

Lemma nobreak_strftime t : nobreak (strftime t).
Proof.
  unfold strftime.
  repeat (apply nobreak_app; [first [apply nobreak_zero_pad|by repeat constructor]|]).
  apply nobreak_zero_pad.
Qed.

Lemma domain_set_none ls :
  Forall (fun l => yields l = None) ls -> domain_set ls = ∅.
Proof.
  induction 1 as [|l ls Hl _ IH]; [done|].
  rewrite domain_set_cons, IH. unfold domain_set. simpl. rewrite Hl. simpl.
  by rewrite (right_id_L ∅ (∪)).
Qed.

Lemma domain_set_render (f : text -> text) ds :
  Forall (fun d => yields (f d) = Some d) ds ->
  domain_set (map f ds) = list_to_set ds.
Proof.
  induction 1 as [|d ds Hd _ IH]; [done|].
  simpl map. rewrite domain_set_cons, IH. unfold domain_set at 1. simpl.
  rewrite Hd. simpl. by rewrite (right_id_L ∅ (∪)).
Qed.

Lemma domain_set_concat lss :
  domain_set (concat lss) = ⋃ (map domain_set lss).
Proof.
  induction lss as [|ls lss IH]; [done|].
  simpl. by rewrite domain_set_app, IH.
Qed.

Lemma list_to_set_sorted (ds : list text) :
  list_to_set (sorted ds) =@{gset text} list_to_set ds.
Proof. apply list_to_set_perm_L, merge_sort_Permutation. Qed.

Lemma nobreak_hosts_line d : good_domain d -> nobreak (hosts_line d).
Proof. intros [_ Hd]. apply nobreak_app; [by repeat constructor|done]. Qed.

Lemma nobreak_adblock_line d : good_domain d -> nobreak (adblock_line d).
Proof.
  intros [_ Hd]. apply nobreak_app; [by repeat constructor|].
  apply nobreak_app; [done|by repeat constructor].
Qed.

Section Rendering.
Variable st : pass_state.
Hypothesis Hst : hygienic st.

Lemma render_grouped_ok pf d :
    d ∈ domains st ->
    yields (render_grouped pf st d) = Some d /\ nobreak (render_grouped pf st d).
  Proof.
    intros Hd. destruct Hst as (Hgood & Hf & _). unfold render_grouped, remembered.
    destruct (if pf then domain_formats st !! d else None) as [l|] eqn:E.
    - destruct pf; [|done]. by apply Hf.
    - split; [apply yields_hosts_line|apply nobreak_hosts_line]; auto.
  Qed.

Lemma render_flat_ok pf adblock_style d :
    d ∈ domains st ->
    yields (render_flat pf adblock_style st d) = Some d
    /\ nobreak (render_flat pf adblock_style st d).
  Proof.
    intros Hd. destruct Hst as (Hgood & Hf & _). unfold render_flat, remembered.
    destruct (if pf then domain_formats st !! d else None) as [l|] eqn:E.
    - destruct pf; [|done]. by apply Hf.
    - destruct adblock_style.
      + split; [apply yields_adblock_line|apply nobreak_adblock_line]; auto.
      + split; [apply yields_hosts_line|apply nobreak_hosts_line]; auto.
  Qed.

Lemma valid_members_in ms : Forall (fun d => d ∈ domains st) (valid_members st ms).
  Proof.
    apply Forall_forall. intros d Hd. unfold valid_members in Hd.
    by apply list_elem_of_filter in Hd as [? _].
  Qed.

Lemma header_ok pm now :
    domain_set (header pm st now) = ∅ /\ Forall nobreak (header pm st now).
  Proof.
    destruct Hst as (_ & _ & Hm & _).
    assert (Forall (fun l => yields l = None /\ nobreak l) (header pm st now)) as H.
    { unfold header. apply Forall_app. split.
      - destruct (pm && _); [done|].
        constructor; [split; [done|by repeat constructor]|].
        constructor; [|constructor]. split; [by apply yields_comment|].
        apply nobreak_app; [by repeat constructor|apply nobreak_strftime].
      - constructor; [|by repeat constructor].
        split; [by apply yields_comment|].
        apply nobreak_app; [by repeat constructor|apply nobreak_str_of_nat]. }
    split.
    - apply domain_set_none. eapply Forall_impl; [exact H|]. by intros l [? _].
    - eapply Forall_impl; [exact H|]. by intros l [_ ?].
  Qed.

Lemma rendered_ok (f : text -> text) ds :
    (forall d, d ∈ domains st -> yields (f d) = Some d /\ nobreak (f d)) ->
    Forall (fun d => d ∈ domains st) ds ->
    domain_set (map f (sorted ds)) = list_to_set ds
    /\ Forall nobreak (map f (sorted ds)).
  Proof.
    intros Hf Hds. apply (Forall_sorted _ ds) in Hds. split.
    - rewrite domain_set_render, list_to_set_sorted; [done|].
      eapply Forall_impl; [exact Hds|]. intros d Hd. by apply Hf.
    - apply Forall_fmap. eapply Forall_impl; [exact Hds|]. intros d Hd. by apply Hf.
  Qed.

Lemma group_section_ok pf entry :
    nobreak entry.1 ->
    domain_set (group_section pf st entry) = list_to_set (valid_members st entry.2)
    /\ Forall nobreak (group_section pf st entry).
  Proof.
    intros Hname. unfold group_section.
    destruct (bool_decide (valid_members st entry.2 = [])) eqn:Hv.
    { apply bool_decide_eq_true in Hv. rewrite Hv. done. }
    destruct (rendered_ok (render_grouped pf st) (valid_members st entry.2))
      as [Hset Hnb]; [intros; by apply render_grouped_ok|apply valid_members_in|].
    split.
    - rewrite domain_set_cons, domain_set_app, Hset.
      rewrite (domain_set_none [_]), (domain_set_none [[]]).
      + set_solver.
      + by repeat constructor.
      + constructor; [by apply yields_comment|constructor].
    - constructor.
      + apply nobreak_app; [by repeat constructor|].
        apply nobreak_app; [done|by repeat constructor].
      + apply Forall_app. split; [done|by repeat constructor].
  Qed.

Lemma group_sections_ok pf :
    domain_set (concat (map (group_section pf st) (groups st))) = all_grouped st
    /\ Forall nobreak (concat (map (group_section pf st) (groups st))).
  Proof.
    destruct Hst as (_ & _ & _ & Hg). unfold all_grouped.
    rewrite domain_set_concat.
    induction Hg as [|entry es He _ IH]; [done|].
    destruct (group_section_ok pf entry He) as [Hset Hnb].
    destruct IH as [IHset IHnb]. simpl. split.
    - by rewrite Hset, IHset.
    - apply Forall_app. done.
  Qed.

Lemma all_grouped_subset : all_grouped st ⊆ domains st.
  Proof.
    unfold all_grouped. intros d Hd.
    apply elem_of_union_list in Hd as (X & HX & Hd).
    apply list_elem_of_fmap in HX as (entry & -> & _).
    apply elem_of_list_to_set in Hd.
    by apply (proj1 (Forall_forall _ _) (valid_members_in entry.2)).
  Qed.

Lemma ungrouped_section_ok pf :
    domain_set (ungrouped_section pf st) = domains st ∖ all_grouped st
    /\ Forall nobreak (ungrouped_section pf st).
  Proof.
    unfold ungrouped_section.
    destruct (bool_decide (domains st ∖ all_grouped st = ∅)) eqn:Hu.
    { apply bool_decide_eq_true in Hu. rewrite Hu. done. }
    destruct (rendered_ok (render_grouped pf st)
                (elements (domains st ∖ all_grouped st))) as [Hset Hnb].
    { intros; by apply render_grouped_ok. }
    { apply Forall_forall. intros d Hd. apply elem_of_elements in Hd.
      by apply elem_of_difference in Hd as [? _]. }
    split.
    - rewrite domain_set_cons, Hset, (domain_set_none [_]).
      + rewrite list_to_set_elements_L. by rewrite (left_id_L ∅ (∪)).
      + constructor; [by apply yields_comment|constructor].
    - constructor; [by repeat constructor|done].
  Qed.

Lemma body_lines_ok pg pf adblock_style :
    domain_set (body_lines pg pf adblock_style st) = domains st
    /\ Forall nobreak (body_lines pg pf adblock_style st).
  Proof.
    unfold body_lines. destruct (pg && _).
    - destruct (group_sections_ok pf) as [Hg Hgn].
      destruct (ungrouped_section_ok pf) as [Hu Hun].
      split; [|by apply Forall_app].
      rewrite domain_set_app, Hg, Hu.
      symmetry. apply union_difference_L, all_grouped_subset.
    - destruct (rendered_ok (render_flat pf adblock_style st)
                  (elements (domains st))) as [Hset Hnb].
      { intros; by apply render_flat_ok. }
      { apply Forall_forall. intros d Hd. by apply elem_of_elements in Hd. }
      split; [|done]. by rewrite Hset, list_to_set_elements_L.
  Qed.
End Rendering.

(** ** Idempotence of normalization (claim C2) *)

(** The second pass over lines always succeeds, and its domain set is
    the one the lines produce. *)
Lemma second_pass_domains pm pg pf lines :
  Forall nobreak lines ->
  exists st, second_pass pm pg pf lines = Ok st
    /\ hygienic st /\ domains st = domain_set lines.
Proof.
  intros Hl. destruct (second_pass_total pm pg pf lines) as (st & Hrun & _).
  exists st. split; [done|].
  destruct (for_each_hygienic pm pg pf lines init_state st Hl
              init_state_hygienic Hrun) as [Hh Hd].
  split; [done|]. rewrite Hd. simpl. by rewrite (left_id_L ∅ (∪)).
Qed.

(** The domain set of a run on text content. *)
Lemma optimize_body_text decode s pm pg pf now :
  exists text1 st adblock_style pf',
    optimize_body decode (PyStr s) pm pg pf now = Ok (text1, domains st)
    /\ hygienic st
    /\ domains st = domain_set (splitlines s)
    /\ text1 = join [LF] (header pm st now ++ body_lines pg pf' adblock_style st).
Proof.
  unfold optimize_body. cbn [bind].
  destruct (detect_format (splitlines s) pf) as [adblock_style pf'].
  destruct (second_pass_domains pm pg pf' (splitlines s) (splitlines_nobreak s))
    as (st & Hrun & Hh & Hd).
  rewrite Hrun. cbn [bind]. eexists _, st, adblock_style, pf'. done.
Qed.

(** The serialized text produces the domain set again. *)
Lemma serialized_domain_set st pm pg pf adblock_style now :
  hygienic st ->
  domain_set (splitlines (join [LF]
    (header pm st now ++ body_lines pg pf adblock_style st))) = domains st.
Proof.
  intros Hh.
  destruct (header_ok st Hh pm now) as [Hhs Hhn].
  destruct (body_lines_ok st Hh pg pf adblock_style) as [Hbs Hbn].
  set (ls := header pm st now ++ body_lines pg pf adblock_style st).
  assert (domain_set ls = domains st) as Hls.
  { unfold ls. rewrite domain_set_app, Hhs, Hbs. by rewrite (left_id_L ∅ (∪)). }
  destruct (splitlines_join ls) as (ls' & -> & [E|E]).
  { by apply Forall_app. }
  - by rewrite <- E.
  - rewrite <- Hls, E, domain_set_app, (domain_set_none [[]]).
    + by rewrite (right_id_L ∅ (∪)).
    + by repeat constructor.
Qed.

(** C2: when [optimize_blocklist] returns a text and a domain set
    without taking the error path, running it again on that text with the
    same flags does not take the error path either and returns the same
    domain set. *)
Theorem normalization_idempotent decode content pm pg pf now text1 set1 :
  optimize_body decode content pm pg pf now = Ok (text1, set1) ->
  forall now',
    (exists text2,
       optimize_body decode (PyStr text1) pm pg pf now' = Ok (text2, set1))
    /\ (optimize_blocklist decode (PyStr text1) pm pg pf now').2 = set1.
Proof.
  intros Hrun now'.
  assert (exists s, optimize_body decode (PyStr s) pm pg pf now = Ok (text1, set1))
    as [s Hs].
  { destruct content as [b|s|]; [by exists (decode b)|by exists s|done]. }
  clear Hrun.
  destruct (optimize_body_text decode s pm pg pf now)
    as (t1 & st & a & pf' & Hrun1 & Hh & _ & Ht1).
  rewrite Hrun1 in Hs. injection Hs as <- <-.
  destruct (optimize_body_text decode t1 pm pg pf now')
    as (t2 & st2 & a2 & pf2 & Hrun2 & _ & Hd2 & _).
  assert (domains st2 = domains st) as Hsame.
  { rewrite Hd2, Ht1. by apply serialized_domain_set. }
  rewrite Hsame in Hrun2. split; [by exists t2|].
  unfold optimize_blocklist. by rewrite Hrun2.
Qed.

Lemma normalization_idempotent_witness :
  exists text1 set1,
    optimize_body sample_decode (PyStr sample_list) true true false sample_now
    = Ok (text1, set1)
    /\ (optimize_blocklist sample_decode (PyStr text1) true true false sample_now).2
       = set1.
Proof.
  pose (r := optimize_body sample_decode (PyStr sample_list) true true false sample_now).
  assert (optimize_body sample_decode (PyStr sample_list) true true false sample_now
          = r) as Hr by reflexivity.
  vm_compute in r.
  match eval unfold r in r with
  | Ok (?t, ?d) => exists t, d; split; [exact Hr|];
      apply (normalization_idempotent sample_decode (PyStr sample_list)
               true true false sample_now t d Hr sample_now)
  end.
Defined.

(** The hypothesis of C9 is needed: [extract_domain_from_line] is meant
    for single lines, and on a string with a newline inside, a marker in
    front of the newline is not removed. *)
Remark marker_kept_before_newline :
  extract_domain_from_line (str "0.0.0.0 a#b" ++ [LF] ++ str " #c")
  = Some (str "a#b").
Proof. by vm_compute. Qed.

(** * Further properties of the normalizer *)

(** ** The returned domain set *)

Lemma extract_strip line :
  extract_domain_from_line (strip line) = extract_domain_from_line line.
Proof. unfold extract_domain_from_line. by rewrite strip_strip. Qed.

Lemma is_valid_domain_nonempty d : is_valid_domain d = true -> is_empty d = false.
Proof. rewrite is_valid_domain_unfold. by destruct (is_empty d). Qed.

(** A line contributes a domain exactly when the extractor returns it
    and the validator accepts it. *)
Lemma yields_extract line d :
  yields line = Some d
  <-> extract_domain_from_line line = Some d /\ is_valid_domain d = true.
Proof.
  unfold yields. rewrite <- (extract_strip line).
  destruct (is_comment (strip line) || is_empty (strip line)) eqn:Hskip.
  - split; [done|]. intros [Hex _]. unfold extract_domain_from_line in Hex.
    rewrite strip_strip, orb_comm, Hskip in Hex. done.
  - destruct (extract_domain_from_line (strip line)) as [d'|]; [|by split; [|intros []]].
    destruct (is_valid_domain d') eqn:Hv.
    + rewrite (is_valid_domain_nonempty d' Hv). simpl. split.
      * by intros [= <-].
      * by intros [[= <-] _].
    + rewrite andb_false_r. split; [done|]. intros [[= <-] ?]. congruence.
Qed.

Lemma elem_of_domain_set d lines :
  d ∈ domain_set lines <-> exists line, line ∈ lines /\ yields line = Some d.
Proof.
  unfold domain_set. rewrite elem_of_list_to_set, list_elem_of_omap. done.
Qed.

(** X1: the domain set that [optimize_blocklist] returns for a text holds
    exactly the tokens that [extract_domain_from_line] returns for some line
    of the text and that [is_valid_domain] accepts; the three flags and the
    clock have no part in it. *)
Theorem returned_set_is_extracted_valid_tokens decode s pm pg pf now d :
  d ∈ (optimize_blocklist decode (PyStr s) pm pg pf now).2
  <-> exists line, line ∈ splitlines s
        /\ extract_domain_from_line line = Some d /\ is_valid_domain d = true.
Proof.
  destruct (optimize_body_text decode s pm pg pf now)
    as (t & st & a & pf' & Hrun & _ & Hd & _).
  unfold optimize_blocklist. rewrite Hrun. cbn [try_except snd].
  rewrite Hd, elem_of_domain_set. split.
  - intros (line & Hin & Hy). exists line. by rewrite <- yields_extract.
  - intros (line & Hin & Hex). exists line. by rewrite yields_extract.
Qed.

Lemma splitlines_char c s :
  is_linebreak c = false ->
  splitlines (c :: s)
  = match splitlines s with [] => [[c]] | l :: ls => (c :: l) :: ls end.
Proof. intros Hc. cbn [splitlines]. by rewrite Hc. Qed.

Lemma splitlines_break c s :
  is_linebreak c = true ->
  splitlines (c :: s)
  = match s with
    | d :: s'' =>
        if is_chr CR c && is_chr LF d then [] :: splitlines s''
        else [] :: splitlines s
    | [] => [[]]
    end.
Proof. intros Hc. destruct s; cbn [splitlines]; by rewrite Hc. Qed.

Lemma splitlines_newline b : splitlines (LF :: b) = [] :: splitlines b.
Proof. apply (splitlines_first_line [] b). constructor. Qed.

(** The lines of two texts glued by a newline: those of the first, an
    empty line if the first ends at a line boundary, those of the second. *)
Lemma splitlines_glued a b :
  exists la, la <> []
    /\ splitlines (a ++ LF :: b) = la ++ splitlines b
    /\ (la = splitlines a \/ la = splitlines a ++ [[]]).
Proof.
  assert (forall n a, length a <= n ->
    exists la, la <> []
      /\ splitlines (a ++ LF :: b) = la ++ splitlines b
      /\ (la = splitlines a \/ la = splitlines a ++ [[]])) as H.
  { induction n as [|n IH]; intros [|c a'] Hlen; simpl in Hlen; try lia.
    - exists [[]]. split; [done|]. split; [|by right].
      apply (splitlines_newline b).
    - exists [[]]. split; [done|]. split; [|by right].
      apply (splitlines_newline b).
    - destruct (is_linebreak c) eqn:Hc.
      + destruct a' as [|d a''].
        * change ([c] ++ LF :: b) with (c :: LF :: b).
          rewrite (splitlines_break c (LF :: b) Hc).
          destruct (is_chr CR c && is_chr LF LF).
          -- exists [[]]. split; [done|]. split; [done|].
             left. by rewrite (splitlines_break c [] Hc).
          -- exists [[]; []]. split; [done|].
             rewrite (splitlines_break c [] Hc). split.
             2:{ by right. }
             by rewrite (splitlines_newline b).
        * change ((c :: d :: a'') ++ LF :: b) with (c :: d :: a'' ++ LF :: b).
          rewrite (splitlines_break c (d :: a'' ++ LF :: b) Hc).
          rewrite (splitlines_break c (d :: a'') Hc).
          destruct (is_chr CR c && is_chr LF d).
          -- destruct (IH a'') as (la & Hne & E & Hla); [simpl in Hlen; lia|].
             exists ([] :: la). split; [done|]. rewrite E. split; [done|].
             destruct Hla as [->| ->]; [by left|by right].
          -- destruct (IH (d :: a'')) as (la & Hne & E & Hla); [simpl in *; lia|].
             exists ([] :: la). split; [done|].
             change (d :: a'' ++ LF :: b) with ((d :: a'') ++ LF :: b).
             rewrite E. split; [done|].
             destruct Hla as [->| ->]; [by left|by right].
      + destruct (IH a') as (la & Hne & E & Hla); [lia|].
        change ((c :: a') ++ LF :: b) with (c :: a' ++ LF :: b).
        rewrite !splitlines_char, E by done.
        destruct la as [|l ls]; [done|].
        change ((l :: ls) ++ splitlines b) with (l :: ls ++ splitlines b).
        exists ((c :: l) :: ls). split; [done|]. split; [done|].
        destruct Hla as [Hla|Hla].
        * left. by rewrite <- Hla.
        * destruct (splitlines a') as [|l' ls'].
          -- left. by injection Hla as -> ->.
          -- right. by injection Hla as -> ->. }
  by apply (H (length a)).
Qed.

Lemma domain_set_blank_end ls : domain_set (ls ++ [[]]) = domain_set ls.
Proof.
  rewrite domain_set_app, (domain_set_none [[]]) by by repeat constructor.
  by rewrite (right_id_L ∅ (∪)).
Qed.

Lemma optimize_blocklist_text decode s pm pg pf now :
  (optimize_blocklist decode (PyStr s) pm pg pf now).2 = domain_set (splitlines s).
Proof.
  destruct (optimize_body_text decode s pm pg pf now)
    as (t & st & a & pf' & Hrun & _ & Hd & _).
  unfold optimize_blocklist. by rewrite Hrun.
Qed.

(** X2: normalizing two texts glued by a newline gives the union of the
    domain sets of the two texts, whatever flags each run uses. *)
Theorem glued_texts_give_the_union decode a b pm pg pf now
    pm1 pg1 pf1 now1 pm2 pg2 pf2 now2 :
  (optimize_blocklist decode (PyStr (a ++ LF :: b)) pm pg pf now).2
  = (optimize_blocklist decode (PyStr a) pm1 pg1 pf1 now1).2
    ∪ (optimize_blocklist decode (PyStr b) pm2 pg2 pf2 now2).2.
Proof.
  rewrite !optimize_blocklist_text.
  destruct (splitlines_glued a b) as (la & _ & -> & [->| ->]).
  - apply domain_set_app.
  - by rewrite domain_set_app, domain_set_blank_end.
Qed.

(** ** The wildcard prefix *)

Lemma matches_domain_head d :
  matches DOMAIN_PATTERN d = true ->
  exists c t, d = c :: t /\ is_alnum c = true /\ "."%char ∈ t.
Proof.
  unfold matches, re_match.
  destruct (run DOMAIN_PATTERN d None (fun _ g => Some g)) eqn:Hrun; [|done].
  intros _. apply run_sound in Hrun as (u & v & g' & -> & Hm & _).
  rewrite DOMAIN_PATTERN_halves in Hm.
  apply Matches_Cat_inv in Hm as (u1 & t & g1 & -> & H1 & _).
  apply Matches_Rep_inv in H1 as (n & Hn & _ & Hit).
  apply iter_label_dot_inv in Hit as (labels & <- & Hall & -> & _).
  destruct labels as [|l ls]; [simpl in Hn; lia|].
  apply Forall_cons in Hall as [Hl _].
  apply is_label_spec in Hl as (_ & _ & (a & t' & -> & Ha) & _).
  exists a, (t' ++ str "." ++ concat (map (fun l => l ++ str ".") ls) ++ t ++ v).
  split; [|split; [done|]].
  - simpl. by rewrite <- !app_assoc.
  - rewrite elem_of_app. right. simpl. left.
Qed.

Lemma startswith_after_dot q d a :
  "."%char ∈ d -> "."%char ∉ q ->
  startswith (q ++ ["."%char]) (d ++ a) = startswith (q ++ ["."%char]) d.
Proof.
  revert d. induction q as [|y q IH]; intros [|x d] Hd Hq;
    try by apply elem_of_nil in Hd.
  - simpl. by rewrite !andb_true_r.
  - change (startswith ((y :: q) ++ ["."%char]) ((x :: d) ++ a))
      with (is_chr y x && startswith (q ++ ["."%char]) (d ++ a)).
    change (startswith ((y :: q) ++ ["."%char]) (x :: d))
      with (is_chr y x && startswith (q ++ ["."%char]) d).
    destruct (is_chr y x) eqn:Hyx; [|done]. apply is_chr_true in Hyx as <-.
    simpl. apply IH.
    + apply elem_of_cons in Hd as [Heq|Hd]; [|done]. exfalso. apply Hq.
      rewrite Heq. left.
    + intros H. apply Hq. by right.
Qed.

Lemma endswith_after_dot q a d :
  "."%char ∈ d -> "."%char ∉ q ->
  endswith ("."%char :: q) (a ++ d) = endswith ("."%char :: q) d.
Proof.
  intros Hd Hq. unfold endswith. rewrite rev_app_distr.
  change (rev ("."%char :: q)) with (rev q ++ ["."%char]).
  apply startswith_after_dot.
  - by apply list_elem_of_In, in_rev, list_elem_of_In in Hd.
  - intros H. apply Hq. apply list_elem_of_In, in_rev, list_elem_of_In. done.
Qed.

Lemma alnum_not_star c : is_alnum c = true -> is_chr "*" c = false.
Proof.
  intros Hc.
  pose proof (ascii_forall (fun c => negb (is_alnum c) || negb (is_chr "*" c))
                eq_refl c) as H.
  cbv beta in H. rewrite Hc in H. simpl in H. by apply negb_true_iff in H.
Qed.

(** X3: [is_valid_domain] accepts a token with a wildcard prefix exactly
    when it accepts the rest, the rest has no wildcard prefix of its own,
    and the rest has at most 251 characters: the prefix is removed once, and
    the limit of 253 counts it. *)
Theorem wildcard_prefix_accepted_once d :
  is_valid_domain (str "*." ++ d)
  = is_valid_domain d && negb (startswith (str "*.") d) && (length d <=? 251).
Proof.
  assert (is_valid_domain (str "*." ++ d)
          = if endswith (str ".local") (str "*." ++ d) then false
            else if 253 <? S (S (length d)) then false
            else matches DOMAIN_PATTERN d) as -> by reflexivity.
  destruct (matches DOMAIN_PATTERN d) eqn:Hm.
  - destruct (matches_domain_head d Hm) as (c & t & -> & Hc & Hdot).
    assert (startswith (str "*.") (c :: t) = false) as Hw.
    { change (startswith (str "*.") (c :: t))
        with (is_chr "*" c && startswith (str ".") t).
      by rewrite (alnum_not_star c Hc). }
    rewrite Hw, is_valid_domain_unfold. unfold without_wildcard. rewrite Hw, Hm.
    assert (endswith (str ".local") (str "*." ++ c :: t)
            = endswith (str ".local") (c :: t)) as ->.
    { apply (endswith_after_dot (str "local") (str "*.") (c :: t)); [by right|].
      intros H. by repeat (apply elem_of_cons in H as [H|H]; [done|]);
        apply elem_of_nil in H. }
    assert (bool_decide (c :: t = str "localhost") = false) as ->.
    { apply bool_decide_eq_false. intros [= -> ->].
      by repeat (apply elem_of_cons in Hdot as [Hdot|Hdot]; [done|]);
        apply elem_of_nil in Hdot. }
    cbn [is_empty orb negb andb].
    destruct (endswith (str ".local") (c :: t)); [done|].
    destruct (Nat.ltb_spec 253 (S (S (length (c :: t)))));
      destruct (Nat.ltb_spec 253 (length (c :: t)));
      destruct (Nat.leb_spec (length (c :: t)) 251); try done; lia.
  - assert (is_valid_domain d && negb (startswith (str "*.") d) = false) as ->.
    { destruct (startswith (str "*.") d) eqn:Hw; [by rewrite andb_false_r|].
      rewrite andb_true_r, is_valid_domain_unfold. unfold without_wildcard.
      rewrite Hw, Hm. by repeat case_match. }
    by repeat case_match.
Qed.

(** ** The three notations of a domain *)

Lemma dom_chr_plain c :
  dom_chr c = true ->
  is_chr " " c = false /\ is_chr "/" c = false /\ is_chr "?" c = false
  /\ is_chr "!" c = false /\ is_chr "#" c = false /\ is_chr "|" c = false.
Proof.
  intros Hc.
  pose proof (ascii_forall
    (fun c => negb (dom_chr c)
              || (negb (is_chr " " c) && negb (is_chr "/" c) && negb (is_chr "?" c)
                  && negb (is_chr "!" c) && negb (is_chr "#" c)
                  && negb (is_chr "|" c))) eq_refl c) as H.
  cbv beta in H. rewrite Hc in H. cbn [negb orb] in H.
  repeat (apply andb_true_iff in H as [H ?]).
  repeat split; by apply negb_true_iff.
Qed.

Lemma has_chr_Forall a d :
  Forall (fun c => is_chr a c = false) d -> has_chr a d = false.
Proof.
  induction 1 as [|c d Hc _ IH]; [done|].
  unfold has_chr. cbn [existsb]. by rewrite Hc.
Qed.

Lemma plain_no_ip d :
  Forall (fun c => dom_chr c = true) d -> re_match IP_DOMAIN_PATTERN d = None.
Proof.
  intros Hd. destruct (re_match IP_DOMAIN_PATTERN d) as [x|] eqn:Hrun; [|done].
  exfalso. unfold re_match in Hrun.
  apply run_sound in Hrun as (u & v & g' & -> & Hm & _).
  apply ip_pattern_inv in Hm as (w0 & d1 & mid & w1 & tok & -> & _ & _ & _ & Hlen & Hw1 & _).
  destruct w1 as [|c w1]; [simpl in Hlen; lia|].
  apply Forall_cons in Hw1 as [Hc _].
  assert (c ∈ (w0 ++ d1 ++ mid ++ (c :: w1) ++ tok) ++ v) as Hin.
  { rewrite !elem_of_app. left. right. right. right. left. left. }
  apply (proj1 (Forall_forall _ _) Hd), dom_chr_props in Hin.
  destruct Hin as [Hin _]. congruence.
Qed.

Lemma plain_no_adblock d :
  Forall (fun c => dom_chr c = true) d -> re_match ADBLOCK_PATTERN d = None.
Proof.
  intros Hd. destruct (re_match ADBLOCK_PATTERN d) as [x|] eqn:Hrun; [|done].
  exfalso. unfold re_match in Hrun.
  apply run_sound in Hrun as (u & v & g' & -> & Hm & _).
  apply adblock_pattern_inv in Hm as (tok & o & -> & _).
  apply Forall_app in Hd as [Hd _]. apply Forall_cons in Hd as [Hc _].
  apply dom_chr_plain in Hc. by destruct Hc as (_ & _ & _ & _ & _ & Hc).
Qed.

Lemma strip_plain d : Forall (fun c => dom_chr c = true) d -> strip d = d.
Proof.
  intros Hd. apply strip_fixed.
  - intros c s' ->. apply Forall_cons in Hd as [Hc _]. by apply dom_chr_props.
  - intros s' c ->. apply Forall_app in Hd as [_ Hc].
    apply Forall_cons in Hc as [Hc _]. by apply dom_chr_props.
Qed.

Lemma yields_plain d : good_domain d -> yields d = Some d.
Proof.
  intros Hg. destruct (good_domain_chars d Hg) as [Hne Hd].
  assert (Forall (fun c => is_marker c = false) d) as Hm.
  { apply (dom_chr_Forall _ _ (fun c Hc => proj1 (proj2 (dom_chr_props c Hc))) Hd). }
  assert (LF ∉ d) as Hlf by (apply nobreak_no_newline, Hg).
  pose proof (strip_plain d Hd) as Hs.
  apply yields_clean_line; [done..| |done].
  rewrite extract_clean_line, plain_no_ip, plain_no_adblock by done.
  rewrite !has_chr_Forall; [done|..];
    apply (dom_chr_Forall _ _ (fun c Hc => dom_chr_plain c Hc)) in Hd;
    eapply Forall_impl; [exact Hd| |exact Hd| |exact Hd| |exact Hd| |exact Hd|];
    cbv beta; tauto.
Qed.

(** X4: a domain that [is_valid_domain] accepts is read back by
    [extract_domain_from_line] from each of its three notations, the hosts
    line, the AdBlock line and the bare domain, whatever white space
    surrounds the line. *)
Theorem three_notations_read_back d line :
  good_domain d ->
  strip line = hosts_line d \/ strip line = adblock_line d \/ strip line = d ->
  extract_domain_from_line line = Some d.
Proof.
  intros Hg Hline. rewrite <- extract_strip.
  assert (yields (strip line) = Some d) as Hy.
  { destruct Hline as [->|[->| ->]];
      [by apply yields_hosts_line|by apply yields_adblock_line|by apply yields_plain]. }
  by apply yields_extract in Hy as [Hy _].
Qed.

Lemma three_notations_read_back_witness :
  good_domain (str "ads.example.com")
  /\ extract_domain_from_line (str "  ||ads.example.com^ ") = Some (str "ads.example.com").
Proof.
  assert (good_domain (str "ads.example.com")) as Hg.
  { split; [by vm_compute|by repeat constructor]. }
  split; [exact Hg|].
  apply (three_notations_read_back (str "ads.example.com")
           (str "  ||ads.example.com^ ") Hg).
  right. left. by vm_compute.
Defined.

(** ** The order of the serialized domains *)

Lemma text_le_total : Total text_le.
Proof.
  intros a. unfold text_le. induction a as [|x a IH]; intros [|y b]; simpl; auto.
  destruct (N.ltb_spec (code x) (code y)); [auto|].
  destruct (N.ltb_spec (code y) (code x)); [auto|].
  apply IH.
Qed.

Lemma text_le_trans : Transitive text_le.
Proof.
  intros a. unfold text_le.
  induction a as [|x a IH]; intros [|y b] [|z c]; simpl; try done.
  destruct (N.ltb_spec (code x) (code y)), (N.ltb_spec (code y) (code z)),
    (N.ltb_spec (code x) (code z)), (N.ltb_spec (code y) (code x)),
    (N.ltb_spec (code z) (code y)), (N.ltb_spec (code z) (code x));
    try done; try lia.
  apply IH.
Qed.

Lemma sorted_StronglySorted ds : StronglySorted text_le (sorted ds).
Proof.
  unfold sorted.
  apply (@StronglySorted_merge_sort _ text_le _ text_le_trans text_le_total).
Qed.

Lemma sorted_elements (X : gset text) :
  let ds := sorted (elements X) in
  NoDup ds /\ StronglySorted text_le ds /\ list_to_set ds = X
  /\ length ds = size X /\ Forall (fun d => d ∈ X) ds.
Proof.
  cbv zeta. assert (sorted (elements X) ≡ₚ elements X) as Hp
    by apply merge_sort_Permutation.
  split; [|split; [|split; [|split]]].
  - rewrite Hp. apply NoDup_elements.
  - apply sorted_StronglySorted.
  - by rewrite list_to_set_sorted, list_to_set_elements_L.
  - by rewrite Hp.
  - apply Forall_sorted, Forall_forall. intros d. by rewrite elem_of_elements.
Qed.

(** X5: without grouping, the text that [optimize_blocklist] returns is
    a header that yields no domain, the line of the count, an empty line,
    and one line per domain of the returned set: the domains are listed in
    ascending order without repetition, each on a line that yields it, and
    the count is their number. *)
Theorem flat_output_lists_each_domain_once decode s pm pf now :
  exists hdr ds body,
    optimize_blocklist decode (PyStr s) pm false pf now
    = (join [LF]
         (hdr ++ [str "# Total domains: " ++ str_of_nat (length ds); []] ++ body),
       list_to_set ds)
    /\ Forall (fun line => yields line = None) hdr
    /\ NoDup ds /\ StronglySorted text_le ds
    /\ Forall2 (fun line d => yields line = Some d) body ds.
Proof.
  destruct (optimize_body_text decode s pm false pf now)
    as (t & st & a & pf' & Hrun & Hh & _ & ->).
  unfold optimize_blocklist. rewrite Hrun. cbn [try_except].
  destruct (sorted_elements (domains st)) as (Hnd & Hss & Hset & Hlen & Hin).
  exists (if pm && negb (bool_decide (metadata st = [])) then metadata st
          else [str "# Pi-hole optimized blocklist";
                str "# Last updated: " ++ strftime now]),
    (sorted (elements (domains st))),
    (map (render_flat pf' a st) (sorted (elements (domains st)))).
  split; [|split; [|split; [done|split; [done|]]]].
  - rewrite Hset, Hlen. unfold header, body_lines. cbn [andb].
    by rewrite <- app_assoc.
  - destruct Hh as (_ & _ & Hm & _).
    destruct (pm && negb (bool_decide (metadata st = []))).
    + eapply Forall_impl; [exact Hm|]. by intros l [? _].
    + repeat (apply Forall_cons; split; [by apply yields_comment|]).
      by apply Forall_nil.
  - apply Forall2_fmap_l, Forall_Forall2_diag.
    eapply Forall_impl; [exact Hin|]. intros d Hd.
    by apply (render_flat_ok st Hh).
Qed.

(** ** Where the lines of the output come from *)

Lemma detect_format_adblock lines pf :
  (detect_format lines pf).1 = true -> (detect_format lines pf).2 = true.
Proof. unfold detect_format. by repeat case_match. Qed.

Lemma optimize_body_run decode s pm pg pf now :
  exists st,
    second_pass pm pg (detect_format (splitlines s) pf).2 (splitlines s) = Ok st
    /\ hygienic st /\ domains st = domain_set (splitlines s)
    /\ optimize_body decode (PyStr s) pm pg pf now
       = Ok (join [LF]
               (header pm st now
                ++ body_lines pg (detect_format (splitlines s) pf).2
                     (detect_format (splitlines s) pf).1 st),
             domains st).
Proof.
  unfold optimize_body. cbn [bind].
  destruct (detect_format (splitlines s) pf) as [adblock_style pf'].
  destruct (second_pass_domains pm pg pf' (splitlines s) (splitlines_nobreak s))
    as (st & Hrun & Hh & Hd).
  exists st. cbn [fst snd]. rewrite Hrun. done.
Qed.

Lemma process_line_metadata pm pg pf st line st' :
  process_line pm pg pf st line = Ok st' ->
  Forall (fun m => startswith (str "#") m = true) (metadata st) ->
  Forall (fun m => startswith (str "#") m = true) (metadata st').
Proof.
  rewrite process_line_yields. intros Hstep Hm.
  destruct (yields line) as [d|].
  { apply add_domain_fields in Hstep as (_ & _ & -> & _). done. }
  destruct (is_comment (strip line)) eqn:Hc; [|by injection Hstep as <-].
  injection Hstep as <-.
  assert (startswith (str "#")
            (if startswith (str "!") (strip line)
             then str "#" ++ drop 1 (strip line) else strip line) = true) as Hl.
  { unfold is_comment in Hc. destruct (startswith (str "!") (strip line)); [done|].
    by rewrite orb_false_r in Hc. }
  unfold process_comment.
  repeat case_match; cbn [metadata]; try done; apply Forall_app; split; try done;
    by apply Forall_singleton.
Qed.

Lemma for_each_metadata pm pg pf lines st st' :
  for_each (process_line pm pg pf) st lines = Ok st' ->
  Forall (fun m => startswith (str "#") m = true) (metadata st) ->
  Forall (fun m => startswith (str "#") m = true) (metadata st').
Proof.
  revert st. induction lines as [|line lines IH]; intros st Hrun Hm.
  { by injection Hrun as <-. }
  cbn [for_each] in Hrun.
  destruct (process_line pm pg pf st line) as [st1|] eqn:Hstep; [|done].
  cbn [bind] in Hrun. eapply IH; [exact Hrun|].
  by eapply process_line_metadata.
Qed.

(** With the format preserved, every domain of the set has a remembered
    line: the last line of the input that yields it. *)
Lemma second_pass_remembered pm pg lines st d :
  second_pass pm pg true lines = Ok st -> d ∈ domain_set lines ->
  exists line, last (occurrences d lines) = Some line
    /\ domain_formats st !! d = Some (strip line).
Proof.
  intros Hrun Hd.
  destruct (for_each_formats pm pg lines init_state init_state_known)
    as (st1 & Hrun1 & _ & Hf).
  unfold second_pass in Hrun. rewrite Hrun in Hrun1. injection Hrun1 as <-.
  apply elem_of_domain_set in Hd as (line & Hin & Hy).
  assert (line ∈ occurrences d lines) as Hocc.
  { unfold occurrences. by apply list_elem_of_filter. }
  destruct (last (occurrences d lines)) as [line'|] eqn:Hlast.
  - exists line'. by rewrite Hf, Hlast.
  - apply last_None in Hlast. rewrite Hlast in Hocc. by apply elem_of_nil in Hocc.
Qed.

Section Origin.
Variables (pm pg kept adblock_style : bool) (lines : list text) (st : pass_state).
Hypothesis Hrun : second_pass pm pg kept lines = Ok st.
Hypothesis Hdom : domains st = domain_set lines.
Hypothesis Hstyle : adblock_style = true -> kept = true.

Lemma render_origin d :
  d ∈ domains st ->
  line_origin lines (domains st) kept (render_grouped kept st d)
  /\ line_origin lines (domains st) kept (render_flat kept adblock_style st d).
Proof.
  intros Hd. unfold line_origin, render_grouped, render_flat, remembered.
  destruct kept.
  - rewrite Hdom in Hd.
    destruct (second_pass_remembered pm pg lines st d Hrun Hd) as (line & Hlast & ->).
    rewrite <- Hdom in Hd.
    split; right; right; exists d; split; try done; by exists line.
  - destruct adblock_style; [by discriminate Hstyle|].
    split; right; right; by exists d.
Qed.

Lemma rendered_origin ds :
  Forall (fun d => d ∈ domains st) ds ->
  Forall (line_origin lines (domains st) kept) (map (render_grouped kept st) ds)
  /\ Forall (line_origin lines (domains st) kept)
       (map (render_flat kept adblock_style st) ds).
Proof.
  intros Hds. split; apply Forall_fmap; (eapply Forall_impl; [exact Hds|]);
    intros d Hd; by apply render_origin.
Qed.

Lemma group_section_origin entry :
  Forall (line_origin lines (domains st) kept) (group_section kept st entry).
Proof.
  unfold group_section. cbv zeta. case_bool_decide; [by apply Forall_nil|].
  apply Forall_cons. split; [by right; left|].
  apply Forall_app. split; [|by apply Forall_singleton; left].
  apply rendered_origin, Forall_sorted, valid_members_in.
Qed.

Lemma body_lines_origin :
  Forall (line_origin lines (domains st) kept)
    (body_lines pg kept adblock_style st).
Proof.
  unfold body_lines. destruct (pg && negb (bool_decide (groups st = []))).
  - apply Forall_app. split.
    + apply Forall_concat, Forall_fmap, Forall_forall. intros entry _.
      apply group_section_origin.
    + unfold ungrouped_section. cbv zeta. case_bool_decide; [by apply Forall_nil|].
      apply Forall_cons. split; [by right; left|].
      apply rendered_origin, Forall_sorted, Forall_forall. intros d.
      rewrite elem_of_elements. set_solver.
  - apply rendered_origin, Forall_sorted, Forall_forall. intros d.
    by rewrite elem_of_elements.
Qed.

Lemma header_origin now :
  Forall (line_origin lines (domains st) kept) (header pm st now).
Proof.
  unfold header. apply Forall_app. split.
  - assert (Forall (fun m => startswith (str "#") m = true) (metadata st)) as Hm.
    { eapply for_each_metadata; [exact Hrun|]. by apply Forall_nil. }
    destruct (pm && negb (bool_decide (metadata st = []))).
    + eapply Forall_impl; [exact Hm|]. intros l Hl. by right; left.
    + repeat (apply Forall_cons; split; [by right; left|]). by apply Forall_nil.
  - apply Forall_cons. split; [by right; left|]. by apply Forall_singleton; left.
Qed.
End Origin.

(** X6: every line of the text that [optimize_blocklist] returns is
    empty, or a comment, or the line of a domain of the returned set. When
    the format is preserved (asked for, or detected by the first pass), the
    line of a domain is the stripped last line of the input that yields it;
    otherwise it is the hosts line of the domain. A line in AdBlock notation
    is never synthesized. *)
Theorem domain_lines_kept_or_standardized decode s pm pg pf now :
  Forall
    (line_origin (splitlines s)
       (optimize_blocklist decode (PyStr s) pm pg pf now).2
       (detect_format (splitlines s) pf).2)
    (splitlines (optimize_blocklist decode (PyStr s) pm pg pf now).1).
Proof.
  destruct (optimize_body_run decode s pm pg pf now) as (st & Hpass & Hh & Hd & Hrun).
  unfold optimize_blocklist. rewrite Hrun. cbn [try_except fst snd].
  set (ls := header pm st now
             ++ body_lines pg (detect_format (splitlines s) pf).2
                  (detect_format (splitlines s) pf).1 st).
  assert (Forall (line_origin (splitlines s) (domains st)
                    (detect_format (splitlines s) pf).2) ls) as Hls.
  { apply Forall_app. split.
    - by apply (header_origin pm pg _ (splitlines s) st).
    - apply (body_lines_origin pm pg _ _ (splitlines s) st); [done..|].
      apply detect_format_adblock. }
  destruct (splitlines_join ls) as (ls' & -> & [E|E]).
  - apply Forall_app. split; [apply (header_ok st Hh)|apply (body_lines_ok st Hh)].
  - by rewrite <- E.
  - rewrite E in Hls. by apply Forall_app in Hls as [? _].
Qed.

(** ** The order of the groups *)

Lemma first_seen_snoc names g :
  first_seen (names ++ [g])
  = if decide (g ∈ names) then first_seen names else first_seen names ++ [g].
Proof.
  unfold first_seen. rewrite reverse_snoc. cbn [remove_dups]. unfold decide_rel.
  destruct (list_elem_of_dec g (reverse names)) as [Hin|Hin];
    rewrite elem_of_reverse in Hin.
  - by rewrite decide_True.
  - by rewrite decide_False, reverse_cons.
Qed.

Lemma elem_of_first_seen names g : g ∈ first_seen names <-> g ∈ names.
Proof. unfold first_seen. by rewrite elem_of_reverse, elem_of_remove_dups, elem_of_reverse. Qed.

Lemma dict_get_keys {V} k (d : odict V) : is_Some (dict_get k d) <-> k ∈ d.*1.
Proof.
  induction d as [|[k' v] d IH]; simpl.
  - split; [by intros [? ?]|by intros ?%elem_of_nil].
  - destruct (decide (k' = k)) as [->|Hne].
    + split; [left|by eexists].
    + rewrite IH, elem_of_cons. naive_solver.
Qed.

Lemma dict_set_fst {V} k (v : V) (d : odict V) :
  (dict_set k v d).*1 = if decide (k ∈ d.*1) then d.*1 else d.*1 ++ [k].
Proof.
  induction d as [|[k' v'] d IH]; cbn [dict_set].
  - case_decide as Hin; [by apply elem_of_nil in Hin|done].
  - destruct (decide (k' = k)) as [->|Hne].
    + rewrite decide_True; [done|]. rewrite fmap_cons. left.
    + rewrite !fmap_cons, IH. cbn [fst].
      destruct (decide (k ∈ d.*1)) as [Hin|Hin].
      * rewrite decide_True; [done|by right].
      * rewrite decide_False; [done|]. rewrite elem_of_cons. naive_solver.
Qed.

Lemma omap_snoc {X Y} (f : X -> option Y) l x :
  omap f (l ++ [x])
  = match f x with Some y => omap f l ++ [y] | None => omap f l end.
Proof. rewrite omap_app. simpl. destruct (f x); by rewrite ?app_nil_r. Qed.

Lemma process_line_keys pm pf st line st' :
  group_known st ->
  process_line pm true pf st line = Ok st' ->
  (groups st').*1
  = match header_of line with
    | Some g => if decide (g ∈ (groups st).*1) then (groups st).*1
                else (groups st).*1 ++ [g]
    | None => (groups st).*1
    end.
Proof.
  intros Hk Hstep. destruct (header_of line) as [g|] eqn:Hh.
  - destruct (process_line_header pm pf st line g Hh) as (st1 & Hstep1 & _ & Hg & _).
    rewrite Hstep in Hstep1. injection Hstep1 as <-.
    by rewrite Hg, dict_set_fst.
  - destruct (process_line_no_header pm pf st line st' Hh Hstep) as [_ Hy].
    destruct (yields line) as [d|]; [|by destruct Hy as [-> _]].
    apply add_domain_groups in Hy.
    destruct (open_group (current_group st)) as [g|]; [|by rewrite Hy].
    destruct Hy as (ms & Hget & ->).
    rewrite dict_set_fst, decide_True; [done|].
    apply dict_get_keys. by rewrite Hget.
Qed.

(** X7: the second pass keeps the groups in the order in which their
    headers first occur in the input: a repeated header does not move its
    group. *)
Theorem groups_in_order_of_first_header pm pf lines :
  exists st,
    second_pass pm true pf lines = Ok st
    /\ (groups st).*1 = first_seen (omap header_of lines).
Proof.
  assert (exists st, second_pass pm true pf lines = Ok st /\ group_known st
            /\ (groups st).*1 = first_seen (omap header_of lines)) as (st & ? & _ & ?);
    [|by exists st].
  induction lines as [|line lines IH] using rev_ind.
  { exists init_state. split; [done|]. split; [apply init_state_known|done]. }
  destruct IH as (st & Hrun & Hk & Hkeys).
  destruct (process_line_known pm true pf st line Hk) as (st' & Hstep & Hk').
  exists st'. unfold second_pass in *. rewrite for_each_app, Hrun. cbn [bind for_each].
  rewrite Hstep. split; [done|]. split; [done|].
  rewrite (process_line_keys pm pf st line st' Hk Hstep), omap_snoc.
  destruct (header_of line) as [g|]; [|done].
  - rewrite first_seen_snoc, Hkeys.
    destruct (decide (g ∈ omap header_of lines)) as [Hin|Hin].
    + rewrite decide_True; [done|]. by apply elem_of_first_seen.
    + rewrite decide_False; [done|]. by rewrite elem_of_first_seen.
Qed.

(** * Properties of the configuration and the pipeline *)

(** ** Strings and the lines of the configuration file *)

Lemma startswith_spec p s : startswith p s = true <-> exists b, s = p ++ b.
Proof.
  revert s. induction p as [|a p IH]; intros s.
  - split; [by exists s|done].
  - destruct s as [|c s]; cbn [startswith].
    + split; [done|by intros [? ?]].
    + rewrite andb_true_iff, is_chr_true, IH. split.
      * intros [-> [b ->]]. by exists b.
      * intros [b [= -> ->]]. split; [done|by exists b].
Qed.

Lemma contains_spec p s : contains p s = true <-> exists a b, s = a ++ p ++ b.
Proof.
  induction s as [|c s IH].
  - cbn [contains]. rewrite orb_false_r, startswith_spec. split.
    + intros [b H]. by exists [], b.
    + intros (a & b & H). destruct a; [by exists b|done].
  - cbn [contains]. rewrite orb_true_iff, startswith_spec, IH. split.
    + intros [[b ->]|(a & b & ->)]; [by exists [], b|by exists (c :: a), b].
    + intros ([|x a] & b & H); [left; by exists b|].
      injection H as -> ->. right. by exists a, b.
Qed.

Lemma contains_trans p q s :
  contains p q = true -> contains q s = true -> contains p s = true.
Proof.
  rewrite !contains_spec. intros (a & b & ->) (a' & b' & ->).
  exists (a' ++ a), (b ++ b'). by rewrite <- !app_assoc.
Qed.

Lemma contains_strip s : contains (strip s) s = true.
Proof.
  apply contains_spec. destruct (lstrip_suffix s) as [p Hp].
  destruct (lstrip_suffix (rev (lstrip s))) as [q Hq].
  exists p, (rev q). unfold strip, rstrip.
  rewrite <- rev_app_distr, <- Hq, rev_involutive. done.
Qed.

Lemma split_on_nonempty sep s : split_on sep s <> [].
Proof.
  destruct s as [|c s]; [done|]. cbn [split_on].
  destruct (is_chr sep c); [done|]. by destruct (split_on sep s).
Qed.

Lemma join_cons_char sep c part parts :
  join sep ((c :: part) :: parts) = c :: join sep (part :: parts).
Proof. by destruct parts. Qed.

(** Splitting and joining again gives the string back. *)
Lemma join_split_on sep s : join [sep] (split_on sep s) = s.
Proof.
  induction s as [|c s IH]; [done|]. cbn [split_on].
  pose proof (split_on_nonempty sep s) as Hne.
  destruct (split_on sep s) as [|part parts]; [done|].
  destruct (is_chr sep c) eqn:Hc.
  - apply is_chr_true in Hc as <-.
    change (join [sep] ([] :: part :: parts))
      with ([] ++ [sep] ++ join [sep] (part :: parts)).
    by rewrite IH.
  - by rewrite join_cons_char, IH.
Qed.

Lemma split_on_no_sep sep s : Forall (fun part => sep ∉ part) (split_on sep s).
Proof.
  induction s as [|c s IH].
  - repeat constructor. apply not_elem_of_nil.
  - cbn [split_on]. pose proof (split_on_nonempty sep s) as Hne.
    destruct (split_on sep s) as [|part parts]; [done|].
    apply Forall_cons in IH as [Hpart IH].
    destruct (is_chr sep c) eqn:Hc.
    + apply Forall_cons. split; [apply not_elem_of_nil|]. by apply Forall_cons.
    + apply is_chr_false in Hc. apply Forall_cons. split; [|done].
      rewrite elem_of_cons. naive_solver.
Qed.

(** A line of three parts. *)
Lemma split_on_three sep s a b c :
  split_on sep s = [a; b; c] ->
  s = a ++ [sep] ++ b ++ [sep] ++ c /\ Forall (fun part => sep ∉ part) [a; b; c].
Proof.
  intros E. pose proof (join_split_on sep s) as Hj.
  pose proof (split_on_no_sep sep s) as Hn. rewrite E in Hj, Hn.
  done.
Qed.

Lemma strip_no_chr (x : ascii) s : x ∉ s -> x ∉ strip s.
Proof.
  intros Hx Hin. apply Hx.
  destruct (proj1 (contains_spec (strip s) s) (contains_strip s)) as (a & b & ->).
  rewrite !elem_of_app. auto.
Qed.

Lemma startswith_hash_strip l :
  startswith (str "#") l = true -> startswith (str "#") (strip l) = true.
Proof.
  destruct l as [|c t]; [done|]. cbn [startswith str list_ascii_of_string].
  rewrite andb_true_r. intros Hc. apply is_chr_true in Hc as <-.
  by destruct (strip_head "#" t eq_refl) as [t' ->].
Qed.

Section ConfigProps.
Variable url_ok : text -> bool.

Lemma load_line_entry cfg line :
  load_line url_ok cfg line
  = match entry_of url_ok line with
    | Some b => {| blocklists := blocklists cfg ++ [b];
                   categories := {[bl_category b]} ∪ categories cfg |}
    | None => cfg
    end.
Proof.
  unfold load_line, entry_of. cbv zeta.
  destruct (is_empty (strip line) || startswith (str "#") (strip line)); [done|].
  destruct (split_on "|" (strip line)) as [|u [|n [|c [|? ?]]]]; try done.
  by destruct (url_ok (strip u)).
Qed.

Lemma foldl_load_line cfg lines :
  foldl (load_line url_ok) cfg lines
  = {| blocklists := blocklists cfg ++ omap (entry_of url_ok) lines;
       categories := list_to_set (bl_category <$> omap (entry_of url_ok) lines)
                     ∪ categories cfg |}.
Proof.
  revert cfg. induction lines as [|line lines IH]; intros cfg.
  - simpl. rewrite app_nil_r, (left_id_L ∅ (∪)). by destruct cfg.
  - cbn [foldl]. rewrite IH, load_line_entry.
    change (omap (entry_of url_ok) (line :: lines))
      with (match entry_of url_ok line with
            | Some b => b :: omap (entry_of url_ok) lines
            | None => omap (entry_of url_ok) lines
            end).
    destruct (entry_of url_ok line) as [b|]; [|done].
    cbn [blocklists categories].
    rewrite <- app_assoc. f_equal. rewrite fmap_cons, list_to_set_cons.
    set_solver.
Qed.
End ConfigProps.

Lemma entry_of_comment url_ok line :
  startswith (str "#") line = true -> entry_of url_ok line = None.
Proof.
  intros H. unfold entry_of. cbv zeta.
  by rewrite (startswith_hash_strip line H), orb_true_r.
Qed.

Lemma entry_of_url url_ok line b :
  entry_of url_ok line = Some b ->
  contains (bl_url b) line = true /\ url_ok (bl_url b) = true
  /\ Forall (fun field => ("|"%char ∉ field) /\ strip field = field)
       [bl_url b; bl_name b; bl_category b].
Proof.
  unfold entry_of. cbv zeta.
  destruct (is_empty (strip line) || startswith (str "#") (strip line)); [done|].
  destruct (split_on "|" (strip line)) as [|u [|n [|c [|? ?]]]] eqn:E; try done.
  destruct (url_ok (strip u)) eqn:Hok; [|done]. intros [= <-]. cbn [bl_url bl_name bl_category].
  apply split_on_three in E as [E Hsep].
  split; [|split; [done|]].
  - apply (contains_trans _ u); [apply contains_strip|].
    apply (contains_trans _ (strip line)); [|apply contains_strip].
    apply contains_spec. exists [], ([ "|"%char ] ++ n ++ [ "|"%char ] ++ c). by rewrite E.
  - apply Forall_cons in Hsep as [Hu Hsep]. apply Forall_cons in Hsep as [Hn Hsep].
    apply Forall_cons in Hsep as [Hc _].
    repeat (apply Forall_cons; split; [split; [by apply strip_no_chr|apply strip_strip]|]).
    by apply Forall_nil.
Qed.

Lemma mentions_false failed_urls line u :
  mentions failed_urls line = false -> u ∈ failed_urls -> contains u line = false.
Proof.
  unfold mentions. intros Hm Hu. destruct (contains u line) eqn:Hc; [|done].
  assert (existsb (fun url => contains url line) failed_urls = true) as H; [|congruence].
  apply existsb_exists. exists u. split; [by apply list_elem_of_In|done].
Qed.

Lemma omap_entry_of_update url_ok failed_lists lines :
  omap (entry_of url_ok) (update_config_file failed_lists lines)
  = omap (entry_of url_ok)
      (filter (fun line => mentions (map f_url failed_lists) line = false) lines).
Proof.
  unfold update_config_file.
  destruct failed_lists as [|f fs].
  { f_equal. induction lines as [|line lines IH]; [done|].
    rewrite filter_cons, decide_True by done. by f_equal. }
  cbv zeta. set (urls := map f_url (f :: fs)).
  induction lines as [|line lines IH]; [done|].
  rewrite filter_cons. cbn [map].
  change (omap (entry_of url_ok) (?x :: ?l))
    with (match entry_of url_ok x with
          | Some b => b :: omap (entry_of url_ok) l
          | None => omap (entry_of url_ok) l
          end).
  rewrite IH.
  destruct (mentions urls line) eqn:Hm.
  - rewrite decide_False by done.
    destruct (startswith (str "#") line) eqn:Hc; cbn [andb negb].
    + by rewrite entry_of_comment.
    + by rewrite entry_of_comment.
  - by rewrite decide_True.
Qed.

Lemma load_lines_entries url_ok lines :
  load_lines url_ok lines
  = {| blocklists := omap (entry_of url_ok) lines;
       categories := list_to_set (bl_category <$> omap (entry_of url_ok) lines) |}.
Proof.
  unfold load_lines. rewrite foldl_load_line. cbn [empty_config blocklists categories app].
  by rewrite (right_id_L ∅ (∪)).
Qed.

(** X8: after [update_config_file], [load_config] loads what it loads
    from the lines of the old file that contain no failed URL, and no loaded
    entry has a URL that contains a failed URL: the failed lists are not
    loaded again. *)
Theorem rewritten_config_drops_failed_lists url_ok failed_lists lines :
  load_config url_ok (Some (update_config_file failed_lists lines))
  = load_config url_ok
      (Some (filter (fun line => mentions (map f_url failed_lists) line = false)
               lines))
  /\ Forall (fun b =>
       Forall (fun f => contains (f_url f) (bl_url b) = false) failed_lists)
       (blocklists (load_lines url_ok (update_config_file failed_lists lines))).
Proof.
  assert (load_lines url_ok (update_config_file failed_lists lines)
          = load_lines url_ok
              (filter (fun line => mentions (map f_url failed_lists) line = false)
                 lines)) as E.
  { by rewrite !load_lines_entries, omap_entry_of_update. }
  split; [unfold load_config; by rewrite E|].
  rewrite E, load_lines_entries. cbn [blocklists].
  apply Forall_forall. intros b Hb.
  apply list_elem_of_omap in Hb as (line & Hline & Hb).
  apply list_elem_of_filter in Hline as [Hm _].
  apply entry_of_url in Hb as (Hurl & _).
  apply Forall_forall. intros f Hf.
  destruct (contains (f_url f) (bl_url b)) eqn:Hc; [|done].
  rewrite <- (mentions_false _ line (f_url f) Hm).
  - symmetry. by apply (contains_trans _ (bl_url b)).
  - by apply list_elem_of_fmap_2.
Qed.

(** X9: [update_config_file] is idempotent: lines it has disabled are
    comments, which it leaves alone. *)
Theorem update_config_file_idempotent failed_lists lines :
  update_config_file failed_lists (update_config_file failed_lists lines)
  = update_config_file failed_lists lines.
Proof.
  unfold update_config_file. destruct failed_lists as [|f fs]; [done|].
  cbv zeta. set (urls := map f_url (f :: fs)).
  induction lines as [|line lines IH]; [done|].
  cbn [map]. rewrite IH. f_equal.
  destruct (mentions urls line && negb (startswith (str "#") line)) eqn:Hc; [|by rewrite Hc].
  by rewrite andb_false_r.
Qed.

Lemma omap_length_le {X Y} (f : X -> option Y) l : length (omap f l) <= length l.
Proof.
  induction l as [|x l IH]; [done|].
  change (omap f (x :: l))
    with (match f x with Some y => y :: omap f l | None => omap f l end).
  destruct (f x); simpl; lia.
Qed.

(** X10: what the loop of [load_config] keeps: [self.categories] holds
    exactly the categories of the loaded entries, there is at most one
    entry per line, the URL of every entry passed the check, and no field
    of an entry contains the separator or has white space around it. *)
Theorem loaded_entries_are_well_formed url_ok lines :
  categories (load_lines url_ok lines)
  = list_to_set (bl_category <$> blocklists (load_lines url_ok lines))
  /\ length (blocklists (load_lines url_ok lines)) <= length lines
  /\ Forall (fun b =>
       url_ok (bl_url b) = true
       /\ Forall (fun field => ("|"%char ∉ field) /\ strip field = field)
            [bl_url b; bl_name b; bl_category b])
       (blocklists (load_lines url_ok lines)).
Proof.
  rewrite load_lines_entries. cbn [blocklists categories].
  split; [done|]. split; [apply omap_length_le|].
  apply Forall_forall. intros b Hb.
  apply list_elem_of_omap in Hb as (line & _ & Hb).
  by apply entry_of_url in Hb as (_ & ? & ?).
Qed.

(** ** Processing the lists *)

Lemma dict_set_sum {V} (f : V -> nat) k v (d : odict V) :
  sum_list_with (fun e => f e.2) (dict_set k v d)
  + match dict_get k d with Some old => f old | None => 0 end
  = sum_list_with (fun e => f e.2) d + f v.
Proof.
  induction d as [|[k' v'] d IH]; cbn [dict_set dict_get sum_list_with snd].
  - lia.
  - destruct (decide (k' = k)) as [->|Hne]; cbn [sum_list_with snd]; lia.
Qed.

Lemma dict_set_Forall {V} (P : text * V -> Prop) k v (d : odict V) :
  P (k, v) -> Forall P d -> Forall P (dict_set k v d).
Proof.
  intros Hk. induction 1 as [|[k' v'] d Hx Hd IH]; cbn [dict_set].
  - by apply Forall_singleton.
  - destruct (decide (k' = k)); apply Forall_cons; auto.
Qed.

Lemma optimize_blocklist_bytes decode b pm pg pf now :
  optimize_blocklist decode (PyBytes b) pm pg pf now
  = optimize_blocklist decode (PyStr (decode b)) pm pg pf now.
Proof. reflexivity. Qed.

Lemma optimize_blocklist_good decode content pm pg pf now d :
  d ∈ (optimize_blocklist decode content pm pg pf now).2 -> good_domain d.
Proof.
  assert (forall s, d ∈ (optimize_blocklist decode (PyStr s) pm pg pf now).2
                    -> good_domain d) as Hs.
  { intros s. destruct (optimize_body_text decode s pm pg pf now)
      as (t & st & a & pf' & Hrun & (Hgood & _) & _).
    unfold optimize_blocklist. rewrite Hrun. cbn [try_except snd]. apply Hgood. }
  destruct content as [b|s|]; [rewrite optimize_blocklist_bytes|..]; try apply Hs.
  unfold optimize_blocklist, optimize_body. cbn [bind try_except error_result snd].
  by intros ?%elem_of_empty.
Qed.

Lemma record_failure_consistent skip_optimize m b w :
  consistent skip_optimize m -> consistent skip_optimize (record_failure m b w).
Proof.
  intros (Hf & Ht & Hs & Hc & Hd). unfold consistent. cbn.
  rewrite length_app. cbn. split; [lia|done].
Qed.

(** One call: the state stays consistent, and unless downloads are
    skipped exactly one of the two counters goes up by one. *)
Lemma process_blocklist_consistent decode skip_download skip_optimize m b w :
  consistent skip_optimize m ->
  let m' := (process_blocklist decode skip_download skip_optimize m b w).1 in
  consistent skip_optimize m'
  /\ (if skip_download then m' = m
      else successful m' + failed m' = S (successful m + failed m)).
Proof.
  intros Hm. cbv zeta. unfold process_blocklist.
  destruct skip_download; [done|].
  destruct (response w) as [content|].
  2:{ split; [by apply record_failure_consistent|cbn; lia]. }
  destruct (raw_saved w); cbn [negb].
  2:{ split; [by apply record_failure_consistent|cbn; lia]. }
  destruct skip_optimize eqn:Hso; cbn [negb].
  - destruct (saved w); cbn [negb].
    2:{ split; [by apply record_failure_consistent|cbn; lia]. }
    cbn [fst]. split; [|cbn; lia].
    destruct Hm as (Hf & Ht & Hs & Hc & Hd). unfold consistent. cbn. done.
  - destruct (optimize_blocklist decode (PyBytes content) _ _ _ _)
      as [optimized_content ds] eqn:Hopt.
    destruct (saved w); cbn [negb].
    2:{ split; [by apply record_failure_consistent|cbn; lia]. }
    cbn [fst]. split; [|cbn; lia].
    destruct Hm as (Hf & Ht & Hs & Hc & Hd). unfold consistent.
    cbn [domain_stats failed_lists successful failed total_domains stats_categories].
    set (stats := match dict_get (bl_category b) (stats_categories m) with
                  | Some stats => stats
                  | None => {| lists := 0; cat_domains := 0 |}
                  end).
    pose proof (dict_set_sum cat_domains (bl_category b)
      {| lists := S (lists stats); cat_domains := cat_domains stats + size ds |}
      (stats_categories m)) as H1.
    pose proof (dict_set_sum lists (bl_category b)
      {| lists := S (lists stats); cat_domains := cat_domains stats + size ds |}
      (stats_categories m)) as H2.
    pose proof (dict_set_sum count (bl_name b)
      {| category := bl_category b; stat_domains := ds; count := size ds |}
      (domain_stats m)) as H3.
    cbn [lists cat_domains count] in H1, H2, H3.
    assert (match dict_get (bl_category b) (stats_categories m) with
            | Some old => cat_domains old | None => 0 end = cat_domains stats) as E1.
    { unfold stats. by destruct (dict_get (bl_category b) (stats_categories m)). }
    assert (match dict_get (bl_category b) (stats_categories m) with
            | Some old => lists old | None => 0 end = lists stats) as E2.
    { unfold stats. by destruct (dict_get (bl_category b) (stats_categories m)). }
    rewrite E1 in H1. rewrite E2 in H2.
    specialize (Hs eq_refl).
    split; [done|]. split; [lia|]. split; [intros _; lia|]. split.
    + destruct (dict_get (bl_name b) (domain_stats m)); lia.
    + apply dict_set_Forall; [|done]. cbn. split; [done|].
      intros d Hd'. apply (optimize_blocklist_good decode (PyBytes content)
        (has_metadata (decode (take 4000 content)))
        (has_grouping (decode (take 4000 content)))
        (is_primarily_adblock (decode (take 4000 content))) (clock w) d).
      by rewrite Hopt.
Qed.

Lemma process_all_consistent decode skip_download skip_optimize worlds bs : forall i m,
  consistent skip_optimize m ->
  let m' := process_all decode skip_download skip_optimize worlds i m bs in
  consistent skip_optimize m'
  /\ (if skip_download then m' = m
      else successful m' + failed m' = successful m + failed m + length bs).
Proof.
  induction bs as [|b bs IH]; intros i m Hm; cbv zeta.
  { cbn. split; [done|]. destruct skip_download; [done|lia]. }
  cbn [process_all].
  destruct (process_blocklist_consistent decode skip_download skip_optimize m b (worlds i) Hm)
    as [Hm1 Hn1].
  destruct (IH (S i) _ Hm1) as [Hm2 Hn2]. cbv zeta in Hn1, Hn2.
  split; [done|]. destruct skip_download.
  - by rewrite Hn2, Hn1.
  - cbn [length]. lia.
Qed.

(** What one call does to [self.domain_stats] and to the total. *)
Lemma process_blocklist_domain_stats decode skip_download skip_optimize m b w :
  let m' := (process_blocklist decode skip_download skip_optimize m b w).1 in
  (domain_stats m' = domain_stats m /\ total_domains m' = total_domains m)
  \/ exists ds,
       domain_stats m'
       = dict_set (bl_name b)
           {| category := bl_category b; stat_domains := ds; count := size ds |}
           (domain_stats m)
       /\ total_domains m' = total_domains m + size ds.
Proof.
  cbv zeta. unfold process_blocklist.
  destruct skip_download; [by left|].
  destruct (response w) as [content|]; [|by left].
  destruct (raw_saved w); [|by left]. cbn [negb].
  destruct skip_optimize; cbn [negb].
  - destruct (saved w); by left.
  - destruct (optimize_blocklist decode (PyBytes content) _ _ _ _)
      as [optimized_content ds].
    destruct (saved w); [|by left]. right. by exists ds.
Qed.


(** With list names that differ from one another, the total is the sum
    of the recorded counts. *)
Lemma process_all_distinct_names decode skip_download skip_optimize worlds bs :
  forall i m,
  NoDup (bl_name <$> bs) ->
  Forall (fun b => bl_name b ∉ (domain_stats m).*1) bs ->
  sum_list_with (fun e => count e.2) (domain_stats m) = total_domains m ->
  sum_list_with (fun e => count e.2)
    (domain_stats (process_all decode skip_download skip_optimize worlds i m bs))
  = total_domains (process_all decode skip_download skip_optimize worlds i m bs).
Proof.
  induction bs as [|b bs IH]; intros i m Hnd Hnew Hsum; [done|].
  rewrite fmap_cons in Hnd. apply NoDup_cons in Hnd as [Hb Hnd].
  apply Forall_cons in Hnew as [Hbnew Hnew]. cbn [process_all].
  destruct (process_blocklist_domain_stats decode skip_download skip_optimize
              m b (worlds i)) as [[E1 E2]|(ds & E1 & E2)].
  - apply IH; [done|by rewrite E1|by rewrite E1, E2].
  - apply IH; [done| |].
    + rewrite E1, dict_set_fst, decide_False by done.
      apply Forall_forall. intros b' Hb'. rewrite elem_of_app, list_elem_of_singleton.
      intros [Hin|Heq].
      * by apply (proj1 (Forall_forall _ _) Hnew b').
      * apply Hb. rewrite <- Heq. by apply list_elem_of_fmap_2.
    + rewrite E1, E2.
      pose proof (dict_set_sum count (bl_name b)
        {| category := bl_category b; stat_domains := ds; count := size ds |}
        (domain_stats m)) as H3.
      assert (dict_get (bl_name b) (domain_stats m) = None) as Hget.
      { destruct (dict_get (bl_name b) (domain_stats m)) eqn:E; [|done].
        exfalso. apply Hbnew, dict_get_keys. by rewrite E. }
      rewrite Hget in H3. cbn [count] in H3. lia.
Qed.

(** ** The production lists of a run *)




Lemma init_manager_consistent skip_optimize : consistent skip_optimize init_manager.
Proof. unfold consistent. cbn. by repeat split. Qed.


(** X12: the counters after the lists are processed one after the
    other: every list is counted as successful or as failed (unless
    downloads are skipped, when nothing changes), the failed lists are as
    many as the counter says, the total of domains is the sum over the
    categories, the successful lists are the sum over the categories
    (unless optimization is skipped), and the counts recorded per list sum
    up to at most the total, exactly to it when no two lists share a
    name. *)
Theorem counters_after_processing decode skip_download skip_optimize worlds bs :
  exists m,
    m = process_all decode skip_download skip_optimize worlds 0 init_manager bs
    /\ (if skip_download then m = init_manager
        else successful m + failed m = length bs)
    /\ length (failed_lists m) = failed m
    /\ total_domains m
       = sum_list_with (fun e => cat_domains e.2) (stats_categories m)
    /\ (skip_optimize = false ->
        successful m = sum_list_with (fun e => lists e.2) (stats_categories m))
    /\ sum_list_with (fun e => count e.2) (domain_stats m) <= total_domains m
    /\ (NoDup (bl_name <$> bs) ->
        sum_list_with (fun e => count e.2) (domain_stats m) = total_domains m).
Proof.
  eexists. split; [done|].
  destruct (process_all_consistent decode skip_download skip_optimize worlds bs
              0 init_manager (init_manager_consistent skip_optimize))
    as [(Hf & Ht & Hs & Hc & _) Hn].
  cbv zeta in *. split.
  { destruct skip_download; [done|]. by rewrite Hn. }
  split; [done|]. split; [done|]. split; [done|]. split; [done|].
  intros Hnd. apply process_all_distinct_names; [done| |done].
  apply Forall_forall. intros b _. apply not_elem_of_nil.
Qed.

(** ** The master list *)

Lemma splitlines_terminated ls :
  Forall nobreak ls ->
  splitlines (concat (map (fun l => l ++ [LF]) ls)) = ls.
Proof.
  induction 1 as [|l ls Hl _ IH]; [done|].
  cbn [map concat]. rewrite <- app_assoc. cbn [app].
  by rewrite splitlines_first_line, IH.
Qed.

Lemma master_list_lines (now : datetime) (ds : gset text) :
  master_list now ds
  = concat (map (fun l => l ++ [LF])
      ([str "# Pi-hole Master Blocklist";
        str "# Last updated: " ++ strftime now;
        str "# Total domains: " ++ str_of_nat (length (sorted (elements ds)));
        []]
       ++ map hosts_line (sorted (elements ds)))).
Proof.
  unfold master_list. cbv zeta. rewrite map_app, concat_app, map_map.
  cbn [map concat]. rewrite <- !app_assoc. done.
Qed.

(** X13: the master list written for a set of valid domains reads
    back, through [optimize_blocklist] under any flags, as that set. *)
Theorem master_list_reads_back decode now ds pm pg pf now' :
  (forall d, d ∈ ds -> good_domain d) ->
  (optimize_blocklist decode (PyStr (master_list now ds)) pm pg pf now').2 = ds.
Proof.
  intros Hgood. rewrite optimize_blocklist_text, master_list_lines.
  destruct (sorted_elements ds) as (_ & _ & Hset & _ & Hin).
  assert (Forall good_domain (sorted (elements ds))) as Hg.
  { eapply Forall_impl; [exact Hin|]. done. }
  rewrite splitlines_terminated.
  - rewrite domain_set_app, (domain_set_none [_; _; _; _]).
    + rewrite (left_id_L ∅ (∪)), domain_set_render; [done|].
      eapply Forall_impl; [exact Hg|]. intros d. apply yields_hosts_line.
    + repeat (apply Forall_cons; split; [by apply yields_comment|]).
      apply Forall_cons. split; [done|by apply Forall_nil].
  - apply Forall_app. split.
    + repeat (apply Forall_cons; split;
        [first [by repeat constructor
               |apply nobreak_app; [by repeat constructor|];
                first [apply nobreak_strftime|apply nobreak_str_of_nat]]|]).
      by apply Forall_nil.
    + apply Forall_fmap. eapply Forall_impl; [exact Hg|]. intros d.
      apply nobreak_hosts_line.
Qed.

Lemma master_list_reads_back_witness :
  (optimize_blocklist sample_decode
     (PyStr (master_list sample_now {[str "ads.example.com"; str "b.io"]}))
     true true false sample_now).2
  = {[str "ads.example.com"; str "b.io"]}.
Proof.
  apply (master_list_reads_back sample_decode sample_now
           {[str "ads.example.com"; str "b.io"]} true true false sample_now).
  intros d Hd. apply elem_of_union in Hd as [Hd|Hd];
    apply elem_of_singleton in Hd as ->;
    (split; [by vm_compute|by repeat constructor]).
Defined.

(** * Further properties of the extractor *)

(** ** Other notations of the same lines *)

Lemma digit_props c :
  is_digit c = true -> is_marker c = false /\ c <> LF /\ is_space c = false.
Proof.
  intros Hc.
  pose proof (ascii_forall
    (fun c => negb (is_digit c)
              || (negb (is_marker c) && negb (is_chr LF c) && negb (is_space c)))
    eq_refl c) as H.
  cbv beta in H. rewrite Hc in H. cbn [negb orb] in H.
  apply andb_true_iff in H as [H H3]. apply andb_true_iff in H as [H1 H2].
  apply negb_true_iff in H1, H2, H3. by apply is_chr_false in H2.
Qed.

Lemma space_not_marker c : is_space c = true -> is_marker c = false.
Proof.
  intros Hc. destruct (is_marker c) eqn:Hm; [|done].
  apply marker_not_space in Hm. congruence.
Qed.

Lemma first_caret d r g o :
  "^"%char ∉ d -> "^"%char ∉ r -> d ++ "^"%char :: r = g ++ "^"%char :: o -> g = d.
Proof.
  revert g. induction d as [|x d IH]; intros g Hd Hr E.
  - destruct g as [|y g]; [done|]. simpl in E. injection E as <- E.
    exfalso. apply Hr. rewrite E. rewrite elem_of_app. right. left.
  - apply not_elem_of_cons in Hd as [Hx Hd].
    destruct g as [|y g]; simpl in E.
    + injection E as E _. congruence.
    + injection E as <- E. f_equal. by apply IH.
Qed.

Section Variants.
Variable d : text.
Hypothesis Hgood : good_domain d.

Lemma hosts_variant_match a1 a2 a3 a4 w :
  Forall ip_part [a1; a2; a3; a4] -> blank w ->
  let l := a1 ++ str "." ++ a2 ++ str "." ++ a3 ++ str "." ++ a4 ++ w ++ d in
  re_match IP_DOMAIN_PATTERN l = Some (Some d)
  /\ (LF ∉ l) /\ Forall (fun c => is_marker c = false) l /\ l <> [].
Proof.
  intros Hip [Hwne Hw]. cbv zeta.
  apply Forall_cons in Hip as [[H1 H1'] Hip]. apply Forall_cons in Hip as [[H2 H2'] Hip].
  apply Forall_cons in Hip as [[H3 H3'] Hip]. apply Forall_cons in Hip as [[H4 H4'] _].
  destruct (good_domain_chars d Hgood) as [Hne Hd].
  assert (Forall (fun c => is_space c = false) d) as Hsp.
  { apply (dom_chr_Forall _ d); [|done]. intros c Hc. by apply dom_chr_props. }
  set (l := a1 ++ str "." ++ a2 ++ str "." ++ a3 ++ str "." ++ a4 ++ w ++ d).
  assert (Forall (fun c => is_marker c = false /\ c <> LF) l) as Hl.
  { assert (forall a, Forall (fun c => is_digit c = true) a ->
              Forall (fun c => is_marker c = false /\ c <> LF) a) as Hdig.
    { intros a Ha. eapply Forall_impl; [exact Ha|]. intros c Hc.
      by destruct (digit_props c Hc) as (? & ? & _). }
    unfold l. repeat (apply Forall_app; split; [first [by apply Hdig|by repeat constructor]|]).
    apply Forall_app. split.
    - eapply Forall_impl; [exact Hw|]. intros c [Hc ?]. split; [by apply space_not_marker|done].
    - apply (dom_chr_Forall _ d); [|done]. intros c Hc.
      by destruct (dom_chr_props c Hc) as (_ & ? & _ & ? & _). }
  assert (LF ∉ l) as Hlf.
  { intros Hin. by destruct (proj1 (Forall_forall _ _) Hl LF Hin). }
  assert (l <> []) as Hlne.
  { unfold l. destruct a1; [simpl in H1; lia|done]. }
  split; [|split; [done|split; [|done]]].
  2:{ eapply Forall_impl; [exact Hl|]. by intros c [? _]. }
  assert (Matches IP_DOMAIN_PATTERN l [] None (Some d)) as Hm.
  { replace l
      with ([] ++ a1 ++ str "." ++ a2 ++ str "." ++ a3 ++ str "." ++ a4 ++ w ++ d ++ [])
      by (unfold l; simpl; by rewrite app_nil_r).
    unfold IP_DOMAIN_PATTERN, star, plus, between, ws, digit, nonws.
    eapply M_Cat; [by apply Matches_Rep_class|].
    eapply M_Cat; [apply Matches_Rep_class; [lia|intros h [= <-]; lia|done]|].
    eapply M_Cat; [apply Matches_chr|].
    eapply M_Cat; [apply Matches_Rep_class; [lia|intros h [= <-]; lia|done]|].
    eapply M_Cat; [apply Matches_chr|].
    eapply M_Cat; [apply Matches_Rep_class; [lia|intros h [= <-]; lia|done]|].
    eapply M_Cat; [apply Matches_chr|].
    eapply M_Cat; [apply Matches_Rep_class; [lia|intros h [= <-]; lia|done]|].
    eapply M_Cat.
    { apply Matches_Rep_class; [|done|].
      - destruct w; [done|simpl; lia].
      - eapply Forall_impl; [exact Hw|]. by intros c [? _]. }
    eapply M_Cat; [|by constructor].
    eapply M_Grp. apply Matches_Rep_class; [|done|].
    - destruct d; [done|simpl; lia].
    - eapply Forall_impl; [exact Hsp|]. intros c Hc. by apply negb_true_iff. }
  destruct (proj2 (re_match_line IP_DOMAIN_PATTERN _ eq_refl eq_refl Hlf))
    as [x Hx]; [eauto|].
  rewrite Hx. f_equal.
  apply re_match_line_group in Hx; [|done..].
  apply ip_pattern_inv in Hx
    as (w0 & d1 & mid & w1 & tok & E & _ & _ & _ & Hw1 & Hw1' & Htok & ->).
  f_equal.
  destruct (exists_last (l := w1)) as (w1' & s1 & ->).
  { intros ->. simpl in Hw1. lia. }
  destruct (exists_last (l := w)) as (w' & s & ->); [done|].
  apply Forall_app in Hw1' as [_ Hs1]. apply Forall_cons in Hs1 as [Hs1 _].
  apply Forall_app in Hw as [_ Hs]. apply Forall_cons in Hs as [[Hs _] _].
  apply (last_word_unique (w0 ++ d1 ++ mid ++ w1')
           (a1 ++ str "." ++ a2 ++ str "." ++ a3 ++ str "." ++ a4 ++ w') s1 s tok d);
    [done|done|done|done|].
  unfold l in E. rewrite <- !app_assoc in E. rewrite <- !app_assoc.
  etrans; [symmetry; exact E|]. done.
Qed.

Lemma adblock_variant_match o :
  plain_options o ->
  let l := adblock_line d ++ "$"%char :: o in
  re_match IP_DOMAIN_PATTERN l = None
  /\ re_match ADBLOCK_PATTERN l = Some (Some d)
  /\ (LF ∉ l) /\ Forall (fun c => is_marker c = false) l /\ l <> [].
Proof.
  intros Ho. cbv zeta.
  destruct (good_domain_chars d Hgood) as [Hne Hd].
  set (l := adblock_line d ++ "$"%char :: o).
  assert (l = "|"%char :: "|"%char :: d ++ "^"%char :: "$"%char :: o) as El.
  { unfold l, adblock_line. simpl. by rewrite <- app_assoc. }
  assert (Forall (fun c => is_marker c = false /\ c <> LF) l) as Hl.
  { rewrite El. repeat (apply Forall_cons; split; [done|]).
    apply Forall_app. split.
    - apply (dom_chr_Forall _ d); [|done]. intros c Hc.
      by destruct (dom_chr_props c Hc) as (_ & ? & _ & ? & _).
    - repeat (apply Forall_cons; split; [done|]).
      eapply Forall_impl; [exact Ho|]. by intros c (_ & ? & ?). }
  assert (LF ∉ l) as Hlf.
  { intros Hin. by destruct (proj1 (Forall_forall _ _) Hl LF Hin). }
  assert ("^"%char ∉ d) as Hcaret.
  { intros Hin. apply (proj1 (Forall_forall _ _) Hd) in Hin.
    apply dom_chr_props in Hin. by destruct Hin as (_ & _ & _ & _ & ? & _). }
  split; [|split; [|split; [done|split]]].
  - destruct (re_match IP_DOMAIN_PATTERN l) as [x|] eqn:Hx; [|done].
    unfold re_match in Hx.
    apply run_sound in Hx as (u & v & g' & E & Hm & _).
    apply ip_pattern_inv in Hm
      as (w0 & d1 & mid & w1 & tok & -> & Hw0 & Hd1 & Hd1' & _).
    rewrite El in E.
    destruct w0 as [|c w0].
    + destruct d1 as [|c d1]; [simpl in Hd1; lia|].
      simpl in E. injection E as <- _.
      apply Forall_cons in Hd1' as [Hc _]. done.
    + simpl in E. injection E as <- _.
      apply Forall_cons in Hw0 as [Hc _]. done.
  - assert (Matches ADBLOCK_PATTERN l [] None (Some d)) as Hm.
    { replace l
        with (str "|" ++ str "|" ++ d ++ str "^" ++ (("$"%char :: o) ++ []) ++ [])
        by (rewrite El; simpl; by rewrite !app_nil_r).
      unfold ADBLOCK_PATTERN, star, plus_lazy, opt, dot.
      eapply M_Cat; [apply Matches_chr|].
      eapply M_Cat; [apply Matches_chr|].
      eapply M_Cat.
      { eapply M_Grp. apply Matches_Rep_class; [|done|].
        - destruct d; [done|simpl; lia].
        - apply Forall_forall. intros c Hc.
          apply (proj1 (Forall_forall _ _) Hd), dom_chr_props in Hc.
          destruct Hc as (_ & _ & _ & Hc & _).
          by apply negb_true_iff, is_chr_false. }
      eapply M_Cat; [apply Matches_chr|].
      eapply M_Cat; [|by constructor].
      apply (M_Rep _ _ _ _ 1); [lia|intros h [= <-]; lia|].
      eapply I_S; [|apply I_O].
      change ("$"%char :: o) with (str "$" ++ o).
      eapply M_Cat; [apply Matches_chr|].
      apply Matches_Rep_class; [lia|done|].
      eapply Forall_impl; [exact Ho|]. intros c (_ & Hc & _).
      by apply negb_true_iff, is_chr_false. }
    destruct (proj2 (re_match_line ADBLOCK_PATTERN _ eq_refl eq_refl Hlf))
      as [x Hx]; [eauto|].
    rewrite Hx. f_equal.
    apply re_match_line_group in Hx; [|done..].
    apply adblock_pattern_inv in Hx as (tok & o' & E & ->).
    f_equal. rewrite El in E. injection E as E.
    apply (first_caret d ("$"%char :: o) tok o'); [done| |done].
    apply not_elem_of_cons. split; [done|].
    intros Hin. by destruct (proj1 (Forall_forall _ _) Ho _ Hin) as [? _].
  - eapply Forall_impl; [exact Hl|]. by intros c [? _].
  - by rewrite El.
Qed.
End Variants.

(** X14: a line made of four numbers of one to three digits separated
    by dots, white space, and a valid domain is read as that domain,
    whatever the address and the white space are. *)
Theorem hosts_line_with_any_address d a1 a2 a3 a4 w line :
  good_domain d -> Forall ip_part [a1; a2; a3; a4] -> blank w ->
  strip line = a1 ++ str "." ++ a2 ++ str "." ++ a3 ++ str "." ++ a4 ++ w ++ d ->
  extract_domain_from_line line = Some d.
Proof.
  intros Hg Hip Hw Hline. rewrite <- extract_strip.
  destruct (hosts_variant_match d Hg a1 a2 a3 a4 w Hip Hw) as (Hm & Hlf & Hmk & Hne).
  cbv zeta in *. rewrite <- Hline in Hm, Hlf, Hmk, Hne.
  rewrite extract_clean_line; [by rewrite Hm|done|apply strip_strip|done|done].
Qed.

Lemma hosts_line_with_any_address_witness :
  extract_domain_from_line
    (str "127.0.0.1" ++ [ascii_of_N 9; " "%char] ++ str "ads.example.com" ++ [CR; LF])
  = Some (str "ads.example.com").
Proof.
  apply (hosts_line_with_any_address (str "ads.example.com")
           (str "127") (str "0") (str "0") (str "1") [ascii_of_N 9; " "%char]).
  - split; [by vm_compute|by repeat constructor].
  - repeat (apply Forall_cons; split;
      [split; [simpl; lia|by repeat constructor]|]). by apply Forall_nil.
  - split; [done|]. by repeat constructor.
  - by vm_compute.
Defined.

(** X15: the options that follow the caret of an AdBlock rule are
    ignored: the rule of a valid domain with options is read as that
    domain. *)
Theorem adblock_options_are_ignored d o line :
  good_domain d -> plain_options o ->
  strip line = adblock_line d ++ "$"%char :: o ->
  extract_domain_from_line line = Some d.
Proof.
  intros Hg Ho Hline. rewrite <- extract_strip.
  destruct (adblock_variant_match d Hg o Ho) as (Hip & Hm & Hlf & Hmk & Hne).
  cbv zeta in *. rewrite <- Hline in Hip, Hm, Hlf, Hmk, Hne.
  rewrite extract_clean_line; [by rewrite Hip, Hm|done|apply strip_strip|done|done].
Qed.

Lemma adblock_options_are_ignored_witness :
  extract_domain_from_line (str "||ads.example.com^$third-party,image")
  = Some (str "ads.example.com").
Proof.
  apply (adblock_options_are_ignored (str "ads.example.com")
           (str "third-party,image")).
  - split; [by vm_compute|by repeat constructor].
  - by repeat constructor.
  - by vm_compute.
Defined.

(** ** Trailing comments *)

Lemma lstrip_spaces p s :
  Forall (fun c => is_space c = true) p -> lstrip (p ++ s) = lstrip s.
Proof.
  induction 1 as [|c p Hc _ IH]; [done|]. cbn [app lstrip]. by rewrite Hc.
Qed.

Lemma lstrip_prefix s :
  exists p, s = p ++ lstrip s /\ Forall (fun c => is_space c = true) p.
Proof.
  induction s as [|c s (p & E & Hp)]; [by exists []|].
  cbn [lstrip]. destruct (is_space c) eqn:Hc.
  - exists (c :: p). split; [by rewrite E at 1|]. by apply Forall_cons.
  - by exists [].
Qed.

Lemma lstrip_app s t : lstrip s <> [] -> lstrip (s ++ t) = lstrip s ++ t.
Proof.
  induction s as [|c s IH]; [done|]. cbn [app lstrip].
  destruct (is_space c); [exact IH|done].
Qed.

Lemma rstrip_spaces s sp :
  Forall (fun c => is_space c = true) sp -> rstrip (s ++ sp) = rstrip s.
Proof.
  intros Hsp. unfold rstrip. rewrite rev_app_distr, lstrip_spaces; [done|].
  by apply Forall_rev.
Qed.

Lemma rstrip_suffix s :
  exists sp, s = rstrip s ++ sp /\ Forall (fun c => is_space c = true) sp.
Proof.
  destruct (lstrip_prefix (rev s)) as (p & E & Hp).
  exists (rev p). split; [|by apply Forall_rev].
  unfold rstrip. rewrite <- rev_app_distr, <- E. by rewrite rev_involutive.
Qed.

Lemma lstrip_behind r m x :
  is_space m = false -> lstrip (r ++ m :: x) = lstrip r ++ m :: x.
Proof.
  intros Hm. induction r as [|y r IH]; cbn [app lstrip].
  - by rewrite Hm.
  - by destruct (is_space y).
Qed.

Lemma rstrip_behind s m c :
  is_space m = false -> rstrip (s ++ m :: c) = s ++ m :: rstrip c.
Proof.
  intros Hm. unfold rstrip. rewrite rev_app_distr. cbn [rev].
  rewrite <- app_assoc. cbn [app]. rewrite lstrip_behind by done.
  rewrite rev_app_distr. cbn [rev]. rewrite rev_involutive.
  by rewrite <- app_assoc.
Qed.

Lemma strip_spaces s sp :
  Forall (fun c => is_space c = true) sp -> strip (s ++ sp) = strip s.
Proof.
  intros Hsp. unfold strip. destruct (lstrip s) as [|x t] eqn:El.
  - destruct (lstrip_prefix s) as (p & E & Hp). rewrite El, app_nil_r in E. subst p.
    destruct (lstrip_prefix (s ++ sp)) as (p & E & Hp').
    assert (lstrip (s ++ sp) = []) as ->; [|done].
    rewrite lstrip_spaces by done.
    rewrite <- (app_nil_r sp). by rewrite lstrip_spaces.
  - rewrite lstrip_app by (by rewrite El). rewrite El.
    by apply rstrip_spaces.
Qed.

Lemma before_marker_behind s m c :
  is_marker m = true -> before_marker (s ++ m :: c) = before_marker s.
Proof.
  intros Hm. induction s as [|x s IH]; cbn [app before_marker].
  - by rewrite Hm.
  - destruct (is_marker x); [done|]. by rewrite IH.
Qed.

Lemma before_marker_spaces s sp :
  Forall (fun c => is_space c = true) sp ->
  before_marker (s ++ sp) = before_marker s
  \/ (before_marker (s ++ sp) = s ++ sp /\ before_marker s = s).
Proof.
  intros Hsp. induction s as [|x s IH]; cbn [app before_marker].
  - right. split; [|done]. apply before_marker_id.
    eapply Forall_impl; [exact Hsp|]. intros c Hc.
    destruct (is_marker c) eqn:Hm; [|done]. apply marker_not_space in Hm. congruence.
  - destruct (is_marker x); [by left|].
    destruct IH as [->|[-> ->]]; [by left|by right].
Qed.

Lemma strip_before_marker_rstrip t :
  strip (before_marker (rstrip t)) = strip (before_marker t).
Proof.
  destruct (rstrip_suffix t) as (sp & E & Hsp).
  rewrite E at 2.
  destruct (before_marker_spaces (rstrip t) sp Hsp) as [->|[-> ->]]; [done|].
  by rewrite strip_spaces.
Qed.

Lemma lstrip_head s x t : lstrip s = x :: t -> is_space x = false.
Proof.
  induction s as [|c s IH]; [done|]. cbn [lstrip].
  destruct (is_space c) eqn:Hc; [exact IH|]. by intros [= <- _].
Qed.

(** X16: a comment appended to a line does not change what
    [extract_domain_from_line] returns for it. *)
Theorem trailing_comment_is_ignored l m c :
  is_marker m = true -> LF ∉ l ++ m :: c ->
  extract_domain_from_line (l ++ m :: c) = extract_domain_from_line l.
Proof.
  intros Hm Hlf.
  assert (is_space m = false) as Hsp by by apply marker_not_space.
  assert (Forall (fun x => x <> LF) (l ++ m :: c)) as Hall.
  { apply Forall_forall. by intros x Hx ->. }
  assert (Forall (fun x => x <> LF) l) as Hl by by apply Forall_app in Hall as [? _].
  assert (forall s, Forall (fun x => x <> LF) s -> LF ∉ strip s) as Hstrip.
  { intros s Hs Hin. apply (strip_Forall _ s) in Hs.
    by apply (proj1 (Forall_forall _ _) Hs LF Hin). }
  unfold extract_domain_from_line.
  rewrite !re_sub_inline_comment by by apply Hstrip.
  destruct (lstrip l) as [|x t] eqn:El.
  - destruct (lstrip_prefix l) as (p & E & Hp). rewrite El, app_nil_r in E. subst p.
    assert (strip l = []) as ->.
    { unfold strip. by rewrite El. }
    assert (strip (l ++ m :: c) = m :: rstrip c) as ->.
    { unfold strip. rewrite lstrip_spaces by done. cbn [lstrip]. rewrite Hsp.
      apply (rstrip_behind [] m c Hsp). }
    rewrite is_comment_head. fold (is_marker m). rewrite Hm. done.
  - pose proof (lstrip_head l x t El) as Hx.
    assert (strip (l ++ m :: c) = (x :: t) ++ m :: rstrip c) as ->.
    { unfold strip. rewrite lstrip_app by (by rewrite El). rewrite El.
      by apply rstrip_behind. }
    assert (strip l = rstrip (x :: t)) as ->.
    { unfold strip. by rewrite El. }
    destruct (strip_head x t Hx) as [t' Ht'].
    assert (rstrip (x :: t) = x :: t') as Er.
    { rewrite <- Ht'. unfold strip. cbn [lstrip]. by rewrite Hx. }
    rewrite before_marker_behind by done.
    rewrite <- (strip_before_marker_rstrip (x :: t)).
    rewrite Er. cbn [app]. by rewrite !is_comment_head.
Qed.

Lemma trailing_comment_is_ignored_witness :
  extract_domain_from_line (str "0.0.0.0 ads.example.com # served by !cdn")
  = extract_domain_from_line (str "0.0.0.0 ads.example.com ").
Proof.
  apply (trailing_comment_is_ignored (str "0.0.0.0 ads.example.com ")
           "#"%char (str " served by !cdn")).
  - reflexivity.
  - apply has_chr_false. by vm_compute.
Defined.

(** * Further properties of the normalizer: errors and metadata *)

(** ** The error path is not taken on text *)


(** ** The metadata of the header *)

Lemma process_line_metadata_line pm pg pf st line st' :
  process_line pm pg pf st line = Ok st' ->
  metadata st'
  = metadata st
    ++ (if pm then match metadata_line line with Some l => [l] | None => [] end
        else []).
Proof.
  rewrite process_line_yields. unfold metadata_line, yields. cbv zeta.
  destruct (is_comment (strip line)) eqn:Hc; cbn [orb].
  - intros [= <-]. unfold process_comment. cbv zeta.
    set (l := if startswith (str "!") (strip line)
              then str "#" ++ drop 1 (strip line) else strip line).
    destruct (pg && is_group_label l); cbn [metadata];
      destruct pm; cbn [andb]; rewrite ?app_nil_r; try done;
      by destruct (existsb _ metadata_keywords); rewrite ?app_nil_r.
  - intros Hstep.
    assert (metadata st' = metadata st) as ->.
    { destruct (is_empty (strip line)); [by injection Hstep as <-|].
      destruct (extract_domain_from_line (strip line)) as [d|];
        [|by injection Hstep as <-].
      destruct (negb (is_empty d) && is_valid_domain d);
        [|by injection Hstep as <-].
      by apply add_domain_fields in Hstep as (_ & _ & ? & _). }
    destruct pm; by rewrite app_nil_r.
Qed.

Lemma for_each_metadata_lines pm pg pf lines : forall st st',
  for_each (process_line pm pg pf) st lines = Ok st' ->
  metadata st' = metadata st ++ (if pm then omap metadata_line lines else []).
Proof.
  induction lines as [|line lines IH]; intros st st' Hrun.
  { injection Hrun as <-. destruct pm; by rewrite app_nil_r. }
  cbn [for_each] in Hrun.
  destruct (process_line pm pg pf st line) as [st1|] eqn:Hstep; [|done].
  cbn [bind] in Hrun. rewrite (IH st1 st' Hrun).
  rewrite (process_line_metadata_line pm pg pf st line st1 Hstep), <- app_assoc.
  f_equal. destruct pm; [|done].
  change (omap metadata_line (line :: lines))
    with (match metadata_line line with
          | Some l => l :: omap metadata_line lines
          | None => omap metadata_line lines
          end).
  by destruct (metadata_line line).
Qed.

(** X18: when metadata is preserved and the input has a metadata
    comment, the returned text begins with the metadata comments of the
    input, in their order and with a leading [!] turned into [#], followed
    by the line of the count; no generated header is written, so that the
    result does not depend on the clock. *)
Theorem kept_metadata_is_the_header decode s pg pf now :
  omap metadata_line (splitlines s) <> [] ->
  (exists body,
     (optimize_blocklist decode (PyStr s) true pg pf now).1
     = join [LF]
         (omap metadata_line (splitlines s)
          ++ [str "# Total domains: "
              ++ str_of_nat (size (optimize_blocklist decode (PyStr s) true pg pf now).2);
              []]
          ++ body))
  /\ forall now',
       optimize_blocklist decode (PyStr s) true pg pf now'
       = optimize_blocklist decode (PyStr s) true pg pf now.
Proof.
  intros Hmeta.
  destruct (optimize_body_run decode s true pg pf now) as (st & Hpass & _ & _ & Hrun).
  pose proof (for_each_metadata_lines true pg _ _ init_state st Hpass) as Hm.
  cbn [init_state metadata app] in Hm.
  assert (header true st now
          = omap metadata_line (splitlines s)
            ++ [str "# Total domains: " ++ str_of_nat (size (domains st)); []]) as Hh.
  { unfold header. rewrite Hm. cbn [andb]. by rewrite bool_decide_eq_false_2. }
  assert (forall now', header true st now' = header true st now) as Hclock.
  { intros now'. unfold header. rewrite Hm. cbn [andb].
    by rewrite bool_decide_eq_false_2. }
  split.
  - unfold optimize_blocklist. rewrite Hrun. cbn [try_except fst snd].
    rewrite Hh, <- app_assoc. by eexists.
  - intros now'.
    destruct (optimize_body_run decode s true pg pf now')
      as (st' & Hpass' & _ & _ & Hrun').
    rewrite Hpass in Hpass'. injection Hpass' as <-.
    unfold optimize_blocklist. by rewrite Hrun, Hrun', Hclock.
Qed.

Lemma kept_metadata_is_the_header_witness :
  optimize_blocklist sample_decode (PyStr sample_list) true true false
    {| year := 2031; month := 1; day := 2; hour := 3; minute := 4; second := 5 |}
  = optimize_blocklist sample_decode (PyStr sample_list) true true false sample_now.
Proof.
  apply (kept_metadata_is_the_header sample_decode sample_list true false sample_now).
  by vm_compute.
Defined.

(** * Properties of the statistics report *)

Lemma code_inj x y : code x = code y -> x = y.
Proof.
  unfold code. intros H. apply (f_equal ascii_of_N) in H.
  by rewrite !ascii_N_embedding in H.
Qed.

Lemma text_le_antisym a b : text_le a b -> text_le b a -> a = b.
Proof.
  unfold text_le. revert b. induction a as [|x a IH]; intros [|y b]; simpl; try done.
  destruct (N.ltb_spec (code x) (code y)), (N.ltb_spec (code y) (code x));
    try done; try lia.
  intros H1 H2. f_equal; [apply code_inj; lia|by apply IH].
Qed.

Lemma text_le_refl a : text_le a a.
Proof. destruct (text_le_total a a); done. Qed.

Lemma key_le_total x y : key_le x y \/ key_le y x.
Proof.
  unfold key_le. destruct (decide (x.1.2 = y.1.2)) as [E|Hne].
  - rewrite decide_True by done. lia.
  - rewrite decide_False by done. apply text_le_total.
Qed.

Lemma key_le_trans : Transitive key_le.
Proof.
  intros x y z. unfold key_le.
  destruct (decide (x.1.2 = y.1.2)) as [Exy|Nxy];
    destruct (decide (y.1.2 = z.1.2)) as [Eyz|Nyz];
    destruct (decide (x.1.2 = z.1.2)) as [Exz|Nxz];
    try congruence; try lia; intros H1 H2.
  - exfalso. apply Nxy. apply text_le_antisym; [done|]. by rewrite Exz.
  - by apply (text_le_trans _ y.1.2).
Qed.

Lemma insert_row_perm x rows : insert_row x rows ≡ₚ x :: rows.
Proof.
  induction rows as [|y rows IH]; [done|]. cbn [insert_row].
  destruct (decide (key_le x y)); [done|]. rewrite IH. apply Permutation_swap.
Qed.

Lemma sorted_stats_perm rows : sorted_stats rows ≡ₚ rows.
Proof.
  induction rows as [|x rows IH]; [done|]. unfold sorted_stats. cbn [foldr].
  rewrite insert_row_perm. by constructor.
Qed.

Lemma insert_row_sorted x rows :
  StronglySorted key_le rows -> StronglySorted key_le (insert_row x rows).
Proof.
  induction 1 as [|y rows Hs IH Hy]; cbn [insert_row].
  - by repeat constructor.
  - destruct (decide (key_le x y)) as [Hxy|Hxy].
    + constructor; [by constructor|]. constructor; [done|].
      eapply Forall_impl; [exact Hy|]. intros z Hz. by apply (key_le_trans _ y).
    + constructor; [done|]. rewrite insert_row_perm. constructor; [|done].
      by destruct (key_le_total x y).
Qed.

Lemma sorted_stats_sorted rows : StronglySorted key_le (sorted_stats rows).
Proof.
  induction rows as [|x rows IH]; [constructor|]. by apply insert_row_sorted.
Qed.

Lemma key_le_category x y :
  key_le x y -> text_le x.1.2 y.1.2 /\ (x.1.2 = y.1.2 -> y.2 <= x.2).
Proof.
  unfold key_le. destruct (decide (x.1.2 = y.1.2)) as [E|Hne]; [|done].
  intros H. split; [|done]. rewrite E. apply text_le_refl.
Qed.

Lemma filter_other_category (c0 c : text) (rows : list stat_row) :
  text_le c0 c -> c0 <> c -> Forall (fun r => text_le c r.1.2) rows ->
  filter (fun r => r.1.2 = c0) rows = [].
Proof.
  intros Hle Hne. induction 1 as [|r rows Hr _ IH]; [done|].
  rewrite filter_cons, decide_False; [done|].
  intros E. apply Hne. apply text_le_antisym; [done|]. by rewrite <- E.
Qed.

Lemma blocks_without (r : stat_row) rows cats :
  r.1.2 ∉ cats ->
  map (fun c => category_header c
                :: map list_line (filter (fun r' => r'.1.2 = c) (r :: rows))) cats
  = map (fun c => category_header c
                  :: map list_line (filter (fun r' => r'.1.2 = c) rows)) cats.
Proof.
  intros Hr. apply map_ext_in. intros c Hc%list_elem_of_In.
  rewrite filter_cons, decide_False; [done|]. intros E. apply Hr. by rewrite E.
Qed.

(** The lines written for rows in the order of their categories, after a
    row of category [c0]. *)
Lemma detailed_lines_grouped rows : forall c0,
  StronglySorted key_le rows ->
  Forall (fun r => text_le c0 r.1.2) rows ->
  exists cats,
    StronglySorted text_lt cats
    /\ (forall c, c ∈ cats <-> c <> c0 /\ exists r, r ∈ rows /\ r.1.2 = c)
    /\ detailed_lines (Some c0) rows
       = map list_line (filter (fun r => r.1.2 = c0) rows)
         ++ concat (map (fun c => category_header c
                                  :: map list_line (filter (fun r => r.1.2 = c) rows))
                      cats).
Proof.
  induction rows as [|r rows IH]; intros c0 Hs Hc0.
  { exists []. split; [constructor|]. split; [|done].
    intros c. split; [by intros ?%elem_of_nil|]. intros (_ & r & Hr%elem_of_nil & _). done. }
  apply StronglySorted_inv in Hs as [Hs Hr].
  apply Forall_cons in Hc0 as [Hr0 Hc0].
  assert (Forall (fun r' => text_le r.1.2 r'.1.2) rows) as Hrc.
  { eapply Forall_impl; [exact Hr|]. intros r' H. by apply key_le_category in H as [? _]. }
  cbn [detailed_lines].
  destruct (decide (r.1.2 = c0)) as [E|Hne].
  - rewrite decide_True by (by rewrite E).
    destruct (IH c0 Hs Hc0) as (cats & Hcs & Hin & Hlines).
    exists cats. split; [done|]. split.
    + intros c. rewrite Hin. split.
      * intros (Hc & r' & Hr' & Hcat). split; [done|]. exists r'. split; [by right|done].
      * intros (Hc & r' & Hr' & Hcat). split; [done|].
        apply elem_of_cons in Hr' as [->|Hr']; [congruence|]. by exists r'.
    + rewrite blocks_without.
      * rewrite filter_cons, decide_True by done. rewrite E, Hlines. done.
      * rewrite Hin. intros [Hc _]. done.
  - rewrite decide_False by congruence.
    destruct (IH r.1.2 Hs Hrc) as (cats & Hcs & Hin & Hlines).
    assert (r.1.2 ∉ cats) as Hfresh by (rewrite Hin; by intros [? _]).
    exists (r.1.2 :: cats). split; [|split].
    + constructor; [done|]. apply Forall_forall. intros c Hc%Hin.
      destruct Hc as (Hc & r' & Hr' & <-). split; [|done].
      by apply (proj1 (Forall_forall _ _) Hrc r').
    + intros c. rewrite elem_of_cons, Hin. split.
      * intros [->|(Hc & r' & Hr' & Hcat)].
        -- split; [done|]. exists r. split; [left|done].
        -- split.
           ++ intros ->. apply Hc. apply text_le_antisym; [done|].
              rewrite <- Hcat. by apply (proj1 (Forall_forall _ _) Hrc r').
           ++ exists r'. split; [by right|done].
      * intros (Hc & r' & Hr' & Hcat).
        destruct (decide (c = r.1.2)) as [->|Hcr]; [by left|]. right.
        split; [done|]. apply elem_of_cons in Hr' as [->|Hr']; [congruence|].
        by exists r'.
    + rewrite Hlines. cbn [map concat]. rewrite blocks_without by done.
      rewrite (filter_other_category c0 r.1.2 (r :: rows)); [|done|congruence|].
      * rewrite filter_cons, decide_True by done. done.
      * apply Forall_cons. split; [apply text_le_refl|done].
Qed.

(** X19: the detailed statistics of the report list the rows by
    category: the rows are those of [self.domain_stats] in ascending order
    of category and, within a category, in descending order of count; the
    header of a category is written once, in front of the rows of the
    category, and the headers come in strictly ascending order. *)
Theorem detailed_statistics_are_grouped domain_stats :
  exists rows cats,
    rows ≡ₚ stat_rows domain_stats
    /\ StronglySorted
         (fun x y => text_le x.1.2 y.1.2 /\ (x.1.2 = y.1.2 -> y.2 <= x.2)) rows
    /\ StronglySorted text_lt cats
    /\ (forall c, c ∈ cats <-> exists r, r ∈ rows /\ r.1.2 = c)
    /\ detailed_list_statistics domain_stats
       = concat (map (fun c => category_header c
                               :: map list_line (filter (fun r => r.1.2 = c) rows))
                   cats).
Proof.
  unfold detailed_list_statistics.
  pose proof (sorted_stats_perm (stat_rows domain_stats)) as Hp.
  pose proof (sorted_stats_sorted (stat_rows domain_stats)) as Hs.
  set (rows := sorted_stats (stat_rows domain_stats)) in *.
  assert (StronglySorted
            (fun x y => text_le x.1.2 y.1.2 /\ (x.1.2 = y.1.2 -> y.2 <= x.2)) rows)
    as Hs'.
  { clear Hp. induction Hs as [|x l Hl IH Hx]; constructor; [done|].
    eapply Forall_impl; [exact Hx|]. intros y. apply key_le_category. }
  exists rows. destruct rows as [|r rows'] eqn:Erows.
  { exists []. split; [done|]. split; [done|]. split; [constructor|]. split; [|done].
    intros c. split; [by intros ?%elem_of_nil|]. intros (r & Hr%elem_of_nil & _). done. }
  apply StronglySorted_inv in Hs as [Hs Hr].
  assert (Forall (fun r' => text_le r.1.2 r'.1.2) rows') as Hrc.
  { eapply Forall_impl; [exact Hr|]. intros r' H. by apply key_le_category in H as [? _]. }
  destruct (detailed_lines_grouped rows' r.1.2 Hs Hrc) as (cats & Hcs & Hin & Hlines).
  assert (r.1.2 ∉ cats) as Hfresh by (rewrite Hin; by intros [? _]).
  exists (r.1.2 :: cats). split; [done|]. split; [done|]. split; [|split].
  - constructor; [done|]. apply Forall_forall. intros c Hc%Hin.
    destruct Hc as (Hc & r' & Hr' & <-). split; [|done].
    by apply (proj1 (Forall_forall _ _) Hrc r').
  - intros c. rewrite elem_of_cons, Hin. split.
    + intros [->|(Hc & r' & Hr' & Hcat)]; [exists r; split; [left|done]|].
      exists r'. split; [by right|done].
    + intros (r' & Hr' & Hcat).
      destruct (decide (c = r.1.2)) as [->|Hcr]; [by left|]. right.
      split; [done|]. apply elem_of_cons in Hr' as [->|Hr']; [congruence|].
      by exists r'.
  - cbn [detailed_lines map concat]. rewrite decide_False by done.
    rewrite Hlines, blocks_without by done.
    rewrite filter_cons, decide_True by done. done.
Qed.

(** * Further properties of the groups *)

Lemma for_each_members pm pf g body :
  Forall (fun l => header_of l = None) body ->
  forall st st' ms,
    is_empty g = false -> current_group st = Some g ->
    dict_get g (groups st) = Some ms ->
    for_each (process_line pm true pf) st body = Ok st' ->
    dict_get g (groups st') = Some (ms ++ omap yields body).
Proof.
  induction 1 as [|line body Hh _ IH]; intros st st' ms Hg Hc Hm Hrun.
  { injection Hrun as <-. by rewrite app_nil_r. }
  cbn [for_each] in Hrun.
  destruct (process_line pm true pf st line) as [s|] eqn:E; [|done].
  cbn [bind] in Hrun.
  destruct (process_line_no_header pm pf st line s Hh E) as [C Y].
  change (omap yields (line :: body))
    with (match yields line with
          | Some d => d :: omap yields body
          | None => omap yields body
          end).
  destruct (yields line) as [d|].
  - apply add_domain_groups in Y. rewrite Hc in Y. cbn [open_group] in Y.
    rewrite Hg in Y. destruct Y as (ms' & M & G).
    rewrite Hm in M. injection M as <-.
    rewrite (IH s st' (ms ++ [d])); [by rewrite <- app_assoc|done|congruence| |done].
    by rewrite G, dict_get_set_eq.
  - destruct Y as [G _]. apply (IH s st' ms); [done|congruence|by rewrite G|done].
Qed.

(** X20: the members of a group with a non-empty name are the domains
    that the lines behind its last header yield, up to the next header, in
    their order and with their repetitions; the section of the group lists
    them sorted, a domain as often as it was declared. *)
Theorem group_members_are_the_declarations pm pf pre hdr body g :
  header_of hdr = Some g -> is_empty g = false ->
  Forall (fun l => header_of l = None) body ->
  exists st,
    second_pass pm true pf (pre ++ hdr :: body) = Ok st
    /\ dict_get g (groups st) = Some (omap yields body)
    /\ section_domains st g = sorted (omap yields body).
Proof.
  intros Hh Hg Hbody.
  destruct (second_pass_total pm true pf (pre ++ hdr :: body)) as (st & Hrun & _).
  exists st. split; [done|].
  assert (members_valid st) as Hv.
  { apply (for_each_members_valid pm pf (pre ++ hdr :: body) init_state st); [|done].
    intros g' ms. done. }
  assert (dict_get g (groups st) = Some (omap yields body)) as Hm.
  { unfold second_pass in Hrun. rewrite for_each_app in Hrun.
    destruct (for_each (process_line pm true pf) init_state pre) as [st1|]; [|done].
    cbn [bind for_each] in Hrun.
    destruct (process_line_header pm pf st1 hdr g Hh) as (st2 & E & Hc & G & _).
    rewrite E in Hrun. cbn [bind] in Hrun.
    apply (for_each_members pm pf g body Hbody st2 st []); [done|done| |done].
    by rewrite G, dict_get_set_eq. }
  split; [done|]. by rewrite section_domains_members, Hm.
Qed.

Lemma group_members_are_the_declarations_witness :
  exists st,
    second_pass false true false ([] ++ str "#[ads]" :: [str "x.com"; str "||x.com^"])
    = Ok st
    /\ dict_get (str "ads") (groups st)
       = Some (omap yields [str "x.com"; str "||x.com^"])
    /\ section_domains st (str "ads")
       = sorted (omap yields [str "x.com"; str "||x.com^"]).
Proof.
  apply (group_members_are_the_declarations false false [] (str "#[ads]")
           [str "x.com"; str "||x.com^"] (str "ads")).
  - by vm_compute.
  - reflexivity.
  - repeat (apply Forall_cons; split; [by vm_compute|]). by apply Forall_nil.
Defined.

(** The same domain declared twice under a header is listed twice in the
    section of the group, although the domain set holds it once. *)
Example declared_twice_listed_twice :
  exists st,
    second_pass false true false [str "#[ads]"; str "x.com"; str "||x.com^"] = Ok st
    /\ domains st = {[str "x.com"]}
    /\ body_lines true false false st
       = [str "#[ads]"; str "0.0.0.0 x.com"; str "0.0.0.0 x.com"; []].
Proof. eexists. split; [by vm_compute|]. split; by vm_compute. Qed.

(** * Further properties of the pipeline *)

(** ** What is recorded for a list *)

(** X21: when the download and both writes succeed,
    [process_blocklist] returns and records for the list the set of the
    valid tokens of the lines of the decoded content, with its size as the
    count: the detection on the content sample has no part in the set. *)
Theorem recorded_domains_are_the_valid_tokens decode m b w content :
  response w = Some content -> raw_saved w = true -> saved w = true ->
  exists ds,
    (process_blocklist decode false false m b w).2 = (true, size ds, ds)
    /\ dict_get (bl_name b) (domain_stats (process_blocklist decode false false m b w).1)
       = Some {| category := bl_category b; stat_domains := ds; count := size ds |}
    /\ forall d, d ∈ ds
         <-> exists line, line ∈ splitlines (decode content)
               /\ extract_domain_from_line line = Some d
               /\ is_valid_domain d = true.
Proof.
  intros Hr Hraw Hsaved. unfold process_blocklist.
  rewrite Hr, Hraw, Hsaved. cbn [negb].
  destruct (optimize_blocklist decode (PyBytes content) _ _ _ _)
    as [optimized_content ds] eqn:Hopt.
  exists ds. cbn [fst snd domain_stats]. split; [done|].
  split; [by rewrite dict_get_set_eq|].
  intros d.
  assert (ds = domain_set (splitlines (decode content))) as ->.
  { rewrite <- (optimize_blocklist_text decode (decode content)
                 (has_metadata (decode (take 4000 content)))
                 (has_grouping (decode (take 4000 content)))
                 (is_primarily_adblock (decode (take 4000 content))) (clock w)).
    rewrite <- optimize_blocklist_bytes. by rewrite Hopt. }
  rewrite elem_of_domain_set. split.
  - intros (line & Hin & Hy). exists line. by rewrite <- yields_extract.
  - intros (line & Hin & Hex). exists line. by rewrite yields_extract.
Qed.

Lemma recorded_domains_are_the_valid_tokens_witness :
  exists ds,
    (process_blocklist sample_decode false false init_manager sample_blocklist
       sample_world).2 = (true, size ds, ds)
    /\ dict_get (bl_name sample_blocklist)
         (domain_stats (process_blocklist sample_decode false false init_manager
                          sample_blocklist sample_world).1)
       = Some {| category := bl_category sample_blocklist; stat_domains := ds;
                 count := size ds |}
    /\ forall d, d ∈ ds
         <-> exists line,
               line ∈ splitlines (sample_decode (map byte_of_ascii sample_list))
               /\ extract_domain_from_line line = Some d
               /\ is_valid_domain d = true.
Proof.
  apply (recorded_domains_are_the_valid_tokens sample_decode init_manager
           sample_blocklist sample_world (map byte_of_ascii sample_list));
    reflexivity.
Defined.
